(** * Vector<T, Allocator>: storage discipline and exception safety

    A shallow embedding of [vector.h].  The container is a record of the three
    data members [buffer_], [size_], [capacity_]; the allocator is the world
    the container runs in: a heap of blocks of slots, where a slot is either
    raw memory or holds a constructed element.  Exceptions are results of the
    calls: a construction or an allocation throws when the world's plan says
    so, and every [try]/[catch] of the source is a [try_catch] here.

    Modelling conventions:
    - [size_t] values are [nat]; [size_t] is 64 bits wide, and the product
      [size * 2] of [Resize], whose operand is the caller's, wraps as it does
      there ([size_mul]); where a product's operand is the number of elements
      of a block or range that exists ([capacity_ * 2], [size_ * 2] of a
      distance), it is below the point where it would wrap;
    - [int] is 32 bits wide; incrementing an [int] that holds [INT_MAX] is
      undefined;
    - [Allocator] is the stateless [std::allocator]: [alloc_] carries no data,
      so it is not a field, and all containers share one heap;
    - destructors of elements do not throw;
    - what the C++ standard leaves undefined (constructing outside a block,
      destroying raw memory, releasing a block with the wrong count, reading
      raw memory) is executed as a recorded [fault]. *)

From stdpp Require Import base option list gmap.
From Stdlib Require Import ZArith Lia.

Set Default Proof Using "Type".

(** ** The element type

    What the container needs of [T]: the value [T()] produces, the state a
    move constructor leaves its source in, and the two comparisons used by
    the relational operators. *)

Class Element (T : Type) := {
  default_value : T;
  moved_from : T -> T;
  elem_neq : T -> T -> bool;
  elem_lt : T -> T -> bool
}.

(** An element that holds an [int] (or [int] itself, which never throws):
    moving is copying. *)
#[export] Instance int_element : Element Z := {|
  default_value := 0%Z;
  moved_from := fun x => x;
  elem_neq := fun a b => negb (Z.eqb a b);
  elem_lt := Z.ltb
|}.

(** A string-like element: a list of character codes, left empty by a move. *)
Fixpoint text_lt (a b : list nat) : bool :=
  match a, b with
  | _, [] => false
  | [], _ :: _ => true
  | x :: a', y :: b' => (x <? y) || ((x =? y) && text_lt a' b')
  end.

#[export] Instance text_element : Element (list nat) := {|
  default_value := [];
  moved_from := fun _ => [];
  elem_neq := fun a b => negb (bool_decide (a = b));
  elem_lt := text_lt
|}.

(** ** Pointers, allocator calls, undefined behaviour *)

(** [T*] into the heap: [None] is [nullptr], [Some b] the start of block [b];
    [buffer + i] is the pair of a pointer and an index. *)
Abbreviation ptr := (option nat).

Inductive event :=
| Allocated (b n : nat)
| Deallocated (p : ptr) (n : nat)
| Constructed (p : ptr) (i : nat)
| Destroyed (p : ptr) (i : nat).

Inductive fault :=
| BadConstruct (p : ptr) (i : nat)
| BadDestroy (p : ptr) (i : nat)
| BadDeallocate (p : ptr) (n : nat)
| BadRead (p : ptr) (i : nat)
| BadIncrement (c : nat).

#[export] Instance ptr_eq_dec : EqDecision ptr := _.
#[export] Instance event_eq_dec : EqDecision event.
Proof. solve_decision. Defined.
#[export] Instance fault_eq_dec : EqDecision fault.
Proof. solve_decision. Defined.

Inductive exn := bad_alloc | element_failure | out_of_range.

(** ** Machine integers *)

(** [a * b] on [size_t]: unsigned, 64 bits, so the product is reduced modulo
    [2 ^ 64]. *)
Definition size_mul (a b : nat) : nat :=
  Z.to_nat ((Z.of_nat a * Z.of_nat b) mod 2 ^ 64).

(** A number that a [size_t] can hold. *)
Definition fits_size (n : nat) : Prop := (Z.of_nat n < 2 ^ 64)%Z.

(** [INT_MAX] of a 32-bit [int]. *)
Definition int_max : Z := 2147483647.

(** A count that an [int] can hold. *)
Definition fits_int (n : nat) : Prop := (Z.of_nat n <= int_max)%Z.

Inductive outcome (A : Type) :=
| Ok (a : A)
| Throw (e : exn).
Arguments Ok {A} a.
Arguments Throw {A} e.

(** ** The state-and-exception monad *)

Definition M (St A : Type) : Type := St -> outcome A * St.

Definition ret {St A} (a : A) : M St A := fun s => (Ok a, s).
Arguments ret {St A} a s /.

Definition bind {St A B} (m : M St A) (k : A -> M St B) : M St B :=
  fun s => match m s with
           | (Ok a, s') => k a s'
           | (Throw e, s') => (Throw e, s')
           end.
Arguments bind {St A B} m k s /.

Definition throw {St A} (e : exn) : M St A := fun s => (Throw e, s).
Arguments throw {St A} e s /.

(** [try { m } catch (...) { h }]; the handlers of the source all end in
    [throw;], which is [throw e] for the exception [e] that was caught. *)
Definition try_catch {St A} (m : M St A) (h : exn -> M St A) : M St A :=
  fun s => match m s with
           | (Ok a, s') => (Ok a, s')
           | (Throw e, s') => h e s'
           end.
Arguments try_catch {St A} m h s /.

(** A statement that cannot throw. *)
Definition effect {St} (f : St -> St) : M St unit := fun s => (Ok tt, f s).
Arguments effect {St} f s /.

Definition when_ {St} (c : bool) (m : M St unit) : M St unit :=
  fun s => if c then m s else (Ok tt, s).
Arguments when_ {St} c m s /.

Declare Scope cxx_scope.
Delimit Scope cxx_scope with cxx.
Notation "x <- m ;; k" := (bind m (fun x => k))
  (at level 100, m at next level, k at level 200, right associativity) : cxx_scope.
Notation "m ;; k" := (bind m (fun _ => k))
  (at level 100, k at level 200, right associativity) : cxx_scope.
Notation "' pat <- m ;; k" := (bind m (fun x => match x with pat => k end))
  (at level 20, pat pattern, m at level 99, k at level 200) : cxx_scope.
Notation "'try' m 'catch' h" := (try_catch m h)
  (at level 100, m at level 200, h at level 200) : cxx_scope.

(** [for (x : xs) { body }]: left at the first exception. *)
Fixpoint for_ {St X} (xs : list X) (body : X -> M St unit) : M St unit :=
  match xs with
  | [] => ret tt
  | x :: xs' => bind (body x) (fun _ => for_ xs' body)
  end.

(** [for (x : xs) body], for bodies that cannot throw. *)
Definition each {St X} (body : X -> St -> St) (xs : list X) (s : St) : St :=
  foldl (fun s x => body x s) s xs.

(** ** The world: heap, plans of failures, and what has been observed *)

Section Container.
Context {T : Type} `{Element T}.

(** A block is its slots; the count it was allocated with is their number.
    [alloc_plan] and [ctor_plan] say, call by call, whether the next
    [allocate] and the next construction of a [T] throw ([true]); an exhausted
    plan means no further failure.  [trace] lists, oldest first, the blocks
    handed out, the constructions that completed, and every call of [destroy]
    and [deallocate]; [faults] lists the undefined behaviour met. *)
Record world := World {
  heap : gmap nat (list (option T));
  next_block : nat;
  alloc_plan : list bool;
  ctor_plan : list bool;
  trace : list event;
  faults : list fault
}.

Definition observe (e : event) (w : world) : world :=
  World (heap w) (next_block w) (alloc_plan w) (ctor_plan w) (trace w ++ [e]) (faults w).

Definition undefined (f : fault) (w : world) : world :=
  World (heap w) (next_block w) (alloc_plan w) (ctor_plan w) (trace w) (faults w ++ [f]).

Definition with_heap (h : gmap nat (list (option T))) (w : world) : world :=
  World h (next_block w) (alloc_plan w) (ctor_plan w) (trace w) (faults w).

(** [AllocTraits::allocate(alloc_, n)] *)
Definition allocate (n : nat) : M world ptr :=
  fun w =>
    match alloc_plan w with
    | true :: plan =>
        (Throw bad_alloc,
         World (heap w) (next_block w) plan (ctor_plan w) (trace w) (faults w))
    | _ =>
        let b := next_block w in
        (Ok (Some b),
         World (<[b := replicate n None]> (heap w)) (S b) (tail (alloc_plan w))
               (ctor_plan w) (trace w ++ [Allocated b n]) (faults w))
    end.

(** [AllocTraits::deallocate(alloc_, p, n)]: nothing happens for [nullptr];
    otherwise the block goes, whatever it holds, and a count other than the
    one it was allocated with is undefined behaviour, as is a block that is
    not there. *)
Definition deallocate (p : ptr) (n : nat) (w : world) : world :=
  let w := observe (Deallocated p n) w in
  match p with
  | None => w
  | Some b =>
      match heap w !! b with
      | Some slots =>
          let w' := with_heap (delete b (heap w)) w in
          if decide (length slots = n) then w' else undefined (BadDeallocate p n) w'
      | None => undefined (BadDeallocate p n) w
      end
  end.

(** The slot [p + i], when there is one. *)
Definition slot (p : ptr) (i : nat) (w : world) : option (option T) :=
  b ← p; slots ← heap w !! b; slots !! i.

Definition put_slot (p : ptr) (i : nat) (o : option T) (w : world) : world :=
  match p with
  | Some b => with_heap (alter (<[i := o]>) b (heap w)) w
  | None => w
  end.

(** The element [p[i]]. *)
Definition element (p : ptr) (i : nat) (w : world) : option T :=
  o ← slot p i w; o.

(** [AllocTraits::construct(alloc_, p + i, args...)] where the constructor
    called would produce [x].  The constructor throws before anything is
    written; constructing anywhere but in a raw slot is undefined. *)
Definition construct (p : ptr) (i : nat) (x : T) : M world unit :=
  fun w =>
    match ctor_plan w with
    | true :: plan =>
        (Throw element_failure,
         World (heap w) (next_block w) (alloc_plan w) plan (trace w) (faults w))
    | _ =>
        let w := World (heap w) (next_block w) (alloc_plan w) (tail (ctor_plan w))
                       (trace w) (faults w) in
        match slot p i w with
        | Some None => (Ok tt, observe (Constructed p i) (put_slot p i (Some x) w))
        | _ => (Ok tt, undefined (BadConstruct p i) w)
        end
    end.

(** [AllocTraits::construct(alloc_, p + i, std::move(q[j]))]: on success the
    source is left in its moved-from state; a move constructor that throws is
    taken to leave its source as it was. *)
Definition move_construct (p : ptr) (i : nat) (q : ptr) (j : nat) : M world unit :=
  fun w =>
    match element q j w with
    | Some x =>
        match construct p i x w with
        | (Ok _, w') => (Ok tt, put_slot q j (Some (moved_from x)) w')
        | (Throw e, w') => (Throw e, w')
        end
    | None => (Ok tt, undefined (BadRead q j) w)
    end.

(** [AllocTraits::destroy(alloc_, p + i)]: destroying what was never
    constructed is undefined. *)
Definition destroy (p : ptr) (i : nat) (w : world) : world :=
  let w := observe (Destroyed p i) w in
  match slot p i w with
  | Some (Some _) => put_slot p i None w
  | _ => undefined (BadDestroy p i) w
  end.

(** [for (size_t i = from; i < to; i++) AllocTraits::destroy(alloc_, p + i);] *)
Definition destroy_range (p : ptr) (from to : nat) (w : world) : world :=
  each (destroy p) (seq from (to - from)) w.

(** ** The container *)

(** The data members of [Vector], [alloc_] apart. *)
Record vec := Vec {
  buffer_ : ptr;
  size_ : nat;
  capacity_ : nat
}.

(** The default member initialisers: [buffer_{nullptr}], [size_{0}],
    [capacity_{0}]. *)
Definition fresh_vec : vec := Vec None 0 0.

(** A member function runs on [*this], on its local counter ([count] or
    [curr_size] in the source, which the handlers read after the loop that
    advanced it was left by an exception), and on the world. *)
Record frame := Frame {
  this : vec;
  local : nat;
  mem : world
}.

Definition get {A} (f : vec -> A) : M frame A := fun s => (Ok (f (this s)), s).

Definition set_buffer (p : ptr) : M frame unit :=
  effect (fun s => Frame (Vec p (size_ (this s)) (capacity_ (this s))) (local s) (mem s)).
Definition set_size (n : nat) : M frame unit :=
  effect (fun s => Frame (Vec (buffer_ (this s)) n (capacity_ (this s))) (local s) (mem s)).
Definition set_capacity (n : nat) : M frame unit :=
  effect (fun s => Frame (Vec (buffer_ (this s)) (size_ (this s)) n) (local s) (mem s)).

(** [size_t count = 0; body]: the counter is a local of the function, so the
    caller's own counter is back when the function is left, also by an
    exception. *)
Definition with_local {A} (init : nat) (body : M frame A) : M frame A :=
  fun s => let '(r, s') := body (Frame (this s) init (mem s)) in
           (r, Frame (this s') (local s) (mem s')).
Definition get_local : M frame nat := fun s => (Ok (local s), s).
(** [++count] *)
Definition incr : M frame unit :=
  effect (fun s => Frame (this s) (S (local s)) (mem s)).
(** [++curr_size] where [curr_size] is an [int]: undefined when it holds
    [INT_MAX]. *)
Definition incr_int : M frame unit :=
  fun s =>
    if (Z.of_nat (local s) <? int_max)%Z then incr s
    else (Ok tt, Frame (this s) (S (local s)) (undefined (BadIncrement (local s)) (mem s))).

(** A call into the allocator. *)
Definition sys {A} (m : M world A) : M frame A :=
  fun s => let '(r, w) := m (mem s) in (r, Frame (this s) (local s) w).
Definition sys_ (f : world -> world) : M frame unit :=
  effect (fun s => Frame (this s) (local s) (f (mem s))).

Local Open Scope cxx_scope.

(** An iterator of a source range, as far as dereferencing it goes: over
    values that live outside the heap (an initializer list, a caller's
    range), or a [T*] into a block. *)
Inductive iterator :=
| External (x : T)
| Into (p : ptr) (j : nat).

(** [AllocTraits::construct(alloc_, p + i, *iter)] *)
Definition copy_construct (p : ptr) (i : nat) (iter : iterator) : M world unit :=
  match iter with
  | External x => construct p i x
  | Into q j =>
      fun w => match element q j w with
               | Some x => construct p i x w
               | None => (Ok tt, undefined (BadRead q j) w)
               end
  end.

(** [other.begin() .. other.end()] *)
Definition range_of (v : vec) : list iterator :=
  Into (buffer_ v) <$> seq 0 (size_ v).

(** [CopyIterRange(begin, end)], lines 521-535. *)
Definition CopyIterRange (range : list iterator) : M frame unit :=
  with_local 0 (
    buf <- get buffer_ ;;
    try
      for_ range (fun iter =>
        curr_size <- get_local ;;
        sys (copy_construct buf curr_size iter) ;;
        incr)
    catch (fun e =>
      curr_size <- get_local ;;
      sys_ (destroy_range buf 0 curr_size) ;;
      throw e)).

(** [MoveIterRange(begin, end)], lines 514-519: the elements of an
    initializer list are [const], so moving from them copies. *)
Definition MoveIterRange (range : list iterator) : M frame unit :=
  CopyIterRange range.

(** [MoveIterTo(begin(), end(), buffer)], lines 537-550: the source range is
    the container's own elements [buffer_ + 0 .. buffer_ + size_].  The
    counter is declared [auto curr_size = 0], an [int].  The handler is
    [throw;] alone. *)
Definition MoveIterTo (buffer : ptr) : M frame unit :=
  with_local 0 (
    first <- get buffer_ ;;
    n <- get size_ ;;
    try
      for_ (seq 0 n) (fun j =>
        curr_size <- get_local ;;
        sys (move_construct buffer curr_size first j) ;;
        incr_int)
    catch (fun e => throw e)).

(** *** Constructors

    A constructor body runs on the default member initialisers; when it
    throws there is no object. *)

Definition construct_object (body : M frame unit) : M world vec :=
  fun w => match body (Frame fresh_vec 0 w) with
           | (Ok _, s) => (Ok (this s), mem s)
           | (Throw e, s) => (Throw e, mem s)
           end.

(** The handler shared, word for word, by the throwing constructors:
    [deallocate(buffer_, capacity_); size_ = 0; capacity_ = 0;
    buffer_ = nullptr; throw;] *)
Definition abandon (e : exn) : M frame unit :=
  buf <- get buffer_ ;;
  cap <- get capacity_ ;;
  sys_ (deallocate buf cap) ;;
  set_size 0 ;;
  set_capacity 0 ;;
  set_buffer None ;;
  throw e.

(** [Vector(const std::initializer_list<T>&)], lines 31-46. *)
Definition Vector_init (init_lst : list T) : M frame unit :=
  try
    set_size (length init_lst) ;;
    sz <- get size_ ;;
    set_capacity sz ;;
    when_ (negb (length init_lst =? 0)) (
      cap <- get capacity_ ;;
      p <- sys (allocate cap) ;;
      set_buffer p ;;
      CopyIterRange (External <$> init_lst))
  catch abandon.

(** [Vector(std::initializer_list<T>&&)], lines 48-63. *)
Definition Vector_init_move (init_lst : list T) : M frame unit :=
  try
    set_size (length init_lst) ;;
    sz <- get size_ ;;
    set_capacity sz ;;
    when_ (negb (length init_lst =? 0)) (
      cap <- get capacity_ ;;
      p <- sys (allocate cap) ;;
      set_buffer p ;;
      MoveIterRange (External <$> init_lst))
  catch abandon.

(** [Vector(InputIterator begin, InputIterator end)], lines 65-81. *)
Definition Vector_range (range : list iterator) : M frame unit :=
  try
    set_size (length range) ;;
    sz <- get size_ ;;
    set_capacity (sz * 2) ;;
    when_ (negb (sz =? 0)) (
      cap <- get capacity_ ;;
      p <- sys (allocate cap) ;;
      set_buffer p ;;
      CopyIterRange range)
  catch abandon.

(** [Vector(const Vector& other)], lines 83-99. *)
Definition Vector_copy (other : vec) : M frame unit :=
  try
    set_size (size_ other) ;;
    set_capacity (capacity_ other) ;;
    sz <- get size_ ;;
    when_ (negb (sz =? 0)) (
      cap <- get capacity_ ;;
      p <- sys (allocate cap) ;;
      set_buffer p ;;
      CopyIterRange (range_of other))
  catch abandon.

(** [Vector(Vector&& other) noexcept], lines 101-106: the new object and what
    is left of [other]. *)
Definition Vector_move (other : vec) : vec * vec :=
  (Vec (buffer_ other) (size_ other) (capacity_ other), Vec None 0 0).

(** The handler of the two sized constructors. *)
Definition abandon_counted (e : exn) : M frame unit :=
  count <- get_local ;;
  buf <- get buffer_ ;;
  sys_ (destroy_range buf 0 count) ;;
  abandon e.

(** [explicit Vector(size_t size)], lines 108-130. *)
Definition Vector_size (size : nat) : M frame unit :=
  with_local 0 (
    try
      set_size size ;;
      set_capacity size ;;
      when_ (negb (size =? 0)) (
        cap <- get capacity_ ;;
        p <- sys (allocate cap) ;;
        set_buffer p ;;
        n <- get size_ ;;
        for_ (seq 0 n) (fun k =>
          buf <- get buffer_ ;;
          sys (construct buf k default_value) ;;
          incr))
    catch abandon_counted).

(** [Vector(size_t size, const T& value)], lines 132-154. *)
Definition Vector_size_value (size : nat) (value : T) : M frame unit :=
  with_local 0 (
    try
      set_size size ;;
      set_capacity size ;;
      when_ (negb (size =? 0)) (
        cap <- get capacity_ ;;
        p <- sys (allocate cap) ;;
        set_buffer p ;;
        n <- get size_ ;;
        for_ (seq 0 n) (fun k =>
          buf <- get buffer_ ;;
          sys (construct buf k value) ;;
          incr))
    catch abandon_counted).

(** [~Vector()], lines 183-188. *)
Definition destructor (v : vec) (w : world) : world :=
  deallocate (buffer_ v) (capacity_ v) (destroy_range (buffer_ v) 0 (size_ v) w).

(** *** Queries and access *)

Definition Size (v : vec) : nat := size_ v.
Definition Capacity (v : vec) : nat := capacity_ v.
Definition Empty (v : vec) : bool := size_ v =? 0.

(** [operator[](idx)]: [None] when there is no element to refer to. *)
Definition index (v : vec) (idx : nat) (w : world) : option T :=
  element (buffer_ v) idx w.

(** [At(idx)], lines 211-216. *)
Definition At (idx : nat) : M frame (option T) :=
  sz <- get size_ ;;
  if sz <=? idx then throw out_of_range
  else fun s => (Ok (index (this s) idx (mem s)), s).

(** [Swap(other)], lines 233-238: [*this] and [other] afterwards. *)
Definition Swap (v other : vec) : vec * vec :=
  (Vec (buffer_ other) (size_ other) (capacity_ other),
   Vec (buffer_ v) (size_ v) (capacity_ v)).

(** [Clear()], lines 239-244. *)
Definition Clear : M frame unit :=
  buf <- get buffer_ ;;
  sz <- get size_ ;;
  sys_ (destroy_range buf 0 sz) ;;
  set_size 0.

(** [PopBack()], lines 467-472. *)
Definition PopBack : M frame unit :=
  sz <- get size_ ;;
  when_ (negb (sz =? 0)) (
    set_size (sz - 1) ;;
    buf <- get buffer_ ;;
    sz' <- get size_ ;;
    sys_ (destroy buf sz')).

(** *** Capacity management *)

(** [Resize(size_t size)], lines 245-303.  The count of the new block and the
    new capacity are the [size_t] product [size * 2]. *)
Definition Resize (size : nat) : M frame unit :=
  sz <- get size_ ;;
  if size =? sz then ret tt
  else if size <? sz then
    buf <- get buffer_ ;;
    sys_ (destroy_range buf size sz) ;;
    set_size size
  else
    with_local 0 (
      cap <- get capacity_ ;;
      if size <=? cap then
        backup_size <- get size_ ;;
        try
          for_ (seq sz (size - sz)) (fun i =>
            buf <- get buffer_ ;;
            sys (construct buf i default_value) ;;
            incr) ;;
          set_size size
        catch (fun e =>
          set_size backup_size ;;
          sz' <- get size_ ;;
          count <- get_local ;;
          buf <- get buffer_ ;;
          sys_ (destroy_range buf sz' (sz' + count)) ;;
          throw e)
      else
        backup_buff <- get buffer_ ;;
        backup_size <- get size_ ;;
        backup_capacity <- get capacity_ ;;
        new_buff <- sys (allocate (size_mul size 2)) ;;
        try
          for_ (seq sz (size - sz)) (fun i =>
            sys (construct new_buff i default_value) ;;
            incr) ;;
          MoveIterTo new_buff ;;
          buf <- get buffer_ ;;
          sz' <- get size_ ;;
          sys_ (destroy_range buf 0 sz') ;;
          cap' <- get capacity_ ;;
          sys_ (deallocate buf cap') ;;
          set_capacity (size_mul size 2) ;;
          set_buffer new_buff ;;
          set_size size
        catch (fun e =>
          sz' <- get size_ ;;
          count <- get_local ;;
          sys_ (destroy_range new_buff sz' (sz' + count)) ;;
          cap' <- get capacity_ ;;
          sys_ (deallocate new_buff cap') ;;
          set_capacity backup_capacity ;;
          set_size backup_size ;;
          set_buffer backup_buff ;;
          throw e)).

(** [Resize(size_t size, const T& value)], lines 304-362, with the same
    [size_t] product. *)
Definition Resize_value (size : nat) (value : T) : M frame unit :=
  sz <- get size_ ;;
  if size =? sz then ret tt
  else if size <? sz then
    buf <- get buffer_ ;;
    sys_ (destroy_range buf size sz) ;;
    set_size size
  else
    with_local 0 (
      cap <- get capacity_ ;;
      if size <=? cap then
        backup_size <- get size_ ;;
        try
          for_ (seq sz (size - sz)) (fun i =>
            buf <- get buffer_ ;;
            sys (construct buf i value) ;;
            incr) ;;
          set_size size
        catch (fun e =>
          sz' <- get size_ ;;
          count <- get_local ;;
          buf <- get buffer_ ;;
          sys_ (destroy_range buf sz' (sz' + count)) ;;
          set_size backup_size ;;
          throw e)
      else
        backup_buff <- get buffer_ ;;
        backup_size <- get size_ ;;
        backup_capacity <- get capacity_ ;;
        new_buff <- sys (allocate (size_mul size 2)) ;;
        try
          for_ (seq sz (size - sz)) (fun i =>
            sys (construct new_buff i value) ;;
            incr) ;;
          MoveIterTo new_buff ;;
          buf <- get buffer_ ;;
          sz' <- get size_ ;;
          sys_ (destroy_range buf 0 sz') ;;
          cap' <- get capacity_ ;;
          sys_ (deallocate buf cap') ;;
          set_capacity (size_mul size 2) ;;
          set_buffer new_buff ;;
          set_size size
        catch (fun e =>
          sz' <- get size_ ;;
          count <- get_local ;;
          sys_ (destroy_range new_buff sz' (sz' + count)) ;;
          cap' <- get capacity_ ;;
          sys_ (deallocate new_buff cap') ;;
          set_capacity backup_capacity ;;
          set_size backup_size ;;
          set_buffer backup_buff ;;
          throw e)).

(** [Reserve(size_t capacity)], lines 363-382.  [new_buff] is declared inside
    the [try], so the handler cannot name it. *)
Definition Reserve (capacity : nat) : M frame unit :=
  cap <- get capacity_ ;;
  when_ (cap <? capacity) (
    backup_buff <- get buffer_ ;;
    backup_capacity <- get capacity_ ;;
    try
      new_buff <- sys (allocate capacity) ;;
      MoveIterTo new_buff ;;
      buf <- get buffer_ ;;
      sz <- get size_ ;;
      sys_ (destroy_range buf 0 sz) ;;
      cap' <- get capacity_ ;;
      sys_ (deallocate buf cap') ;;
      set_capacity capacity ;;
      set_buffer new_buff
    catch (fun e =>
      set_capacity backup_capacity ;;
      set_buffer backup_buff ;;
      throw e)).

(** [ShrinkToFit()], lines 383-407. *)
Definition ShrinkToFit : M frame unit :=
  backup_buff <- get buffer_ ;;
  backup_size <- get size_ ;;
  backup_capacity <- get capacity_ ;;
  try
    sz <- get size_ ;;
    (if sz =? 0 then
       buf <- get buffer_ ;;
       cap <- get capacity_ ;;
       sys_ (deallocate buf cap) ;;
       set_buffer None
     else
       new_buff <- sys (allocate sz) ;;
       MoveIterTo new_buff ;;
       buf <- get buffer_ ;;
       sz' <- get size_ ;;
       sys_ (destroy_range buf 0 sz') ;;
       cap <- get capacity_ ;;
       sys_ (deallocate buf cap) ;;
       set_buffer new_buff) ;;
    sz' <- get size_ ;;
    set_capacity sz'
  catch (fun e =>
    set_capacity backup_capacity ;;
    set_size backup_size ;;
    set_buffer backup_buff ;;
    throw e).

(** [EmplaceBack(args...)], lines 409-459, where [T(args...)] is [x]. *)
Definition EmplaceBack (x : T) : M frame unit :=
  sz <- get size_ ;;
  cap <- get capacity_ ;;
  if sz <? cap then
    (try
       buf <- get buffer_ ;;
       sys (construct buf sz x)
     catch (fun e =>
       buf <- get buffer_ ;;
       sys_ (destroy buf sz) ;;
       throw e)) ;;
    set_size (S sz)
  else
    backup_buff <- get buffer_ ;;
    backup_size <- get size_ ;;
    backup_capacity <- get capacity_ ;;
    if cap =? 0 then
      p <- sys (allocate 1) ;;
      set_buffer p ;;
      try
        buf <- get buffer_ ;;
        sys (construct buf sz x) ;;
        set_capacity 1 ;;
        set_size (S sz)
      catch (fun e =>
        set_size backup_size ;;
        set_capacity backup_capacity ;;
        buf <- get buffer_ ;;
        sz' <- get size_ ;;
        sys_ (destroy buf sz') ;;
        sys_ (deallocate buf 1) ;;
        set_buffer backup_buff ;;
        throw e)
    else
      new_buff <- sys (allocate (cap * 2)) ;;
      try
        sys (construct new_buff sz x) ;;
        MoveIterTo new_buff ;;
        buf <- get buffer_ ;;
        sz' <- get size_ ;;
        sys_ (destroy_range buf 0 sz') ;;
        cap' <- get capacity_ ;;
        sys_ (deallocate buf cap') ;;
        set_buffer new_buff ;;
        cap'' <- get capacity_ ;;
        set_capacity (cap'' * 2) ;;
        sz'' <- get size_ ;;
        set_size (S sz'')
      catch (fun e =>
        set_size backup_size ;;
        set_capacity backup_capacity ;;
        sz' <- get size_ ;;
        sys_ (destroy new_buff sz') ;;
        cap' <- get capacity_ ;;
        sys_ (deallocate new_buff (cap' * 2)) ;;
        set_buffer backup_buff ;;
        throw e).

(** [PushBack(const T&)] and [PushBack(T&&)], lines 461-466. *)
Definition PushBack (value : T) : M frame unit := EmplaceBack value.

(** A call of a member function on a container, from outside: the container
    and the world afterwards, and how the call was left. *)
Definition call {A} (m : M frame A) (v : vec) (w : world) : outcome A * vec * world :=
  let '(r, s) := m (Frame v 0 w) in (r, this s, mem s).

(** *** Assignment

    Assignment compares the addresses of its two operands, so it is modelled
    on the caller's objects by address. *)

(** [operator=(const Vector& other)], lines 156-175.  The temporary
    [Vector(other)] dies at the end of its full expression, holding what
    [Swap] gave it. *)
Definition copy_assign (this_ other : nat) (objs : gmap nat vec) (w : world)
  : outcome unit * gmap nat vec * world :=
  if decide (this_ = other) then (Ok tt, objs, w)
  else
    match objs !! this_, objs !! other with
    | Some v, Some o =>
        let backup_buff := buffer_ v in
        let backup_size := size_ v in
        let backup_capacity := capacity_ v in
        let v := Vec None 0 0 in
        match construct_object (Vector_copy o) w with
        | (Ok tmp, w) =>
            let '(tmp, v) := Swap tmp v in
            let w := destructor tmp w in
            let w := destroy_range backup_buff 0 backup_size w in
            let w := deallocate backup_buff backup_capacity w in
            (Ok tt, <[this_ := v]> objs, w)
        | (Throw e, w) =>
            (Throw e, <[this_ := Vec backup_buff backup_size backup_capacity]> objs, w)
        end
    | _, _ => (Ok tt, objs, w)
    end.

(** [operator=(Vector&& other) noexcept], lines 176-181. *)
Definition move_assign (this_ other : nat) (objs : gmap nat vec) (w : world)
  : gmap nat vec * world :=
  if decide (this_ = other) then (objs, w)
  else
    match objs !! this_, objs !! other with
    | Some v, Some o =>
        let '(tmp, o) := Vector_move o in
        let '(tmp, v) := Swap tmp v in
        (<[this_ := v]> (<[other := o]> objs), destructor tmp w)
    | _, _ => (objs, w)
    end.

(** *** Relational operators *)

(** [operator==], lines 559-570; the loop runs from [i] for [k] more
    rounds. *)
Fixpoint equal_from (lhs rhs : vec) (w : world) (i k : nat) : option bool :=
  match k with
  | 0 => Some true
  | S k' =>
      a ← index lhs i w;
      b ← index rhs i w;
      if elem_neq a b then Some false else equal_from lhs rhs w (S i) k'
  end.

Definition op_eq (lhs rhs : vec) (w : world) : option bool :=
  if negb (Size lhs =? Size rhs) then Some false
  else equal_from lhs rhs w 0 (Size lhs).

(** [std::lexicographical_compare(first1, last1, first2, last2)] of
    <algorithm>, on two ranges of pointers [p1 + i1 .. p1 + i1 + n1] and
    [p2 + i2 .. p2 + i2 + n2]. *)
Fixpoint lexicographical_compare (p1 : ptr) (i1 n1 : nat) (p2 : ptr) (i2 n2 : nat)
    (w : world) : option bool :=
  match n1, n2 with
  | S n1', S n2' =>
      a ← element p1 i1 w;
      b ← element p2 i2 w;
      if elem_lt a b then Some true
      else if elem_lt b a then Some false
      else lexicographical_compare p1 (S i1) n1' p2 (S i2) n2' w
  | _, _ => Some ((n1 =? 0) && negb (n2 =? 0))
  end.

(** [operator<], lines 572-575. *)
Definition op_lt (lhs rhs : vec) (w : world) : option bool :=
  lexicographical_compare (buffer_ lhs) 0 (size_ lhs) (buffer_ rhs) 0 (size_ rhs) w.

(** [operator!=], [operator>], [operator<=], [operator>=], lines 577-595. *)
Definition op_ne (lhs rhs : vec) (w : world) : option bool := negb <$> op_eq lhs rhs w.
Definition op_gt (lhs rhs : vec) (w : world) : option bool := op_lt rhs lhs w.
Definition op_le (lhs rhs : vec) (w : world) : option bool := negb <$> op_gt lhs rhs w.
Definition op_ge (lhs rhs : vec) (w : world) : option bool := negb <$> op_lt lhs rhs w.

(** ** What the specification speaks about *)

(** The slots of a block whose first elements are [xs] and whose [k] further
    slots are raw. *)
Definition live (xs : list T) (k : nat) : list (option T) :=
  (Some <$> xs) ++ replicate k None.

(** The container [v] holds exactly the elements [xs] in the world [w]. *)
Definition holds (v : vec) (w : world) (xs : list T) : Prop :=
  length xs = size_ v /\ size_ v <= capacity_ v /\
  match buffer_ v with
  | None => capacity_ v = 0
  | Some b => 0 < capacity_ v /\ heap w !! b = Some (live xs (capacity_ v - size_ v))
  end.

(** Blocks that were never handed out are not in the heap. *)
Definition sound (w : world) : Prop :=
  forall b, next_block w <= b -> heap w !! b = None.

(** No failure among the next [k] calls of a plan. *)
Definition quiet (k : nat) (plan : list bool) : Prop :=
  forall j, j < k -> plan !! j <> Some true.

(** No failure planned at all. *)
Definition calm (w : world) : Prop :=
  (forall j, alloc_plan w !! j <> Some true) /\
  (forall j, ctor_plan w !! j <> Some true).

(** Invariants 1 to 3 of the data model. *)
Definition constructed_prefix (v : vec) (w : world) : Prop :=
  (forall i, i < size_ v -> exists x, slot (buffer_ v) i w = Some (Some x)) /\
  (forall i, size_ v <= i < capacity_ v -> slot (buffer_ v) i w = Some None).

Definition null_iff_no_capacity (v : vec) : Prop :=
  buffer_ v = None <-> capacity_ v = 0.

Definition invariants (v : vec) (w : world) : Prop :=
  constructed_prefix v w /\ null_iff_no_capacity v /\ size_ v <= capacity_ v.

End Container.

Arguments world : clear implicits.
Arguments get {T A} f s /.
Arguments set_buffer {T} p s /.
Arguments set_size {T} n s /.
Arguments set_capacity {T} n s /.
Arguments with_local {T A} init body s /.
Arguments get_local {T} s /.
Arguments incr {T} s /.
Arguments incr_int : simpl never.
Arguments size_mul : simpl never.
Arguments sys {T A} m s /.
Arguments sys_ {T} f s /.
Arguments put_slot : simpl never.
Arguments allocate : simpl never.
Arguments deallocate : simpl never.
Arguments construct : simpl never.
Arguments move_construct : simpl never.
Arguments destroy : simpl never.
Arguments destroy_range : simpl never.
Arguments MoveIterTo : simpl never.
Arguments CopyIterRange : simpl never.

(** ** The specification's own notions *)

Section SpecOrder.
Context {T : Type} `{Element T}.

(** Pairwise equality of two element sequences, by the elements' [!=]. *)
Definition pairwise_equal (xs ys : list T) : Prop :=
  forall i a b, xs !! i = Some a -> ys !! i = Some b -> elem_neq a b = false.

(** Two elements neither of which is less than the other. *)
Definition ties (a b : T) : Prop := elem_lt a b = false /\ elem_lt b a = false.

(** The lexicographic order induced by the elements' [<]: up to some position
    the sequences tie element by element, and there the left one ends while
    the right one goes on, or the left one has the lesser element. *)
Definition lex_less (xs ys : list T) : Prop :=
  exists k,
    (forall i, i < k -> exists a b, xs !! i = Some a /\ ys !! i = Some b /\ ties a b) /\
    ((xs !! k = None /\ is_Some (ys !! k)) \/
     (exists a b, xs !! k = Some a /\ ys !! k = Some b /\ elem_lt a b = true)).
End SpecOrder.




(** The counts with which block [b] was released. *)
Definition releases_of (b : nat) (tr : list event) : list nat :=
  omap (fun e => match e with
                 | Deallocated (Some b') n => if decide (b' = b) then Some n else None
                 | _ => None
                 end) tr.

(** Every block obtained was released exactly once, with the count it was
    obtained with. *)
Definition balanced (tr : list event) : bool :=
  forallb (fun e => match e with
                    | Allocated b n => bool_decide (releases_of b tr = [n])
                    | _ => true
                    end) tr.

(** ** Callers *)

Section Callers.
Context {T : Type} `{Element T}.



(** [Vector<T> v = init_lst;], with the default-constructed container when the
    constructor throws. *)
Definition built (init_lst : list T) (w : world T) : vec * world T :=
  match construct_object (Vector_init init_lst) w with
  | (Ok v, w') => (v, w')
  | (Throw _, w') => (fresh_vec, w')
  end.



End Callers.

(** ** Access to the elements *)

Section Access.
Context {T : Type} `{Element T}.

(** [Data()], lines 220-225. *)
Definition Data (v : vec) : ptr := buffer_ v.

(** [Front()], lines 199-204: [buffer_[0]]. *)
Definition Front (v : vec) (w : world T) : option T :=
  element (buffer_ v) 0 w.

(** [Back()], lines 205-210: [buffer_[size_ - 1]]; with [size_ == 0] the
    index is the largest [size_t], beyond any block. *)
Definition Back (v : vec) (w : world T) : option T :=
  match size_ v with
  | 0 => None
  | S k => element (buffer_ v) k w
  end.

End Access.

(** ** Source ranges of the copying constructors *)

Section SourceRanges.
Context {T : Type} `{Element T}.

(** The iterator [iter] dereferences to [x] in the heap [h], without
    reading the block [b]. *)
Definition yields (b : nat) (h : gmap nat (list (option T))) (iter : @iterator T) (x : T)
  : Prop :=
  match iter with
  | External y => y = x
  | Into q j =>
      exists c slots, q = Some c /\ c <> b /\ h !! c = Some slots /\ slots !! j = Some (Some x)
  end.

End SourceRanges.


(** ** Scenarios

    The elements are integers, held by a type whose constructors throw when
    the plan says so, or strings held by such a type. *)

Module Scenario.

(** No failure planned. *)
Definition peaceful : world Z := World ∅ 0 [] [] [] [].

(** The construction number [k], counted from 0, throws. *)
Definition failing_at {T} (k : nat) : world T :=
  World ∅ 0 [] (replicate k false ++ [true]) [] [].

(** A container holding [elems] in block 0, with [spare] raw slots behind
    them, and the world in which it is the only one; [plan] says which of the
    coming constructions throw. *)
Definition held (elems : list Z) (spare : nat) : vec :=
  Vec (Some 0) (length elems) (length elems + spare).
Definition holding (elems : list Z) (spare : nat) (plan : list bool) : world Z :=
  World {[0 := live elems spare]} 1 [] plan [] [].

(** [Vector<T> v{10, 20}; v.Reserve(4);] where the move of [v[1]] throws. *)
Definition reserve_fails : outcome unit * vec * world Z :=
  let '(v, w) := built [10; 20]%Z (failing_at 3) in
  call (Reserve 4) v w.

(** The same on strings ["a"] and ["b"]. *)
Definition reserve_fails_text : outcome unit * vec * world (list nat) :=
  let '(v, w) := built [[97]; [98]] (failing_at 3) in
  call (Reserve 4) v w.

(** [Vector<T> v{10, 20}; v.Reserve(4); v.ShrinkToFit();] where the move of
    [v[1]] in [ShrinkToFit] throws. *)
Definition shrink_fails : outcome unit * vec * world Z :=
  let '(v, w) := built [10; 20]%Z (failing_at 5) in
  let '(_, v, w) := call (Reserve 4) v w in
  call ShrinkToFit v w.

(** [Vector<T> v; v.EmplaceBack(5);] where the construction throws. *)
Definition emplace_fails_empty : outcome unit * vec * world Z :=
  call (EmplaceBack 5%Z) fresh_vec (failing_at 0).

(** [Vector<T> v; v.Reserve(2); v.EmplaceBack(5);] where the construction
    throws. *)
Definition emplace_fails_in_place : outcome unit * vec * world Z :=
  let '(_, v, w) := call (Reserve 2) fresh_vec (failing_at 0) in
  call (EmplaceBack 5%Z) v w.

(** [Vector<T> v{10}; v.EmplaceBack(5);] where the construction of the new
    element throws. *)
Definition emplace_fails_growing : outcome unit * vec * world Z :=
  let '(v, w) := built [10]%Z (failing_at 1) in
  call (EmplaceBack 5%Z) v w.

(** [{ Vector<T> v; v.Resize(1); }] where [T()] throws: the calls the
    allocator has seen when [v] is gone. *)
Definition resize_fails_then_destroyed : list event * list fault :=
  let '(_, v, w) := call (Resize 1) fresh_vec (@failing_at Z 0) in
  let w := destructor v w in
  (trace w, faults w).

(** [{ Vector<T> v{10, 20}; v.Reserve(4); }] where the move of [v[1]]
    throws. *)
Definition reserve_fails_then_destroyed : list event * gmap nat (list (option Z)) :=
  let '(_, v, w) := reserve_fails in
  let w := destructor v w in
  (trace w, heap w).

(** [Vector<int> v; v.Reserve(1); Vector<int> c(v);] *)
Definition copy_of_reserved : vec * world Z :=
  let '(_, v, w) := call (Reserve 1) fresh_vec peaceful in
  match construct_object (Vector_copy v) w with
  | (Ok c, w') => (c, w')
  | (Throw _, w') => (fresh_vec, w')
  end.

(** [c.PushBack(3)] on that copy. *)
Definition push_on_copy : outcome unit * vec * world Z :=
  let '(c, w) := copy_of_reserved in
  call (PushBack 3%Z) c w.

(** [Vector<int>{5, 4, 3, 2, 1}] and [Vector<int>{5, 4, 3, 2, 2}]. *)
Definition two_vectors : vec * vec * world Z :=
  let '(v, w) := built [5; 4; 3; 2; 1]%Z peaceful in
  let '(u, w) := built [5; 4; 3; 2; 2]%Z w in
  (v, u, w).

End Scenario.

(** Further containers, for the properties proved besides the claims. *)

Module Fixture.

(** Two objects in one world: the one at address 0 holds [{10, 20}] in
    block 0, with no spare slot; the one at address 1 holds [{10}] in block 1,
    with one spare slot.  [allocs] and [plan] say which of the coming
    allocations and constructions fail. *)
Definition first_object : vec := Vec (Some 0) 2 2.
Definition second_object : vec := Vec (Some 1) 1 2.
Definition two_objects : gmap nat vec := <[1 := second_object]> {[0 := first_object]}.
Definition holding_two (allocs plan : list bool) : world Z :=
  World (<[1 := live [10]%Z 1]> {[0 := live [10; 20]%Z 0]}) 2 allocs plan [] [].

(** A container of the strings ["a"] and ["b"] in block 0, with [spare] raw
    slots behind them. *)
Definition held_text (spare : nat) : vec := Vec (Some 0) 2 (2 + spare).
Definition holding_text (spare : nat) (plan : list bool) : world (list nat) :=
  World {[0 := live [[97]; [98]] spare]} 1 [] plan [] [].

End Fixture.

(** ** Auxiliary notions of the proofs *)

(** How many of the next [k] constructions succeed before one throws. *)
Fixpoint successes (k : nat) (plan : list bool) : nat :=
  match k with
  | 0 => 0
  | S k' =>
      match plan with
      | true :: _ => 0
      | _ => S (successes k' (tail plan))
      end
  end.

Section Auxiliary.
Context {T : Type} `{Element T}.

(** The heap once the elements [xs] of [v] have been moved out of its block. *)
Definition residue (v : vec) (xs : list T) (h : gmap nat (list (option T)))
  : gmap nat (list (option T)) :=
  match buffer_ v with
  | Some b => <[b := live (moved_from <$> xs) (capacity_ v - size_ v)]> h
  | None => h
  end.

(** The heap without the block at [p]. *)
Definition release (p : ptr) (h : gmap nat (list (option T)))
  : gmap nat (list (option T)) :=
  match p with
  | Some b => delete b h
  | None => h
  end.
(** The heap in which the block of [v] holds the elements [ys]. *)
Definition stored (v : vec) (ys : list T) (h : gmap nat (list (option T)))
  : gmap nat (list (option T)) :=
  match buffer_ v with
  | Some b => <[b := live ys (capacity_ v - size_ v)]> h
  | None => h
  end.

(** [w'] is [w] after allocator calls on the block [nb] alone: every other
    block is as it was, and nothing was allocated. *)
Definition elsewhere (nb : nat) (w w' : world T) : Prop :=
  (forall b, b <> nb -> heap w' !! b = heap w !! b) /\
  next_block w' = next_block w /\ alloc_plan w' = alloc_plan w.

End Auxiliary.

(** ** The outcomes of a copying constructor *)

Section ConstructorOutcomes.
Context {T : Type} `{Element T}.

(** What a constructor that copies [vals] into a block of [cap] slots does,
    whichever way it ends. *)
Definition copied (vals : list T) (cap : nat) (w : world T) : outcome vec * world T :=
  match alloc_plan w with
  | true :: plan =>
      (Throw bad_alloc,
       World (heap w) (next_block w) plan (ctor_plan w)
             (trace w ++ [Deallocated None cap]) (faults w))
  | _ =>
      let nb := next_block w in
      let j := successes (length vals) (ctor_plan w) in
      if decide (j = length vals)
      then (Ok (Vec (Some nb) (length vals) cap),
            World (<[nb := live vals (cap - length vals)]> (heap w)) (S nb)
                  (tail (alloc_plan w)) (drop (length vals) (ctor_plan w))
                  (trace w ++ [Allocated nb cap]
                           ++ (Constructed (Some nb) <$> seq 0 (length vals)))
                  (faults w))
      else (Throw element_failure,
            World (heap w) (S nb) (tail (alloc_plan w)) (drop (S j) (ctor_plan w))
                  (trace w ++ [Allocated nb cap]
                           ++ (Constructed (Some nb) <$> seq 0 j)
                           ++ (Destroyed (Some nb) <$> seq 0 j)
                           ++ [Deallocated (Some nb) cap])
                  (faults w))
  end.

End ConstructorOutcomes.


(** ** Machine integers *)

Section MachineIntegers.
Context {T : Type}.

Lemma size_mul_fits a b : fits_size (a * b) -> size_mul a b = a * b.
Proof.
  unfold fits_size, size_mul. intros Hlt. rewrite Z.mod_small by lia.
  by rewrite <- Nat2Z.inj_mul, Nat2Z.id.
Qed.

Lemma fits_int_le n m : n <= m -> fits_int m -> fits_int n.
Proof. unfold fits_int. lia. Qed.

Lemma incr_int_ok (v : vec) c (w : world T) :
  fits_int (S c) -> incr_int (Frame v c w) = (Ok tt, Frame v (S c) w).
Proof.
  unfold fits_int, incr_int. intros Hc. simpl.
  by rewrite (proj2 (Z.ltb_lt (Z.of_nat c) int_max)) by lia.
Qed.

End MachineIntegers.

(** ** The allocator calls *)

Section AllocatorCalls.
Context {T : Type} `{Element T}.
Implicit Types (w : world T) (v : vec) (xs ys : list T) (b : nat) (p : ptr)
  (slots pre post : list (option T)) (plan : list bool).

Lemma quiet_head k plan : quiet (S k) plan -> head plan <> Some true.
Proof. intros Hq. specialize (Hq 0 ltac:(lia)). by destruct plan. Qed.

Lemma quiet_tail k plan : quiet (S k) plan -> quiet k (tail plan).
Proof. intros Hq j Hj. rewrite lookup_tail. apply Hq. lia. Qed.



Lemma put_slot_insert b i o w slots :
  heap w !! b = Some slots ->
  put_slot (Some b) i o w = with_heap (<[b := <[i := o]> slots]> (heap w)) w.
Proof.
  intros Hb. unfold put_slot. f_equal. apply map_eq. intros j.
  rewrite lookup_alter, lookup_insert.
  case_decide; subst; by rewrite ?Hb.
Qed.

Lemma allocate_ok n w :
  head (alloc_plan w) <> Some true ->
  allocate n w =
  (Ok (Some (next_block w)),
   World (<[next_block w := replicate n None]> (heap w)) (S (next_block w))
         (tail (alloc_plan w)) (ctor_plan w)
         (trace w ++ [Allocated (next_block w) n]) (faults w)).
Proof. intros Hq. unfold allocate. by destruct (alloc_plan w) as [|[] ?]. Qed.

Lemma allocate_throw n w plan :
  alloc_plan w = true :: plan ->
  allocate n w =
  (Throw bad_alloc,
   World (heap w) (next_block w) plan (ctor_plan w) (trace w) (faults w)).
Proof. intros Hq. unfold allocate. by rewrite Hq. Qed.

Lemma construct_ok b i x w slots :
  head (ctor_plan w) <> Some true ->
  heap w !! b = Some slots ->
  slots !! i = Some None ->
  construct (Some b) i x w =
  (Ok tt,
   World (<[b := <[i := Some x]> slots]> (heap w)) (next_block w) (alloc_plan w)
         (tail (ctor_plan w)) (trace w ++ [Constructed (Some b) i]) (faults w)).
Proof.
  intros Hq Hb Hi. unfold construct.
  destruct (ctor_plan w) as [|[] plan] eqn:Hp; try done;
    unfold slot; simpl; rewrite Hb; simpl; rewrite Hi;
    by erewrite put_slot_insert.
Qed.

Lemma construct_throw p i x w plan :
  ctor_plan w = true :: plan ->
  construct p i x w =
  (Throw element_failure,
   World (heap w) (next_block w) (alloc_plan w) plan (trace w) (faults w)).
Proof. intros Hq. unfold construct. by rewrite Hq. Qed.

Lemma destroy_live b i x w slots :
  heap w !! b = Some slots ->
  slots !! i = Some (Some x) ->
  destroy (Some b) i w =
  World (<[b := <[i := None]> slots]> (heap w)) (next_block w) (alloc_plan w)
        (ctor_plan w) (trace w ++ [Destroyed (Some b) i]) (faults w).
Proof.
  intros Hb Hi. unfold destroy, slot. simpl. rewrite Hb. simpl. rewrite Hi.
  by erewrite put_slot_insert.
Qed.

Lemma deallocate_ok b n w slots :
  heap w !! b = Some slots ->
  length slots = n ->
  deallocate (Some b) n w =
  World (delete b (heap w)) (next_block w) (alloc_plan w) (ctor_plan w)
        (trace w ++ [Deallocated (Some b) n]) (faults w).
Proof.
  intros Hb Hn. unfold deallocate. simpl. rewrite Hb.
  by rewrite decide_True.
Qed.

Lemma deallocate_miscounted b n w slots :
  heap w !! b = Some slots ->
  length slots <> n ->
  deallocate (Some b) n w =
  World (delete b (heap w)) (next_block w) (alloc_plan w) (ctor_plan w)
        (trace w ++ [Deallocated (Some b) n]) (faults w ++ [BadDeallocate (Some b) n]).
Proof.
  intros Hb Hn. unfold deallocate. simpl. rewrite Hb.
  by rewrite decide_False.
Qed.

End AllocatorCalls.

Section DestroyLoop.
Context {T : Type} `{Element T}.
Implicit Types (w : world T) (v : vec) (xs ys : list T) (b : nat) (p : ptr)
  (slots pre post : list (option T)) (plan : list bool).

Lemma destroy_range_ok b ys : forall pre post w,
  heap w !! b = Some (pre ++ (Some <$> ys) ++ post) ->
  destroy_range (Some b) (length pre) (length pre + length ys) w =
  World (<[b := pre ++ replicate (length ys) None ++ post]> (heap w))
        (next_block w) (alloc_plan w) (ctor_plan w)
        (trace w ++ (Destroyed (Some b) <$> seq (length pre) (length ys)))
        (faults w).
Proof.
  unfold destroy_range.
  induction ys as [|y ys IH]; intros pre post w Hb.
  - replace (length pre + length [] - length pre) with 0 by (simpl; lia).
    simpl. rewrite app_nil_r, insert_id by done. by destruct w.
  - replace (length pre + length (y :: ys) - length pre) with (S (length ys))
      by (simpl; lia).
    simpl. unfold each in *. simpl.
    erewrite destroy_live; [|done|by apply list_lookup_middle].
    specialize (IH (pre ++ [None]) post).
    rewrite length_app in IH. simpl in IH.
    replace (length pre + 1 + length ys - (length pre + 1)) with (length ys) in IH by lia.
    replace (length pre + 1) with (S (length pre)) in IH by lia.
    rewrite IH; simpl.
    + rewrite insert_insert_eq. rewrite <- !(assoc_L (++)). simpl. done.
    + rewrite lookup_insert_eq. f_equal.
      rewrite <- (assoc_L (++)). simpl.
      replace (length pre) with (length pre + 0) at 1 by lia.
      by rewrite insert_app_r.
Qed.
End DestroyLoop.

Section FillLoop.
Context {T : Type} `{Element T}.
Implicit Types (w : world T) (v : vec) (xs ys : list T) (b : nat) (p : ptr)
  (slots pre post : list (option T)) (plan : list bool).

Lemma successes_le k plan : successes k plan <= k.
Proof.
  revert plan. induction k as [|k IH]; intros plan; simpl; [lia|].
  destruct plan as [|[] plan]; simpl; [specialize (IH [])|lia|specialize (IH plan)];
    lia.
Qed.

Lemma successes_quiet k plan : quiet k plan <-> successes k plan = k.
Proof.
  revert plan. induction k as [|k IH]; intros plan; simpl.
  - split; [done|]. intros _ j Hj. lia.
  - split.
    + intros Hq. pose proof (quiet_head _ _ Hq) as Hh.
      apply quiet_tail, IH in Hq.
      destruct plan as [|[] plan]; simpl in *; congruence.
    + intros Hs. destruct plan as [|[] plan]; simpl in *.
      * intros j _. by destruct j.
      * done.
      * injection Hs as Hs. apply IH in Hs. intros [|j] Hj; simpl; [done|].
        apply Hs. lia.
Qed.

Lemma successes_quiet_prefix k plan : quiet (successes k plan) plan.
Proof.
  revert plan. induction k as [|k IH]; intros plan; simpl.
  - intros j Hj. lia.
  - destruct plan as [|[] plan]; simpl.
    + intros j _. by destruct j.
    + intros j Hj. lia.
    + intros [|j] Hj; simpl; [done|]. apply IH. lia.
Qed.

Lemma successes_throw k plan :
  successes k plan < k -> plan !! successes k plan = Some true.
Proof.
  revert plan. induction k as [|k IH]; intros plan; simpl; [lia|].
  destruct plan as [|[] plan]; simpl; intros Hlt; try done.
  - pose proof (proj1 (successes_quiet k []) ltac:(by intros [|j] _)).
    lia.
  - apply IH. lia.
Qed.

(** The loop that fills [b + a .. b + a + k] with copies of [x]. *)
Lemma fill_loop b x v k : forall a c w pre post,
  heap w !! b = Some (pre ++ replicate k None ++ post) ->
  length pre = a ->
  let j := successes k (ctor_plan w) in
  for_ (seq a k) (fun i => sys (construct (Some b) i x) ;; incr)%cxx (Frame v c w) =
  ((if decide (j = k) then Ok tt else Throw element_failure),
   Frame v (c + j)
     (World (<[b := pre ++ replicate j (Some x) ++ replicate (k - j) None ++ post]> (heap w))
            (next_block w) (alloc_plan w)
            (drop (if decide (j = k) then k else S j) (ctor_plan w))
            (trace w ++ (Constructed (Some b) <$> seq a j)) (faults w))).
Proof.
  induction k as [|k IH]; intros a c w pre post Hb Ha; simpl.
  - rewrite Nat.add_0_r, app_nil_r, insert_id by done. by destruct w.
  - destruct (ctor_plan w) as [|[] plan] eqn:Hp.
    + erewrite construct_ok; [|by rewrite Hp|done|by subst a; apply list_lookup_middle].
      simpl.
      specialize (IH (S a) (S c)
        (World (<[b:=<[a:=Some x]> (pre ++ None :: replicate k None ++ post)]> (heap w))
           (next_block w) (alloc_plan w) (tail (ctor_plan w))
           (trace w ++ [Constructed (Some b) a]) (faults w))
        (pre ++ [Some x]) post).
      rewrite IH; clear IH.
      * simpl. rewrite Hp. simpl. rewrite insert_insert_eq.
        repeat case_decide; try lia; simpl;
          rewrite <- !(assoc_L (++)); simpl; repeat f_equal; try lia.
        all: by destruct k.
      * simpl. rewrite lookup_insert_eq. f_equal. rewrite <- (assoc_L (++)). simpl.
        subst a. replace (length pre) with (length pre + 0) at 1 by lia.
        by rewrite insert_app_r.
      * rewrite length_app. simpl. lia.
    + erewrite construct_throw by done. simpl.
      rewrite Nat.add_0_r, app_nil_r, insert_id by done. done.
    + erewrite construct_ok; [|by rewrite Hp|done|by subst a; apply list_lookup_middle].
      simpl.
      specialize (IH (S a) (S c)
        (World (<[b:=<[a:=Some x]> (pre ++ None :: replicate k None ++ post)]> (heap w))
           (next_block w) (alloc_plan w) (tail (ctor_plan w))
           (trace w ++ [Constructed (Some b) a]) (faults w))
        (pre ++ [Some x]) post).
      rewrite IH; clear IH.
      * simpl. rewrite Hp. simpl. rewrite insert_insert_eq.
        repeat case_decide; try lia; simpl;
          rewrite <- !(assoc_L (++)); simpl; repeat f_equal; lia.
      * simpl. rewrite lookup_insert_eq. f_equal. rewrite <- (assoc_L (++)). simpl.
        subst a. replace (length pre) with (length pre + 0) at 1 by lia.
        by rewrite insert_app_r.
      * rewrite length_app. simpl. lia.
Qed.
End FillLoop.

Section MoveLoop.
Context {T : Type} `{Element T}.
Implicit Types (w : world T) (v : vec) (xs ys : list T) (b : nat) (p : ptr)
  (slots pre post : list (option T)) (plan : list bool).

Lemma element_lookup b i w slots x :
  heap w !! b = Some slots -> slots !! i = Some (Some x) ->
  element (Some b) i w = Some x.
Proof. intros Hb Hi. unfold element, slot. simpl. rewrite Hb. simpl. by rewrite Hi. Qed.

Lemma move_construct_ok b nb i j x w src dst :
  b <> nb ->
  head (ctor_plan w) <> Some true ->
  heap w !! b = Some src -> src !! j = Some (Some x) ->
  heap w !! nb = Some dst -> dst !! i = Some None ->
  move_construct (Some nb) i (Some b) j w =
  (Ok tt,
   World (<[b := <[j := Some (moved_from x)]> src]> (<[nb := <[i := Some x]> dst]> (heap w)))
         (next_block w) (alloc_plan w) (tail (ctor_plan w))
         (trace w ++ [Constructed (Some nb) i]) (faults w)).
Proof.
  intros Hne Hq Hb Hj Hnb Hi. unfold move_construct.
  erewrite element_lookup by done.
  erewrite construct_ok by done.
  erewrite put_slot_insert; [done|].
  simpl. by rewrite lookup_insert_ne.
Qed.

Lemma overwrite_two {A} (h : gmap nat A) b nb s1 s2 d1 d2 :
  b <> nb ->
  <[b := s2]> (<[nb := d2]> (<[b := s1]> (<[nb := d1]> h))) = <[b := s2]> (<[nb := d2]> h).
Proof.
  intros Hne. apply map_eq. intros i.
  destruct (decide (i = b)) as [->|]; [by rewrite !lookup_insert_eq|].
  rewrite !(lookup_insert_ne _ b) by done.
  destruct (decide (i = nb)) as [->|]; [by rewrite !lookup_insert_eq|].
  by rewrite !lookup_insert_ne.
Qed.

Lemma drop_tail_S {A} n (l : list A) : drop n (tail l) = drop (S n) l.
Proof. destruct l; simpl; by rewrite ?drop_nil. Qed.

Lemma for_cons {St X} (x : X) (l : list X) (body : X -> M St unit) (s : St) :
  for_ (x :: l) body s =
  match body x s with
  | (Ok _, s') => for_ l body s'
  | (Throw e, s') => (Throw e, s')
  end.
Proof. reflexivity. Qed.

Lemma move_step b nb v c j x w src dst :
  b <> nb ->
  head (ctor_plan w) <> Some true ->
  heap w !! b = Some src -> src !! j = Some (Some x) ->
  heap w !! nb = Some dst -> dst !! c = Some None ->
  fits_int (S c) ->
  (curr_size <- get_local ;;
   sys (move_construct (Some nb) curr_size (Some b) j) ;;
   incr_int)%cxx (Frame v c w) =
  (Ok tt,
   Frame v (S c)
     (World (<[b := <[j := Some (moved_from x)]> src]> (<[nb := <[c := Some x]> dst]> (heap w)))
            (next_block w) (alloc_plan w) (tail (ctor_plan w))
            (trace w ++ [Constructed (Some nb) c]) (faults w))).
Proof. intros. simpl. erewrite move_construct_ok by done. by rewrite incr_int_ok. Qed.

(** The loop of [MoveIterTo], entered with [done] already moved. *)
Lemma move_loop b nb v (Hne : b <> nb) todo : forall done w rest post,
  heap w !! b = Some ((Some <$> (moved_from <$> done)) ++ (Some <$> todo) ++ rest) ->
  heap w !! nb = Some ((Some <$> done) ++ replicate (length todo) None ++ post) ->
  quiet (length todo) (ctor_plan w) ->
  fits_int (length done + length todo) ->
  for_ (seq (length done) (length todo))
       (fun j => curr_size <- get_local ;;
                 sys (move_construct (Some nb) curr_size (Some b) j) ;;
                 incr_int)%cxx
       (Frame v (length done) w) =
  (Ok tt,
   Frame v (length done + length todo)
     (World (<[b := (Some <$> (moved_from <$> (done ++ todo))) ++ rest]>
               (<[nb := (Some <$> (done ++ todo)) ++ post]> (heap w)))
            (next_block w) (alloc_plan w) (drop (length todo) (ctor_plan w))
            (trace w ++ (Constructed (Some nb) <$> seq (length done) (length todo)))
            (faults w))).
Proof.
  induction todo as [|x todo IH]; intros done w rest post Hb Hnb Hq Hfit.
  - simpl in *. rewrite !app_nil_r, Nat.add_0_r.
    rewrite (insert_id (heap w) nb) by done.
    rewrite insert_id by done. by destruct w.
  - cbn [length seq] in *. rewrite for_cons. cbv beta.
    erewrite move_step; [|done|by eapply quiet_head|done| |done| |].
    2:{ rewrite <- (length_fmap moved_from done), <- (length_fmap Some).
        by apply list_lookup_middle. }
    2:{ rewrite <- (length_fmap Some done) at 1. by apply list_lookup_middle. }
    2:{ eapply fits_int_le; [|done]. lia. }
    specialize (IH (done ++ [x])).
    rewrite length_app in IH. simpl in IH.
    replace (length done + 1) with (S (length done)) in IH by lia.
    erewrite IH; clear IH; simpl.
    + rewrite overwrite_two by done.
      rewrite <- !(assoc_L (++) done). simpl.
      f_equal. f_equal; [lia|]. f_equal.
      * apply drop_tail_S.
      * by rewrite <- (assoc_L (++)).
    + rewrite lookup_insert_eq. f_equal.
      rewrite !fmap_app, <- !(assoc_L (++)). simpl.
      rewrite <- (length_fmap moved_from done), <- (length_fmap Some (moved_from <$> done)).
      replace (length (Some <$> (moved_from <$> done)))
        with (length (Some <$> (moved_from <$> done)) + 0) at 1 by lia.
      by rewrite insert_app_r.
    + rewrite lookup_insert_ne, lookup_insert_eq by done. f_equal.
      rewrite !fmap_app, <- !(assoc_L (++)). simpl.
      rewrite <- (length_fmap Some done).
      replace (length (Some <$> done)) with (length (Some <$> done) + 0) at 1 by lia.
      by rewrite insert_app_r.
    + by eapply quiet_tail.
    + eapply fits_int_le; [|done]. lia.
Qed.

End MoveLoop.


(** ** Calls that touch one block only

    What a failed growth leaves does not depend on what the new block held:
    it is released, and every call before that was made on it. *)

Section OneBlock.
Context {T : Type} `{Element T}.
Implicit Types (w : world T) (v : vec) (b nb : nat) (plan : list bool).



Lemma put_slot_elsewhere nb i o w : elsewhere nb w (put_slot (Some nb) i o w).
Proof.
  split_and!; [|done..]. intros b Hb. simpl. by rewrite lookup_alter_ne.
Qed.






End OneBlock.

Section MigrateAndRetire.
Context {T : Type} `{Element T}.
Implicit Types (w : world T) (v : vec) (xs ys : list T) (b : nat) (p : ptr)
  (slots pre post : list (option T)) (plan : list bool).

Lemma migrate_ok v c w xs nb post :
  holds v w xs ->
  buffer_ v <> Some nb ->
  heap w !! nb = Some (replicate (size_ v) None ++ post) ->
  quiet (size_ v) (ctor_plan w) ->
  fits_int (size_ v) ->
  MoveIterTo (Some nb) (Frame v c w) =
  (Ok tt,
   Frame v c
     (World (residue v xs (<[nb := (Some <$> xs) ++ post]> (heap w)))
            (next_block w) (alloc_plan w) (drop (size_ v) (ctor_plan w))
            (trace w ++ (Constructed (Some nb) <$> seq 0 (size_ v)))
            (faults w))).
Proof.
  intros (Hlen & Hle & Hbuf) Hne Hnb Hq Hfit.
  unfold MoveIterTo, residue. simpl.
  destruct (buffer_ v) as [b|] eqn:Hb.
  - destruct Hbuf as [Hcap Hlook].
    pose proof (move_loop b nb v ltac:(congruence) xs [] w
                  (replicate (capacity_ v - size_ v) None) post) as Hloop.
    simpl in Hloop. rewrite Hlen in Hloop.
    rewrite Hloop by done.
    by simpl.
  - assert (size_ v = 0) as Hz by lia.
    rewrite Hz in *. destruct xs; [|done]. simpl.
    rewrite app_nil_r, insert_id by done. by destruct w.
Qed.

Lemma retire_ok v w ys :
  holds v w ys ->
  deallocate (buffer_ v) (capacity_ v) (destroy_range (buffer_ v) 0 (size_ v) w) =
  World (release (buffer_ v) (heap w)) (next_block w) (alloc_plan w) (ctor_plan w)
        (trace w ++ (Destroyed (buffer_ v) <$> seq 0 (size_ v))
                 ++ [Deallocated (buffer_ v) (capacity_ v)])
        (faults w).
Proof.
  intros (Hlen & Hle & Hbuf). unfold release.
  destruct (buffer_ v) as [b|] eqn:Hb.
  - destruct Hbuf as [Hcap Hlook].
    pose proof (destroy_range_ok b ys [] (replicate (capacity_ v - size_ v) None) w Hlook)
      as Hd.
    simpl in Hd. rewrite Hlen in Hd. rewrite Hd.
    erewrite deallocate_ok; simpl.
    + by rewrite delete_insert_eq, <- (assoc_L (++)).
    + by rewrite lookup_insert_eq.
    + rewrite length_app, !length_replicate. lia.
  - assert (size_ v = 0) as Hz by lia. rewrite Hz, Hbuf.
    unfold destroy_range, each, deallocate, observe. by simpl.
Qed.

Lemma holds_residue v xs h n a cp tr fl :
  length xs = size_ v -> size_ v <= capacity_ v ->
  (buffer_ v = None -> capacity_ v = 0) ->
  (forall b, buffer_ v = Some b -> 0 < capacity_ v) ->
  holds v (World (residue v xs h) n a cp tr fl) (moved_from <$> xs).
Proof.
  intros Hlen Hle Hnull Hcap. unfold holds, residue. simpl.
  rewrite length_fmap. split_and!; [done..|].
  destruct (buffer_ v) as [b|]; [|by apply Hnull].
  split; [by eapply Hcap|]. by rewrite lookup_insert_eq.
Qed.

Lemma release_residue v xs (h : gmap nat (list (option T))) :
  release (buffer_ v) (residue v xs h) = release (buffer_ v) h.
Proof.
  unfold release, residue. destruct (buffer_ v) as [b|]; [|done].
  by rewrite delete_insert_eq.
Qed.

Lemma release_insert_ne p nb d (h : gmap nat (list (option T))) :
  p <> Some nb ->
  release p (<[nb := d]> h) = <[nb := d]> (release p h).
Proof.
  intros Hne. unfold release. destruct p as [b|]; [|done].
  rewrite delete_insert_ne by congruence. done.
Qed.

Lemma holds_not_fresh v w xs :
  holds v w xs -> sound w -> buffer_ v <> Some (next_block w).
Proof.
  intros (_ & _ & Hbuf) Hs Hb. rewrite Hb in Hbuf. destruct Hbuf as [_ Hl].
  by rewrite Hs in Hl.
Qed.

Lemma holds_insert_ne v w xs nb d n a cp tr fl :
  holds v w xs -> buffer_ v <> Some nb ->
  holds v (World (<[nb := d]> (heap w)) n a cp tr fl) xs.
Proof.
  intros (Hlen & Hle & Hbuf) Hne. unfold holds. simpl. split_and!; [done..|].
  destruct (buffer_ v) as [b|]; [|done].
  destruct Hbuf. split; [done|]. by rewrite lookup_insert_ne by congruence.
Qed.

(** Migration followed by the release of the old storage, as every growing
    member function does it. *)
Lemma migrate_retire v c w xs nb post :
  holds v w xs ->
  buffer_ v <> Some nb ->
  heap w !! nb = Some (replicate (size_ v) None ++ post) ->
  quiet (size_ v) (ctor_plan w) ->
  fits_int (size_ v) ->
  exists w1,
    MoveIterTo (Some nb) (Frame v c w) = (Ok tt, Frame v c w1) /\
    deallocate (buffer_ v) (capacity_ v) (destroy_range (buffer_ v) 0 (size_ v) w1) =
    World (<[nb := (Some <$> xs) ++ post]> (release (buffer_ v) (heap w)))
          (next_block w) (alloc_plan w) (drop (size_ v) (ctor_plan w))
          (trace w ++ (Constructed (Some nb) <$> seq 0 (size_ v))
                   ++ (Destroyed (buffer_ v) <$> seq 0 (size_ v))
                   ++ [Deallocated (buffer_ v) (capacity_ v)])
          (faults w).
Proof.
  intros Hh Hne Hnb Hq Hfit. eexists. split; [by apply migrate_ok|].
  destruct Hh as (Hlen & Hle & Hbuf).
  erewrite retire_ok.
  2:{ apply holds_residue; try done.
      - intros Hb. by rewrite Hb in Hbuf.
      - intros b Hb. rewrite Hb in Hbuf. by destruct Hbuf. }
  simpl. rewrite release_residue, release_insert_ne by done.
  by rewrite <- !(assoc_L (++)).
Qed.

End MigrateAndRetire.

Section ResizeGrowth.
Context {T : Type} `{Element T}.
Implicit Types (w : world T) (v : vec) (xs ys : list T) (b : nat) (p : ptr)
  (slots pre post : list (option T)) (plan : list bool).

Lemma Resize_grows_as_Resize_value n v c w :
  capacity_ v < n ->
  Resize n (Frame v c w) = Resize_value n default_value (Frame v c w).
Proof.
  intros Hn. unfold Resize, Resize_value. simpl.
  destruct (n =? size_ v); [done|].
  destruct (n <? size_ v); [done|].
  simpl. by rewrite (proj2 (Nat.leb_gt n (capacity_ v))) by done.
Qed.


Lemma Resize_value_grow_throw n x v w xs :
  holds v w xs -> sound w -> capacity_ v < n ->
  fits_size (n * 2) ->
  successes (n - size_ v) (ctor_plan w) < n - size_ v ->
  exists e w',
    call (Resize_value n x) v w = (Throw e, v, w') /\
    heap w' = heap w /\
    e = match alloc_plan w with true :: _ => bad_alloc | _ => element_failure end /\
    faults w' = match alloc_plan w with
                | true :: _ => faults w
                | _ => faults w ++ [BadDeallocate (Some (next_block w)) (capacity_ v)]
                end.
Proof.
  intros Hh Hs Hn Hwrap Hj.
  pose proof Hh as (Hlen & Hle & Hbuf).
  unfold call, Resize_value. simpl.
  rewrite (proj2 (Nat.eqb_neq n (size_ v))) by lia.
  rewrite (proj2 (Nat.ltb_ge n (size_ v))) by lia.
  simpl. rewrite (proj2 (Nat.leb_gt n (capacity_ v))) by done.
  simpl. rewrite !(size_mul_fits n 2) by done.
  destruct (alloc_plan w) as [|[] aplan] eqn:Ha.
  2:{ erewrite allocate_throw by done. simpl. do 2 eexists. split_and!; done. }
  all: rewrite allocate_ok by (by rewrite Ha); simpl.
  all: set (nb := next_block w) in *.
  all: set (j := successes (n - size_ v) (ctor_plan w)) in *.
  all: erewrite (fill_loop nb x v (n - size_ v) (size_ v) 0 _ (replicate (size_ v) None)
              (replicate n None)); simpl;
    [|rewrite lookup_insert_eq; f_equal; rewrite <- !replicate_add; f_equal; lia
     |by rewrite length_replicate].
  all: fold j; rewrite !decide_False by lia; simpl.
  all: rewrite insert_insert_eq.
  all: pose proof (destroy_range_ok nb (replicate j x) (replicate (size_ v) None)
         (replicate (n - size_ v - j) None ++ replicate n None)) as Hd;
    rewrite fmap_replicate, !length_replicate in Hd;
    erewrite Hd; clear Hd; [|by simpl; rewrite lookup_insert_eq]; simpl.
  all: erewrite deallocate_miscounted;
    [|by simpl; rewrite lookup_insert_eq
     |rewrite !length_app, !length_replicate; lia]; simpl.
  all: rewrite !insert_insert_eq, delete_insert_eq, delete_id by (apply Hs; lia).
  all: destruct v; simpl; do 2 eexists; (split_and!; done).
Qed.

End ResizeGrowth.


Section Append.
Context {T : Type} `{Element T}.
Implicit Types (w : world T) (v : vec) (xs ys : list T) (b : nat) (p : ptr)
  (slots pre post : list (option T)) (plan : list bool).

Lemma calm_alloc w : calm w -> head (alloc_plan w) <> Some true.
Proof. intros [Ha _]. specialize (Ha 0). by destruct (alloc_plan w). Qed.

Lemma calm_quiet k w : calm w -> quiet k (ctor_plan w).
Proof. intros [_ Hc] j _. apply Hc. Qed.

Lemma calm_later w (h : gmap nat (list (option T))) n i k tr fl :
  calm w ->
  calm (World h n (drop i (alloc_plan w)) (drop k (ctor_plan w)) tr fl).
Proof.
  intros [Ha Hc]. split; intros j; simpl; rewrite lookup_drop; [apply Ha|apply Hc].
Qed.

Lemma tail_drop {A} (l : list A) : tail l = drop 1 l.
Proof. by destruct l as [|? []]. Qed.

Lemma sound_grown w p d tr fl a cp :
  sound w ->
  sound (World (<[next_block w := d]> (release p (heap w))) (S (next_block w)) a cp tr fl).
Proof.
  intros Hs b Hb. simpl in *. rewrite lookup_insert_ne by lia.
  destruct p as [b'|]; simpl; [|apply Hs; lia].
  destruct (decide (b' = b)) as [->|]; [by rewrite lookup_delete_eq|].
  rewrite lookup_delete_ne by done. apply Hs. lia.
Qed.

Lemma sound_updated w b d slots n tr fl a cp :
  sound w -> heap w !! b = Some slots -> n = next_block w ->
  sound (World (<[b := d]> (heap w)) n a cp tr fl).
Proof.
  intros Hs Hb -> b' Hb'. simpl in *.
  destruct (decide (b = b')) as [->|]; [by rewrite Hs in Hb|].
  rewrite lookup_insert_ne by done. by apply Hs.
Qed.

(** The capacity a successful [EmplaceBack] leaves. *)
Lemma EmplaceBack_ok x v w xs :
  holds v w xs -> sound w -> calm w -> fits_int (size_ v) ->
  exists v' w',
    call (EmplaceBack x) v w = (Ok tt, v', w') /\
    holds v' w' (xs ++ [x]) /\ sound w' /\ calm w' /\
    size_ v' = S (size_ v) /\
    capacity_ v' =
      (if size_ v <? capacity_ v then capacity_ v
       else if capacity_ v =? 0 then 1 else capacity_ v * 2).
Proof.
  intros Hh Hs Hc Hfit.
  pose proof Hh as (Hlen & Hle & Hbuf).
  pose proof (holds_not_fresh _ _ _ Hh Hs) as Hfresh.
  unfold call, EmplaceBack. simpl.
  destruct (Nat.ltb_spec (size_ v) (capacity_ v)) as [Hlt|Hge]; simpl.
  - destruct (buffer_ v) as [b|] eqn:Hb; [|lia]. destruct Hbuf as [Hcap Hl].
    erewrite construct_ok; [|by eapply quiet_head, (calm_quiet 1)|done|]; simpl.
    2:{ unfold live. rewrite <- Hlen, <- (length_fmap Some xs).
        rewrite lookup_app_r, Nat.sub_diag by done.
        apply lookup_replicate_2. rewrite length_fmap. lia. }
    do 2 eexists. split; [done|]. split_and!; simpl; try done.
    + unfold holds. simpl. rewrite length_app, Hb. simpl.
      split_and!; [lia..|]. rewrite lookup_insert_eq. f_equal.
      unfold live. rewrite fmap_app, <- (assoc_L (++)). simpl.
      rewrite <- Hlen, <- (length_fmap Some xs).
      replace (length (Some <$> xs)) with (length (Some <$> xs) + 0) at 1 by lia.
      rewrite insert_app_r. f_equal.
      rewrite length_fmap.
      destruct (capacity_ v - length xs) as [|k] eqn:Hk; [lia|].
      replace (capacity_ v - S (length xs)) with k by lia. done.
    + by eapply sound_updated.
    + rewrite tail_drop. rewrite <- (drop_0 (alloc_plan w)). by apply calm_later.
  - assert (size_ v = capacity_ v) as Heq by lia.
    destruct (Nat.eqb_spec (capacity_ v) 0) as [Hz|Hnz]; simpl.
    + destruct (buffer_ v) as [b|] eqn:Hb; [lia|].
      assert (size_ v = 0) as Hsz by lia.
      destruct xs; [|simpl in *; lia].
      rewrite allocate_ok by by apply calm_alloc. simpl.
      erewrite construct_ok;
        [|by simpl; eapply quiet_head, (calm_quiet 1)
         |by simpl; rewrite lookup_insert_eq
         |by rewrite Hsz]; simpl.
      rewrite ?Hsz, ?Hz, insert_insert_eq. simpl.
      do 2 eexists. split; [done|]. split_and!; simpl; try done.
      * unfold holds. simpl. split_and!; [lia..|]. by rewrite lookup_insert_eq.
      * apply (sound_grown w None). done.
      * rewrite !tail_drop. by apply calm_later.
    + rewrite allocate_ok by by apply calm_alloc. simpl.
      set (nb := next_block w) in *.
      erewrite construct_ok; [|by simpl; eapply quiet_head, (calm_quiet 1)|by simpl; rewrite lookup_insert_eq|]; simpl.
      2:{ apply lookup_replicate_2. lia. }
      rewrite insert_insert_eq.
      match goal with
      | |- context [MoveIterTo _ (Frame _ _ ?w0)] =>
          edestruct (migrate_retire v 0 w0 xs nb
                       (Some x :: replicate (capacity_ v * 2 - S (size_ v)) None))
            as (w1 & Hm & Hr)
      end.
      { by apply holds_insert_ne. }
      { done. }
      { simpl. rewrite lookup_insert_eq. f_equal.
        replace (capacity_ v * 2) with (size_ v + S (capacity_ v * 2 - S (size_ v))) at 1 by lia.
        rewrite replicate_add.
        replace (size_ v) with (length (replicate (size_ v) (@None T)) + 0) at 1
          by (rewrite length_replicate; lia).
        by rewrite insert_app_r. }
      { simpl. rewrite tail_drop. apply (calm_quiet _ (World (heap w) 0 (drop 0 (alloc_plan w)) (drop 1 (ctor_plan w)) [] [])).
        by apply calm_later. }
      { done. }
      rewrite Hm. simpl. rewrite Hr. simpl.
      do 2 eexists. split; [done|]. split_and!; simpl; try done.
      * unfold holds. simpl. rewrite length_app. simpl.
        split_and!; [lia..|]. rewrite lookup_insert_eq. f_equal.
        unfold live. rewrite fmap_app, <- (assoc_L (++)). simpl.
        repeat (f_equal; try lia).
      * rewrite release_insert_ne, insert_insert_eq by done. by apply sound_grown.
      * rewrite !tail_drop, drop_drop. by apply calm_later.
Qed.

End Append.

Section Shrink.
Context {T : Type} `{Element T}.
Implicit Types (w : world T) (v : vec) (xs ys : list T) (b : nat) (p : ptr)
  (slots pre post : list (option T)) (plan : list bool).



End Shrink.

Section Comparison.
Context {T : Type} `{Element T}.
Implicit Types (w : world T) (v : vec) (xs ys : list T) (b : nat) (p : ptr)
  (slots pre post : list (option T)) (plan : list bool).

Lemma element_holds v w xs i :
  holds v w xs -> i < length xs -> element (buffer_ v) i w = xs !! i.
Proof.
  intros (Hlen & Hle & Hbuf) Hi.
  destruct (buffer_ v) as [b|].
  - destruct Hbuf as [_ Hl]. unfold element, slot. simpl. rewrite Hl. simpl.
    unfold live. rewrite lookup_app_l by by rewrite length_fmap.
    rewrite list_lookup_fmap. by destruct (xs !! i).
  - lia.
Qed.

Lemma equal_from_spec lhs rhs w xs ys :
  holds lhs w xs -> holds rhs w ys ->
  forall k i, i + k = length xs -> i + k = length ys ->
  exists r, equal_from lhs rhs w i k = Some r /\
    (r = true <->
     forall j a c, i <= j -> xs !! j = Some a -> ys !! j = Some c -> elem_neq a c = false).
Proof.
  intros Hl Hr. induction k as [|k IH]; intros i Hx Hy; simpl.
  - exists true. split; [done|]. split; [|done]. intros _ j a c Hj Ha.
    apply lookup_lt_Some in Ha. lia.
  - unfold index. rewrite (element_holds _ _ _ _ Hl), (element_holds _ _ _ _ Hr) by lia.
    destruct (lookup_lt_is_Some_2 xs i ltac:(lia)) as [a Ha].
    destruct (lookup_lt_is_Some_2 ys i ltac:(lia)) as [c Hc].
    rewrite Ha, Hc. simpl.
    destruct (elem_neq a c) eqn:Hne.
    + exists false. split; [done|]. split; [done|]. intros Hall.
      specialize (Hall i a c ltac:(lia) Ha Hc). congruence.
    + destruct (IH (S i) ltac:(lia) ltac:(lia)) as (r & -> & Hiff).
      exists r. split; [done|]. rewrite Hiff. split.
      * intros Hall j a' c' Hj Ha' Hc'.
        destruct (decide (j = i)) as [->|]; [congruence|].
        apply (Hall j); [lia|done..].
      * intros Hall j a' c' Hj. apply Hall. lia.
Qed.

Lemma lexicographical_compare_spec lhs rhs w xs ys :
  holds lhs w xs -> holds rhs w ys ->
  forall n1 n2 i, i + n1 = length xs -> i + n2 = length ys ->
  exists r, lexicographical_compare (buffer_ lhs) i n1 (buffer_ rhs) i n2 w = Some r /\
    (r = true <->
     exists k, i <= k /\
       (forall j, i <= j < k ->
          exists a c, xs !! j = Some a /\ ys !! j = Some c /\ ties a c) /\
       ((xs !! k = None /\ is_Some (ys !! k)) \/
        (exists a c, xs !! k = Some a /\ ys !! k = Some c /\ elem_lt a c = true))).
Proof.
  intros Hl Hr. induction n1 as [|n1 IH]; intros n2 i Hx Hy; simpl.
  - exists (negb (n2 =? 0)). split; [done|].
    destruct (Nat.eqb_spec n2 0) as [Hz|Hnz]; simpl.
    + split; [done|]. intros (k & Hk & _ & [[_ [c Hc]]|(a & c & Ha & _)]).
      * apply lookup_lt_Some in Hc. lia.
      * apply lookup_lt_Some in Ha. lia.
    + split; [|done]. intros _. exists i. split_and!; [lia| |].
      * intros j Hj. lia.
      * left. split; [apply lookup_ge_None; lia|apply lookup_lt_is_Some_2; lia].
  - destruct n2 as [|n2].
    + exists false. split; [done|]. split; [done|].
      intros (k & Hk & Hties & [[Hn _]|(a & c & _ & Hc & _)]).
      * destruct (decide (k = i)) as [->|].
        -- apply lookup_ge_None in Hn. lia.
        -- destruct (Hties i ltac:(lia)) as (a & c & _ & Hc & _).
           apply lookup_lt_Some in Hc. lia.
      * destruct (decide (k = i)) as [->|].
        -- apply lookup_lt_Some in Hc. lia.
        -- destruct (Hties i ltac:(lia)) as (a' & c' & _ & Hc' & _).
           apply lookup_lt_Some in Hc'. lia.
    + rewrite (element_holds _ _ _ _ Hl), (element_holds _ _ _ _ Hr) by lia.
      destruct (lookup_lt_is_Some_2 xs i ltac:(lia)) as [a Ha].
      destruct (lookup_lt_is_Some_2 ys i ltac:(lia)) as [c Hc].
      rewrite Ha, Hc. simpl.
      destruct (elem_lt a c) eqn:Hac.
      { exists true. split; [done|]. split; [|done]. intros _.
        exists i. split_and!; [lia| |].
        - intros j Hj. lia.
        - right. eauto. }
      destruct (elem_lt c a) eqn:Hca.
      { exists false. split; [done|]. split; [done|].
        intros (k & Hk & Hties & Hend).
        destruct (decide (k = i)) as [->|].
        - destruct Hend as [[Hn _]|(a' & c' & Ha' & Hc' & Hlt)]; congruence.
        - destruct (Hties i ltac:(lia)) as (a' & c' & Ha' & Hc' & [_ Ht]).
          congruence. }
      destruct (IH n2 (S i) ltac:(lia) ltac:(lia)) as (r & -> & Hiff).
      exists r. split; [done|]. rewrite Hiff. split.
      * intros (k & Hk & Hties & Hend). exists k. split_and!; [lia| |done].
        intros j Hj. destruct (decide (j = i)) as [->|].
        -- exists a, c. by split_and!.
        -- apply Hties. lia.
      * intros (k & Hk & Hties & Hend).
        destruct (decide (k = i)) as [->|].
        -- destruct Hend as [[Hn _]|(a' & c' & Ha' & Hc' & Hlt)]; congruence.
        -- exists k. split_and!; [lia| |done]. intros j Hj. apply Hties. lia.
Qed.

End Comparison.

Section MoveLoopFailure.
Context {T : Type} `{Element T}.
Implicit Types (w : world T) (v : vec) (xs ys : list T) (b : nat) (p : ptr)
  (slots pre post : list (option T)) (plan : list bool).

Lemma move_step_throw b nb v c j x w src plan :
  ctor_plan w = true :: plan ->
  heap w !! b = Some src -> src !! j = Some (Some x) ->
  (curr_size <- get_local ;;
   sys (move_construct (Some nb) curr_size (Some b) j) ;;
   incr_int)%cxx (Frame v c w) =
  (Throw element_failure,
   Frame v c (World (heap w) (next_block w) (alloc_plan w) plan (trace w) (faults w))).
Proof.
  intros Hp Hb Hj. simpl. unfold move_construct.
  erewrite element_lookup by done. by erewrite construct_throw.
Qed.

(** The loop of [MoveIterTo] when one of its constructions throws: the
    elements before it have been moved, and stay where they were moved to. *)
Lemma move_loop_throw b nb v (Hne : b <> nb) todo : forall done w rest post,
  heap w !! b = Some ((Some <$> (moved_from <$> done)) ++ (Some <$> todo) ++ rest) ->
  heap w !! nb = Some ((Some <$> done) ++ replicate (length todo) None ++ post) ->
  successes (length todo) (ctor_plan w) < length todo ->
  fits_int (length done + length todo) ->
  let j := successes (length todo) (ctor_plan w) in
  for_ (seq (length done) (length todo))
       (fun j => curr_size <- get_local ;;
                 sys (move_construct (Some nb) curr_size (Some b) j) ;;
                 incr_int)%cxx
       (Frame v (length done) w) =
  (Throw element_failure,
   Frame v (length done + j)
     (World (<[b := (Some <$> (moved_from <$> (done ++ take j todo)))
                    ++ (Some <$> drop j todo) ++ rest]>
               (<[nb := (Some <$> (done ++ take j todo))
                        ++ replicate (length todo - j) None ++ post]> (heap w)))
            (next_block w) (alloc_plan w) (drop (S j) (ctor_plan w))
            (trace w ++ (Constructed (Some nb) <$> seq (length done) j))
            (faults w))).
Proof.
  induction todo as [|x todo IH]; intros done w rest post Hb Hnb Hlt Hfit;
    [simpl in Hlt; lia|].
  cbn [length seq] in *. rewrite for_cons. cbv beta.
  assert (((Some <$> (moved_from <$> done)) ++ (Some <$> x :: todo) ++ rest)
            !! length done = Some (Some x)) as Hsrc.
  { rewrite <- (length_fmap moved_from done), <- (length_fmap Some).
    by apply list_lookup_middle. }
  destruct (ctor_plan w) as [|[] plan] eqn:Hp.
  - simpl in Hlt.
    erewrite move_step; [|done|by rewrite Hp|done|done|done| |].
    2:{ rewrite <- (length_fmap Some done) at 1. by apply list_lookup_middle. }
    2:{ eapply fits_int_le; [|done]. lia. }
    specialize (IH (done ++ [x])).
    rewrite length_app in IH. simpl in IH.
    replace (length done + 1) with (S (length done)) in IH by lia.
    erewrite IH; clear IH; simpl.
    + rewrite Hp. simpl. rewrite overwrite_two by done.
      rewrite <- !(assoc_L (++) done). simpl.
      f_equal. f_equal; [lia|]. f_equal. by rewrite <- (assoc_L (++)).
    + rewrite lookup_insert_eq. f_equal.
      rewrite !fmap_app, <- !(assoc_L (++)). simpl.
      rewrite <- (length_fmap moved_from done), <- (length_fmap Some (moved_from <$> done)).
      replace (length (Some <$> (moved_from <$> done)))
        with (length (Some <$> (moved_from <$> done)) + 0) at 1 by lia.
      by rewrite insert_app_r.
    + rewrite lookup_insert_ne, lookup_insert_eq by done. f_equal.
      rewrite !fmap_app, <- !(assoc_L (++)). simpl.
      rewrite <- (length_fmap Some done).
      replace (length (Some <$> done)) with (length (Some <$> done) + 0) at 1 by lia.
      by rewrite insert_app_r.
    + rewrite Hp. simpl. lia.
    + eapply fits_int_le; [|done]. lia.
  - erewrite move_step_throw by done. simpl.
    rewrite ?app_nil_r, ?Nat.add_0_r, ?Nat.sub_0_r.
    rewrite (insert_id (heap w) nb) by done.
    rewrite insert_id by done. done.
  - simpl in Hlt.
    erewrite move_step; [|done|by rewrite Hp|done|done|done| |].
    2:{ rewrite <- (length_fmap Some done) at 1. by apply list_lookup_middle. }
    2:{ eapply fits_int_le; [|done]. lia. }
    specialize (IH (done ++ [x])).
    rewrite length_app in IH. simpl in IH.
    replace (length done + 1) with (S (length done)) in IH by lia.
    erewrite IH; clear IH; simpl.
    + rewrite Hp. simpl. rewrite overwrite_two by done.
      rewrite <- !(assoc_L (++) done). simpl.
      f_equal. f_equal; [lia|]. f_equal. by rewrite <- (assoc_L (++)).
    + rewrite lookup_insert_eq. f_equal.
      rewrite !fmap_app, <- !(assoc_L (++)). simpl.
      rewrite <- (length_fmap moved_from done), <- (length_fmap Some (moved_from <$> done)).
      replace (length (Some <$> (moved_from <$> done)))
        with (length (Some <$> (moved_from <$> done)) + 0) at 1 by lia.
      by rewrite insert_app_r.
    + rewrite lookup_insert_ne, lookup_insert_eq by done. f_equal.
      rewrite !fmap_app, <- !(assoc_L (++)). simpl.
      rewrite <- (length_fmap Some done).
      replace (length (Some <$> done)) with (length (Some <$> done) + 0) at 1 by lia.
      by rewrite insert_app_r.
    + rewrite Hp. simpl. lia.
    + eapply fits_int_le; [|done]. lia.
Qed.

End MoveLoopFailure.

Section FailurePaths.
Context {T : Type} `{Element T}.
Implicit Types (w : world T) (v : vec) (xs ys : list T) (b : nat) (p : ptr)
  (slots pre post : list (option T)) (plan : list bool).

Lemma destroy_raw b i w slots :
  heap w !! b = Some slots ->
  slots !! i = Some None ->
  destroy (Some b) i w =
  World (heap w) (next_block w) (alloc_plan w) (ctor_plan w)
        (trace w ++ [Destroyed (Some b) i]) (faults w ++ [BadDestroy (Some b) i]).
Proof.
  intros Hb Hi. unfold destroy, slot. simpl. rewrite Hb. simpl. by rewrite Hi.
Qed.

(** What [MoveIterTo] leaves when the move of element [j] throws. *)
Lemma migrate_throw v c w xs nb post :
  holds v w xs ->
  buffer_ v <> Some nb ->
  heap w !! nb = Some (replicate (size_ v) None ++ post) ->
  successes (size_ v) (ctor_plan w) < size_ v ->
  fits_int (size_ v) ->
  let j := successes (size_ v) (ctor_plan w) in
  MoveIterTo (Some nb) (Frame v c w) =
  (Throw element_failure,
   Frame v c
     (World (stored v ((moved_from <$> take j xs) ++ drop j xs)
               (<[nb := (Some <$> take j xs) ++ replicate (size_ v - j) None ++ post]>
                  (heap w)))
            (next_block w) (alloc_plan w) (drop (S j) (ctor_plan w))
            (trace w ++ (Constructed (Some nb) <$> seq 0 j))
            (faults w))).
Proof.
  intros (Hlen & Hle & Hbuf) Hne Hnb Hlt Hfit j.
  unfold MoveIterTo, stored. simpl.
  destruct (buffer_ v) as [b|] eqn:Hb; [|lia].
  destruct Hbuf as [Hcap Hlook].
  pose proof (move_loop_throw b nb v ltac:(congruence) xs [] w
                (replicate (capacity_ v - size_ v) None) post) as Hloop.
  simpl in Hloop. rewrite Hlen in Hloop.
  rewrite Hloop by done. simpl. fold j.
  unfold live. by rewrite !fmap_app, <- !(assoc_L (++)).
Qed.

(** C1 and C6 in general: when the move of element [j] throws in a [Reserve]
    that grows, the container's fields are what they were, its first [j]
    elements are moved-from, and the new block stays allocated, holding the
    [j] elements moved into it: nothing was destroyed or released. *)
Lemma Reserve_migration_throw n v w xs :
  holds v w xs -> sound w -> capacity_ v < n ->
  head (alloc_plan w) <> Some true ->
  successes (size_ v) (ctor_plan w) < size_ v ->
  fits_int (size_ v) ->
  let j := successes (size_ v) (ctor_plan w) in
  call (Reserve n) v w =
  (Throw element_failure, v,
   World (stored v ((moved_from <$> take j xs) ++ drop j xs)
            (<[next_block w := live (take j xs) (n - j)]> (heap w)))
         (S (next_block w)) (tail (alloc_plan w)) (drop (S j) (ctor_plan w))
         (trace w ++ [Allocated (next_block w) n]
                  ++ (Constructed (Some (next_block w)) <$> seq 0 j))
         (faults w)).
Proof.
  intros Hh Hs Hn Ha Hlt Hfit j.
  pose proof Hh as (Hlen & Hle & Hbuf).
  pose proof (holds_not_fresh _ _ _ Hh Hs) as Hfresh.
  unfold call, Reserve. simpl.
  rewrite (proj2 (Nat.ltb_lt (capacity_ v) n)) by done. simpl.
  rewrite allocate_ok by done. simpl.
  set (nb := next_block w) in *.
  erewrite (migrate_throw v 0 _ xs nb (replicate (n - size_ v) None)); simpl.
  - fold j. rewrite insert_insert_eq. destruct v as [p sz cap]. simpl in *.
    f_equal. f_equal.
    + unfold live. do 3 f_equal. rewrite <- replicate_add. f_equal. lia.
    + by rewrite <- (assoc_L (++)).
  - by apply holds_insert_ne.
  - done.
  - rewrite lookup_insert_eq. f_equal. rewrite <- replicate_add. f_equal. lia.
  - done.
  - done.
Qed.

(** C2 in general: when the construction of the new element throws, the
    container and the heap are what they were, and [destroy] has been called
    on a slot that holds no element. *)
Lemma EmplaceBack_construct_throw x v w xs plan :
  holds v w xs -> sound w ->
  head (alloc_plan w) <> Some true ->
  ctor_plan w = true :: plan ->
  exists w' p,
    call (EmplaceBack x) v w = (Throw element_failure, v, w') /\
    heap w' = heap w /\
    faults w' = faults w ++ [BadDestroy p (size_ v)].
Proof.
  intros Hh Hs Ha Hp.
  destruct v as [p sz cap]. destruct Hh as (Hlen & Hle & Hbuf).
  unfold call, EmplaceBack. simpl in *.
  destruct (Nat.ltb_spec sz cap) as [Hlt|Hge]; simpl.
  - destruct p as [b|]; [|lia]. destruct Hbuf as [Hcap Hl].
    assert (live xs (cap - sz) !! sz = Some None) as Hraw.
    { unfold live. rewrite <- Hlen, <- (length_fmap Some xs).
      rewrite lookup_app_r, Nat.sub_diag by done.
      apply lookup_replicate_2. rewrite length_fmap. lia. }
    erewrite construct_throw by done. simpl.
    erewrite destroy_raw; [|done..]. simpl.
    by eexists _, (Some b).
  - assert (sz = cap) as Heq by lia.
    destruct (Nat.eqb_spec cap 0) as [Hz|Hnz]; simpl.
    + destruct p as [b|]; [lia|].
      rewrite allocate_ok by done. simpl.
      erewrite construct_throw by done. simpl.
      erewrite destroy_raw; [|by simpl; rewrite lookup_insert_eq|by rewrite Heq, Hz]; simpl.
      erewrite deallocate_ok; [|by simpl; rewrite lookup_insert_eq|done]; simpl.
      rewrite delete_insert_id by (apply Hs; lia).
      by eexists _, (Some (next_block w)).
    + rewrite allocate_ok by done. simpl.
      erewrite construct_throw by done. simpl.
      erewrite destroy_raw;
        [|by simpl; rewrite lookup_insert_eq|by apply lookup_replicate_2; lia]; simpl.
      erewrite deallocate_ok;
        [|by simpl; rewrite lookup_insert_eq|by rewrite length_replicate]; simpl.
      rewrite delete_insert_id by (apply Hs; lia).
      by eexists _, (Some (next_block w)).
Qed.

End FailurePaths.

Section Invariants.
Context {T : Type} `{Element T}.
Implicit Types (w : world T) (v : vec) (xs ys : list T) (b : nat) (p : ptr).

(** A container that holds a sequence satisfies the three invariants. *)
Lemma holds_invariants v w xs : holds v w xs -> invariants v w.
Proof.
  intros (Hlen & Hle & Hbuf). unfold invariants, constructed_prefix, null_iff_no_capacity.
  destruct (buffer_ v) as [b|].
  - destruct Hbuf as [Hcap Hl]. split_and!; [| |split; [done|lia]|done].
    + intros i Hi. destruct (lookup_lt_is_Some_2 xs i ltac:(lia)) as [x Hx].
      exists x. unfold slot. simpl. rewrite Hl. simpl. unfold live.
      rewrite lookup_app_l by (rewrite length_fmap; lia).
      by rewrite list_lookup_fmap, Hx.
    + intros i Hi. unfold slot. simpl. rewrite Hl. simpl. unfold live.
      rewrite lookup_app_r by (rewrite length_fmap; lia).
      apply lookup_replicate_2. rewrite length_fmap. lia.
  - split_and!; [| |done|done]; intros i Hi; lia.
Qed.

(** C7 in general: the copy of an empty container keeps its capacity and
    gets no buffer. *)
Lemma Vector_copy_of_empty other w :
  size_ other = 0 ->
  construct_object (Vector_copy other) w = (Ok (Vec None 0 (capacity_ other)), w).
Proof.
  intros Hz. unfold construct_object, Vector_copy. simpl. rewrite Hz. simpl.
  by destruct w.
Qed.

End Invariants.

(** ** The claims *)

Section Claims.
Context {T : Type} `{Element T}.
Implicit Types (w : world T) (v : vec) (xs ys : list T).







(** C9.  Move construction, and move assignment from a source to another
    object, hand the source's buffer, size and capacity to the destination as
    they are and leave the source with no buffer, size 0 and capacity 0;
    nothing is constructed, and neither can throw.  (Where source and
    destination are one object there is nothing to transfer: the assignment
    is guarded and changes nothing.) *)
Theorem move_transfers_ownership :
  (forall v w xs,
     holds v w xs ->
     let '(dst, src) := Vector_move v in
     dst = v /\ holds dst w xs /\
     src = Vec None 0 0 /\ Empty src = true /\ holds src w []) /\
  (forall this_ other objs w dst src xs ys,
     this_ <> other ->
     objs !! this_ = Some dst -> objs !! other = Some src ->
     holds dst w ys -> holds src w xs ->
     (forall b, buffer_ dst = Some b -> buffer_ src <> Some b) ->
     let '(objs', w') := move_assign this_ other objs w in
     objs' !! this_ = Some src /\ objs' !! other = Some (Vec None 0 0) /\
     holds src w' xs /\
     trace w' = trace w ++ (Destroyed (buffer_ dst) <$> seq 0 (size_ dst))
                        ++ [Deallocated (buffer_ dst) (capacity_ dst)] /\
     faults w' = faults w) /\
  (forall this_ objs w, move_assign this_ this_ objs w = (objs, w)).
Proof.
  split_and!.
  - intros v w xs Hh. simpl. destruct v as [p sz cap]. simpl.
    by split_and!.
  - intros this_ other objs w dst src xs ys Hne Hd Hsrc Hhd Hhs Hsep.
    unfold move_assign. rewrite decide_False by done. rewrite Hd, Hsrc. simpl.
    unfold destructor. simpl.
    destruct dst as [p sz cap]. erewrite (retire_ok (Vec p sz cap) w ys) by done. simpl.
    rewrite lookup_insert_eq, lookup_insert_ne, lookup_insert_eq by done.
    destruct src as [q sz' cap']. split_and!; try done.
    destruct Hhs as (Hlen & Hle & Hbuf). unfold holds. simpl in *.
    split_and!; try done. destruct q as [b'|]; [|done].
    destruct Hbuf as [Hcap Hl]. split; [done|].
    unfold release. destruct p as [b|]; [|done].
    rewrite lookup_delete_ne; [done|]. intros ->. by eapply Hsep.
  - intros this_ objs w. unfold move_assign. by rewrite decide_True.
Qed.

Lemma lex_less_from_zero xs ys :
  (exists k, 0 <= k /\
     (forall j, 0 <= j < k ->
        exists a c, xs !! j = Some a /\ ys !! j = Some c /\ ties a c) /\
     ((xs !! k = None /\ is_Some (ys !! k)) \/
      (exists a c, xs !! k = Some a /\ ys !! k = Some c /\ elem_lt a c = true)))
  <-> lex_less xs ys.
Proof.
  unfold lex_less. split.
  - intros (k & _ & Ht & He). exists k. split; [|done]. intros i Hi. apply Ht. lia.
  - intros (k & Ht & He). exists k. split_and!; [lia| |done]. intros j Hj. apply Ht. lia.
Qed.

Lemma relational_operators_general lhs rhs w xs ys :
  holds lhs w xs -> holds rhs w ys ->
  (exists r, op_eq lhs rhs w = Some r /\
     (r = true <-> Size lhs = Size rhs /\ pairwise_equal xs ys)) /\
  (exists r, op_lt lhs rhs w = Some r /\ (r = true <-> lex_less xs ys)) /\
  op_ne lhs rhs w = negb <$> op_eq lhs rhs w /\
  op_gt lhs rhs w = op_lt rhs lhs w /\
  op_le lhs rhs w = negb <$> op_lt rhs lhs w /\
  op_ge lhs rhs w = negb <$> op_lt lhs rhs w.
Proof.
  intros Hl Hr. split_and!; try done.
  - unfold op_eq, Size.
    pose proof Hl as (Hlx & _). pose proof Hr as (Hly & _).
    destruct (Nat.eqb_spec (size_ lhs) (size_ rhs)) as [Heq|Hne]; simpl.
    + destruct (equal_from_spec lhs rhs w xs ys Hl Hr (size_ lhs) 0) as (r & -> & Hiff);
        [lia..|].
      exists r. split; [done|]. rewrite Hiff. unfold pairwise_equal. split.
      * intros Hall. split; [done|]. intros i a c. apply Hall. lia.
      * intros [_ Hall] j a c _. apply Hall.
    + exists false. split; [done|]. split; [done|]. by intros [? _].
  - unfold op_lt.
    pose proof Hl as (Hlx & _). pose proof Hr as (Hly & _).
    destruct (lexicographical_compare_spec lhs rhs w xs ys Hl Hr (size_ lhs) (size_ rhs) 0)
      as (r & -> & Hiff); [lia..|].
    exists r. split; [done|]. by rewrite Hiff, lex_less_from_zero.
Qed.

End Claims.

(** ** The claims on concrete containers *)

Import Scenario.

Lemma held_holds elems spare plan :
  0 < length elems + spare -> holds (held elems spare) (holding elems spare plan) elems.
Proof.
  intros Hpos. unfold holds, held, holding. simpl.
  split_and!; [done|lia|done|].
  rewrite lookup_singleton_eq. do 2 f_equal. lia.
Qed.

Lemma holding_sound elems spare plan : sound (holding elems spare plan).
Proof.
  intros b Hb. unfold holding in *. simpl in *.
  apply lookup_singleton_ne. lia.
Qed.

Lemma peaceful_sound : sound peaceful.
Proof. intros b _. apply lookup_empty. Qed.

Lemma peaceful_calm : calm peaceful.
Proof. split; intros j; by destruct j. Qed.

(** C1.  [Vector<T> v{10, 20}; v.Reserve(4);] where the move of the second
    element throws: the failure reaches the caller while the element already
    moved into the new block is still constructed there and the new block is
    still allocated; on strings, the first element of the container is then
    the empty moved-from string.  [ShrinkToFit] does the same. *)
Theorem Reserve_failure_leaves_new_block :
  (let '(r, v, w) := reserve_fails in
   r = Throw element_failure /\ v = Vec (Some 0) 2 2 /\
   heap w !! 1 = Some [Some 10%Z; None; None; None] /\
   trace w = [Allocated 0 2; Constructed (Some 0) 0; Constructed (Some 0) 1;
              Allocated 1 4; Constructed (Some 1) 0]) /\
  (let '(r, v, w) := reserve_fails_text in
   r = Throw element_failure /\ v = Vec (Some 0) 2 2 /\
   index v 0 w = Some [] /\ index v 1 w = Some [98] /\
   heap w !! 1 = Some [Some [97]; None; None; None]) /\
  (let '(r, v, w) := shrink_fails in
   r = Throw element_failure /\ v = Vec (Some 1) 2 4 /\
   heap w !! 2 = Some [Some 10%Z; None]).
Proof. vm_compute. by split_and!. Qed.

(** C2.  An [EmplaceBack] whose construction throws calls [destroy] on the
    slot in which nothing was constructed, on each of its three paths: with
    room left, from capacity 0, and when growing. *)
Theorem EmplaceBack_failure_destroys_raw_slot :
  (let '(r, v, w) := emplace_fails_in_place in
   r = Throw element_failure /\ v = Vec (Some 0) 0 2 /\
   slot (Some 0) 0 w = Some None /\
   faults w = [BadDestroy (Some 0) 0]) /\
  (let '(r, v, w) := emplace_fails_empty in
   r = Throw element_failure /\ v = fresh_vec /\
   trace w = [Allocated 0 1; Destroyed (Some 0) 0; Deallocated (Some 0) 1] /\
   faults w = [BadDestroy (Some 0) 0]) /\
  (let '(r, v, w) := emplace_fails_growing in
   r = Throw element_failure /\ v = Vec (Some 0) 1 1 /\
   trace w = [Allocated 0 1; Constructed (Some 0) 0; Allocated 1 2;
              Destroyed (Some 1) 1; Deallocated (Some 1) 2] /\
   faults w = [BadDestroy (Some 1) 1]).
Proof. vm_compute. by split_and!. Qed.

(** C6.  A growing [Resize] whose construction throws releases the block of
    [2 * n] slots it obtained with the old capacity as the count; a [Reserve]
    whose migration throws never releases the block it obtained. *)
Theorem deallocate_unmatched_on_failure :
  resize_fails_then_destroyed =
    ([Allocated 0 2; Deallocated (Some 0) 0; Deallocated None 0],
     [BadDeallocate (Some 0) 0]) /\
  balanced (fst resize_fails_then_destroyed) = false /\
  fst reserve_fails_then_destroyed =
    [Allocated 0 2; Constructed (Some 0) 0; Constructed (Some 0) 1;
     Allocated 1 4; Constructed (Some 1) 0;
     Destroyed (Some 0) 0; Destroyed (Some 0) 1; Deallocated (Some 0) 2] /\
  snd reserve_fails_then_destroyed !! 1 = Some [Some 10%Z; None; None; None] /\
  balanced (fst reserve_fails_then_destroyed) = false.
Proof. vm_compute. by split_and!. Qed.

(** C7.  The copy of an empty container that has capacity has capacity and
    no buffer; the next [PushBack] on it constructs through the null
    pointer. *)
Theorem copy_of_reserved_breaks_invariant :
  fst copy_of_reserved = Vec None 0 1 /\
  ~ null_iff_no_capacity (fst copy_of_reserved) /\
  ~ invariants (fst copy_of_reserved) (snd copy_of_reserved) /\
  (let '(r, v, w) := push_on_copy in
   r = Ok tt /\ v = Vec None 1 1 /\ faults w = [BadConstruct None 0]).
Proof.
  assert (fst copy_of_reserved = Vec None 0 1) as Hc by by vm_compute.
  assert (~ null_iff_no_capacity (fst copy_of_reserved)) as Hn.
  { rewrite Hc. unfold null_iff_no_capacity. simpl. intros [Hn _].
    by specialize (Hn eq_refl). }
  split_and!; [done|done| |by vm_compute].
  by intros (_ & ? & _).
Qed.



(** C10.  [operator==] holds exactly of containers of equal size whose
    elements are pairwise equal, [operator<] is the lexicographic order of the
    element sequences, and the four others are derived from these two;
    [{5, 4, 3, 2, 1} < {5, 4, 3, 2, 2}] is true. *)
Theorem relational_operators :
  (forall (T : Type) (E : Element T) (lhs rhs : vec) (w : world T) (xs ys : list T),
     holds lhs w xs -> holds rhs w ys ->
     (exists r, op_eq lhs rhs w = Some r /\
        (r = true <-> Size lhs = Size rhs /\ pairwise_equal xs ys)) /\
     (exists r, op_lt lhs rhs w = Some r /\ (r = true <-> lex_less xs ys)) /\
     op_ne lhs rhs w = negb <$> op_eq lhs rhs w /\
     op_gt lhs rhs w = op_lt rhs lhs w /\
     op_le lhs rhs w = negb <$> op_lt rhs lhs w /\
     op_ge lhs rhs w = negb <$> op_lt lhs rhs w) /\
  (exists v u w,
     two_vectors = (v, u, w) /\
     holds v w [5; 4; 3; 2; 1]%Z /\ holds u w [5; 4; 3; 2; 2]%Z /\
     op_lt v u w = Some true).
Proof.
  split.
  - intros T E lhs rhs w xs ys. apply relational_operators_general.
  - do 3 eexists. split; [by vm_compute|].
    vm_compute. split_and!; try done; lia.
Qed.

(** ** The theorems at concrete containers *)


Lemma relational_operators_witness :
  holds (held [1; 2]%Z 0) (holding [1; 2]%Z 0 []) [1; 2]%Z /\
  (exists r, op_eq (held [1; 2]%Z 0) (held [1; 2]%Z 0) (holding [1; 2]%Z 0 []) = Some r /\
     (r = true <->
      Size (held [1; 2]%Z 0) = Size (held [1; 2]%Z 0) /\ pairwise_equal [1; 2]%Z [1; 2]%Z)) /\
  (exists r, op_lt (held [1; 2]%Z 0) (held [1; 2]%Z 0) (holding [1; 2]%Z 0 []) = Some r /\
     (r = true <-> lex_less [1; 2]%Z [1; 2]%Z)).
Proof.
  assert (holds (held [1; 2]%Z 0) (holding [1; 2]%Z 0 []) [1; 2]%Z) as Hh.
  { unfold holds. simpl. split; [reflexivity|]. split; [lia|]. split; [lia|reflexivity]. }
  split; [exact Hh|].
  pose proof (proj1 relational_operators Z int_element (held [1; 2]%Z 0) (held [1; 2]%Z 0)
                (holding [1; 2]%Z 0 []) [1; 2]%Z [1; 2]%Z Hh Hh) as (Heq & Hlt & _).
  split; [exact Heq|exact Hlt].
Defined.




Lemma move_transfers_ownership_witness :
  holds (held [7]%Z 0) (holding [7]%Z 0 []) [7]%Z /\
  holds fresh_vec (holding [7]%Z 0 []) (@nil Z) /\
  (let '(objs', w') :=
     move_assign 0 1 (<[0 := fresh_vec]> {[1 := held [7]%Z 0]}) (holding [7]%Z 0 []) in
   objs' !! 0 = Some (held [7]%Z 0) /\ objs' !! 1 = Some (Vec None 0 0) /\
   holds (held [7]%Z 0) w' [7]%Z /\
   trace w' = [] ++ (Destroyed None <$> seq 0 0) ++ [Deallocated None 0] /\
   faults w' = []).
Proof.
  assert (holds (held [7]%Z 0) (holding [7]%Z 0 []) [7]%Z) as Hh.
  { unfold holds. simpl. split; [reflexivity|]. split; [lia|]. split; [lia|reflexivity]. }
  assert (holds fresh_vec (holding [7]%Z 0 []) (@nil Z)) as He.
  { unfold holds. simpl. split; [reflexivity|]. split; [lia|reflexivity]. }
  split; [exact Hh|]. split; [exact He|].
  apply (proj1 (proj2 (move_transfers_ownership (T:=Z))) 0 1
           (<[0 := fresh_vec]> {[1 := held [7]%Z 0]}) (holding [7]%Z 0 [])
           fresh_vec (held [7]%Z 0) [7]%Z []).
  - lia.
  - reflexivity.
  - reflexivity.
  - exact He.
  - exact Hh.
  - intros b Hb. discriminate.
Defined.

(** ** Further properties of the member functions *)

Section Truncation.
Context {T : Type} `{Element T}.
Implicit Types (w : world T) (v : vec) (xs ys : list T) (b : nat) (p : ptr).

(** Destroying the elements from [n] on. *)
Lemma truncate_ok v w xs n :
  holds v w xs -> n <= size_ v ->
  destroy_range (buffer_ v) n (size_ v) w =
  World (stored (Vec (buffer_ v) n (capacity_ v)) (take n xs) (heap w))
        (next_block w) (alloc_plan w) (ctor_plan w)
        (trace w ++ (Destroyed (buffer_ v) <$> seq n (size_ v - n)))
        (faults w).
Proof.
  intros (Hlen & Hle & Hbuf) Hn. unfold stored. simpl.
  destruct (buffer_ v) as [b|].
  - destruct Hbuf as [Hcap Hl].
    pose proof (destroy_range_ok b (drop n xs) (Some <$> take n xs)
                  (replicate (capacity_ v - size_ v) None) w) as Hd.
    rewrite length_fmap, length_take, length_drop, Hlen in Hd.
    replace (n `min` size_ v) with n in Hd by lia.
    replace (n + (size_ v - n)) with (size_ v) in Hd by lia.
    rewrite Hd.
    + f_equal. f_equal. unfold live. f_equal.
      rewrite <- replicate_add. f_equal. lia.
    + rewrite Hl. f_equal. unfold live.
      rewrite (assoc_L (++)), <- fmap_app, take_drop. done.
  - assert (size_ v = 0) as Hz by lia. rewrite Hz.
    replace n with 0 by lia. unfold destroy_range, each. simpl.
    rewrite app_nil_r. by destruct w.
Qed.

Lemma holds_stored v ys (h : gmap nat (list (option T))) n a cp tr fl :
  length ys = size_ v -> size_ v <= capacity_ v ->
  (buffer_ v = None -> capacity_ v = 0) ->
  (forall b, buffer_ v = Some b -> 0 < capacity_ v) ->
  holds v (World (stored v ys h) n a cp tr fl) ys.
Proof.
  intros Hlen Hle Hnull Hcap. unfold holds, stored. simpl.
  split_and!; [done..|].
  destruct (buffer_ v) as [b|]; [|by apply Hnull].
  split; [by eapply Hcap|]. by rewrite lookup_insert_eq.
Qed.

Lemma holds_truncated v w xs n k a cp tr fl :
  holds v w xs -> n <= size_ v ->
  holds (Vec (buffer_ v) n (capacity_ v))
        (World (stored (Vec (buffer_ v) n (capacity_ v)) (take n xs) (heap w)) k a cp tr fl)
        (take n xs).
Proof.
  intros (Hlen & Hle & Hbuf) Hn. apply holds_stored; simpl.
  - rewrite length_take. lia.
  - lia.
  - intros Hb. by rewrite Hb in Hbuf.
  - intros b Hb. rewrite Hb in Hbuf. by destruct Hbuf.
Qed.

(** X1.  [At(idx)] returns the element at [idx] when [idx < Size()] and
    throws [out_of_range] otherwise; either way the container and the world
    are untouched. *)
Theorem At_checked idx v w xs :
  holds v w xs ->
  call (At idx) v w =
  ((if decide (idx < Size v) then Ok (xs !! idx) else Throw out_of_range), v, w).
Proof.
  intros Hh. pose proof Hh as (Hlen & _).
  unfold call, At, Size. simpl.
  destruct (Nat.leb_spec (size_ v) idx) as [Hge|Hlt]; simpl.
  - destruct (decide (idx < size_ v)); [lia|done].
  - destruct (decide (idx < size_ v)); [|lia]. unfold index.
    rewrite (element_holds v w xs idx Hh); [done|lia].
Qed.

(** X2.  On a container that is not empty [Front()] is the first element,
    [Back()] the last, and [operator[]] reads the element at its index; on an
    empty container [Front()] and [Back()] refer to no element. *)
Theorem Front_Back_elements v w xs :
  holds v w xs ->
  Front v w = head xs /\ Back v w = last xs /\
  (forall i, i < Size v -> index v i w = xs !! i) /\
  Data v = buffer_ v.
Proof.
  intros Hh. pose proof Hh as (Hlen & Hle & Hbuf).
  split_and!;
    [| |intros i Hi; apply element_holds; [done|unfold Size in *; lia]|done].
  - unfold Front. destruct xs as [|x xs].
    + simpl in *. destruct (buffer_ v) as [b|]; [|done].
      destruct Hbuf as [_ Hl]. unfold element, slot. simpl. rewrite Hl. simpl.
      rewrite <- Hlen, Nat.sub_0_r. by destruct (capacity_ v).
    + rewrite (element_holds v w (x :: xs)); [done..|simpl; lia].
  - unfold Back. rewrite last_lookup, Hlen.
    destruct (size_ v) as [|k] eqn:Hk.
    + destruct xs; [done|simpl in *; lia].
    + simpl. apply element_holds; [done|lia].
Qed.

(** X3.  [PopBack()] on a container that is not empty destroys the last
    element and nothing else: size goes down by one, buffer and capacity stay,
    the other elements are as they were; on an empty container it does
    nothing.  It never throws. *)
Theorem PopBack_removes_last v w xs :
  holds v w xs ->
  exists v' w',
    call PopBack v w = (Ok tt, v', w') /\
    holds v' w' (take (length xs - 1) xs) /\
    buffer_ v' = buffer_ v /\ capacity_ v' = capacity_ v /\
    size_ v' = size_ v - 1 /\
    trace w' = trace w ++ (if Empty v then [] else [Destroyed (buffer_ v) (size_ v - 1)]) /\
    faults w' = faults w /\
    (Empty v = true -> v' = v /\ w' = w).
Proof.
  intros Hh. pose proof Hh as (Hlen & Hle & Hbuf).
  unfold call, PopBack, Empty. simpl.
  destruct (Nat.eqb_spec (size_ v) 0) as [Hz|Hnz]; simpl.
  - exists v, w. rewrite Hlen, Hz, app_nil_r. simpl.
    split_and!; try done. rewrite take_0.
    destruct xs; [done|simpl in *; lia].
  - pose proof (truncate_ok v w xs (size_ v - 1) Hh ltac:(lia)) as Ht.
    unfold destroy_range in Ht.
    replace (size_ v - (size_ v - 1)) with 1 in Ht by lia.
    unfold each in Ht. simpl in Ht. rewrite Ht.
    do 2 eexists. split; [done|]. rewrite Hlen. simpl.
    split_and!; try done.
    by apply holds_truncated; [|lia].
Qed.

(** X4.  [Clear()] destroys every element, in ascending order, and keeps the
    buffer and the capacity; it never throws and constructs nothing. *)
Theorem Clear_destroys_all v w xs :
  holds v w xs ->
  exists w',
    call Clear v w = (Ok tt, Vec (buffer_ v) 0 (capacity_ v), w') /\
    holds (Vec (buffer_ v) 0 (capacity_ v)) w' [] /\
    trace w' = trace w ++ (Destroyed (buffer_ v) <$> seq 0 (size_ v)) /\
    faults w' = faults w /\ ctor_plan w' = ctor_plan w /\ alloc_plan w' = alloc_plan w.
Proof.
  intros Hh. unfold call, Clear. simpl.
  rewrite (truncate_ok v w xs 0 Hh) by lia.
  eexists. split; [done|]. rewrite Nat.sub_0_r. split_and!; try done.
  by apply (holds_truncated v w xs 0); [|lia].
Qed.

End Truncation.

Section ResizeWithinCapacity.
Context {T : Type} `{Element T}.
Implicit Types (w : world T) (v : vec) (xs ys : list T) (b : nat) (p : ptr).

(** Two loop bodies that agree on the states a loop runs through give the
    same loop. *)
Lemma for_ext_on {St X} (P : St -> Prop) (body body' : X -> M St unit) (l : list X) :
  (forall x s, P s -> body x s = body' x s) ->
  (forall x s r s', P s -> body' x s = (r, s') -> P s') ->
  forall s, P s -> for_ l body s = for_ l body' s.
Proof.
  intros Hext Hinv. induction l as [|x l IH]; intros s Hs; [done|].
  rewrite !for_cons, Hext by done.
  destruct (body' x s) as [[[]|e] s'] eqn:Hb; [|done].
  apply IH. by eapply Hinv.
Qed.

(** The loop that fills in place reads [buffer_] at every round. *)
Lemma fill_in_place b x v k a c w :
  buffer_ v = Some b ->
  for_ (seq a k) (fun i => buf <- get buffer_ ;; sys (construct buf i x) ;; incr)%cxx
       (Frame v c w) =
  for_ (seq a k) (fun i => sys (construct (Some b) i x) ;; incr)%cxx (Frame v c w).
Proof.
  intros Hb. apply (for_ext_on (fun s => this s = v)); [| |done].
  - intros i s Hs. simpl. by rewrite Hs, Hb.
  - intros i s r s' Hs. simpl.
    destruct (construct (Some b) i x (mem s)) as [[[]|e] w']; intros [= <- <-]; done.
Qed.

Lemma live_split xs k n :
  length xs + n <= length xs + k ->
  live xs k = (Some <$> xs) ++ replicate n None ++ replicate (k - n) None.
Proof.
  intros Hn. unfold live. f_equal. rewrite <- replicate_add. f_equal. lia.
Qed.

(** X5.  [Resize] to a size not above the current one destroys the elements
    from [n] on, in ascending order, and keeps buffer and capacity; it
    constructs nothing, allocates nothing and cannot throw.  To the current
    size it does nothing at all. *)
Theorem Resize_shrinks n value v w xs :
  holds v w xs -> n <= size_ v ->
  exists w',
    call (Resize n) v w = (Ok tt, Vec (buffer_ v) n (capacity_ v), w') /\
    call (Resize_value n value) v w = (Ok tt, Vec (buffer_ v) n (capacity_ v), w') /\
    holds (Vec (buffer_ v) n (capacity_ v)) w' (take n xs) /\
    trace w' = trace w ++ (Destroyed (buffer_ v) <$> seq n (size_ v - n)) /\
    ctor_plan w' = ctor_plan w /\ alloc_plan w' = alloc_plan w /\ faults w' = faults w /\
    (n = size_ v -> w' = w).
Proof.
  intros Hh Hn. pose proof Hh as (Hlen & Hle & Hbuf).
  unfold call, Resize, Resize_value. simpl.
  destruct (Nat.eqb_spec n (size_ v)) as [->|Hne]; simpl.
  - exists w. rewrite Nat.sub_diag, app_nil_r, <- Hlen, firstn_all, Hlen. simpl.
    destruct v as [p sz cap]. by split_and!.
  - rewrite (proj2 (Nat.ltb_lt n (size_ v))) by lia. simpl.
    rewrite (truncate_ok v w xs n Hh) by lia.
    eexists. split_and!; try done.
    by apply holds_truncated.
Qed.

(** X6.  [Resize] to a size above the current one and within the capacity
    constructs the new elements in place, after the existing ones: the same
    buffer and capacity, no allocation, and the elements followed by
    [n - size] copies of the default value or of [value]. *)
Theorem Resize_in_place n value v w xs :
  holds v w xs -> size_ v < n -> n <= capacity_ v ->
  quiet (n - size_ v) (ctor_plan w) ->
  exists w1 w2,
    call (Resize n) v w = (Ok tt, Vec (buffer_ v) n (capacity_ v), w1) /\
    call (Resize_value n value) v w = (Ok tt, Vec (buffer_ v) n (capacity_ v), w2) /\
    holds (Vec (buffer_ v) n (capacity_ v)) w1 (xs ++ replicate (n - size_ v) default_value) /\
    holds (Vec (buffer_ v) n (capacity_ v)) w2 (xs ++ replicate (n - size_ v) value) /\
    trace w1 = trace w ++ (Constructed (buffer_ v) <$> seq (size_ v) (n - size_ v)) /\
    trace w2 = trace w ++ (Constructed (buffer_ v) <$> seq (size_ v) (n - size_ v)) /\
    alloc_plan w1 = alloc_plan w /\ alloc_plan w2 = alloc_plan w /\
    faults w1 = faults w /\ faults w2 = faults w.
Proof.
  intros Hh Hlt Hcap Hq. pose proof Hh as (Hlen & Hle & Hbuf).
  destruct (buffer_ v) as [b|] eqn:Hb; [|lia]. destruct Hbuf as [_ Hl].
  rewrite (live_split xs _ (n - size_ v)) in Hl by lia.
  apply successes_quiet in Hq.
  unfold call, Resize, Resize_value. simpl.
  rewrite (proj2 (Nat.eqb_neq n (size_ v))) by lia.
  rewrite (proj2 (Nat.ltb_ge n (size_ v))) by lia. simpl.
  rewrite (proj2 (Nat.leb_le n (capacity_ v))) by lia. simpl.
  rewrite !(fill_in_place b) by done.
  rewrite !(fill_loop b _ v (n - size_ v) (size_ v) 0 w _ _ Hl) by by rewrite length_fmap.
  simpl. rewrite Hq, !decide_True by done. simpl. rewrite Hb.
  do 2 eexists. split_and!; try done.
  all: unfold holds; simpl; rewrite length_app, length_replicate, lookup_insert_eq.
  all: split_and!; try lia.
  all: f_equal; unfold live; rewrite fmap_app, fmap_replicate, <- (assoc_L (++)).
  all: rewrite Nat.sub_diag; simpl; do 3 f_equal; lia.
Qed.

End ResizeWithinCapacity.

Section ResizeRollback.
Context {T : Type} `{Element T}.
Implicit Types (w : world T) (v : vec) (xs ys : list T) (b : nat) (p : ptr).

Lemma successes_below k plan :
  (exists j, j < k /\ plan !! j = Some true) -> successes k plan < k.
Proof.
  intros (j & Hj & Ht).
  pose proof (successes_le k plan) as Hle.
  destruct (decide (successes k plan = k)) as [Heq|]; [|lia].
  apply successes_quiet in Heq. by destruct (Heq j Hj).
Qed.

(** X7.  When a construction throws in a [Resize] within the capacity, the
    elements the call had constructed are destroyed and the failure reaches
    the caller with the container and the heap as they were before the call:
    nothing is leaked, nothing is destroyed that was not constructed. *)
Theorem Resize_in_place_rolls_back n value v w xs :
  holds v w xs -> size_ v < n -> n <= capacity_ v ->
  (exists j, j < n - size_ v /\ ctor_plan w !! j = Some true) ->
  let j := successes (n - size_ v) (ctor_plan w) in
  exists w1 w2,
    call (Resize n) v w = (Throw element_failure, v, w1) /\
    call (Resize_value n value) v w = (Throw element_failure, v, w2) /\
    heap w1 = heap w /\ heap w2 = heap w /\
    holds v w1 xs /\ holds v w2 xs /\
    trace w1 = trace w ++ (Constructed (buffer_ v) <$> seq (size_ v) j)
                       ++ (Destroyed (buffer_ v) <$> seq (size_ v) j) /\
    trace w2 = trace w1 /\
    faults w1 = faults w /\ faults w2 = faults w.
Proof.
  intros Hh Hlt Hcap Hj j. apply successes_below in Hj. fold j in Hj.
  destruct v as [p sz cap]. destruct Hh as (Hlen & Hle & Hbuf). simpl in *.
  destruct p as [b|]; [|lia]. destruct Hbuf as [_ Hl].
  pose proof Hl as Hl'.
  rewrite (live_split xs _ (n - sz)) in Hl' by lia.
  unfold call, Resize, Resize_value. simpl.
  rewrite (proj2 (Nat.eqb_neq n sz)) by lia.
  rewrite (proj2 (Nat.ltb_ge n sz)) by lia. simpl.
  rewrite (proj2 (Nat.leb_le n cap)) by lia. simpl.
  rewrite !(fill_in_place b) by done.
  rewrite !(fill_loop b _ (Vec (Some b) sz cap) (n - sz) sz 0 w _ _ Hl')
    by by rewrite length_fmap.
  simpl. fold j. rewrite !decide_False by lia. simpl.
  pose proof (fun x => destroy_range_ok b (replicate j x) (Some <$> xs)
         (replicate (n - sz - j) None ++ replicate (cap - sz - (n - sz)) None)) as Hd.
  setoid_rewrite fmap_replicate in Hd. setoid_rewrite length_replicate in Hd.
  rewrite length_fmap, Hlen in Hd.
  rewrite (Hd default_value) by (by simpl; rewrite lookup_insert_eq).
  rewrite (Hd value) by (by simpl; rewrite lookup_insert_eq). simpl.
  rewrite !insert_insert_eq.
  assert ((Some <$> xs) ++ replicate j None ++ replicate (n - sz - j) None
            ++ replicate (cap - sz - (n - sz)) None = live xs (cap - sz)) as ->.
  { unfold live. f_equal. rewrite <- !replicate_add. f_equal. lia. }
  rewrite insert_id by done.
  do 2 eexists. split_and!; try done.
  - unfold holds. simpl. split_and!; try done. lia.
  - unfold holds. simpl. split_and!; try done. lia.
  - by rewrite <- (assoc_L (++)).
Qed.

End ResizeRollback.

Section ReserveAndAllocation.
Context {T : Type} `{Element T}.
Implicit Types (w : world T) (v : vec) (xs ys : list T) (b : nat) (p : ptr).

(** X8.  [Reserve(c)] with [c] above the capacity moves the elements into a
    new block of exactly [c] slots and releases the old one: the same
    elements in the same order, the same size, capacity [c]; this for no more
    elements than the [int] counter of the migration counts.  With [c] not
    above the capacity it does nothing. *)
Theorem Reserve_grows_to_exactly c v w xs :
  holds v w xs -> sound w ->
  head (alloc_plan w) <> Some true ->
  quiet (size_ v) (ctor_plan w) ->
  fits_int (size_ v) ->
  (capacity_ v < c ->
   exists w',
     call (Reserve c) v w = (Ok tt, Vec (Some (next_block w)) (size_ v) c, w') /\
     holds (Vec (Some (next_block w)) (size_ v) c) w' xs /\
     sound w' /\
     trace w' = trace w ++ [Allocated (next_block w) c]
                        ++ (Constructed (Some (next_block w)) <$> seq 0 (size_ v))
                        ++ (Destroyed (buffer_ v) <$> seq 0 (size_ v))
                        ++ [Deallocated (buffer_ v) (capacity_ v)] /\
     (forall b, buffer_ v = Some b -> heap w' !! b = None) /\
     faults w' = faults w) /\
  (c <= capacity_ v -> call (Reserve c) v w = (Ok tt, v, w)).
Proof.
  intros Hh Hs Ha Hq Hfit. pose proof Hh as (Hlen & Hle & Hbuf).
  pose proof (holds_not_fresh _ _ _ Hh Hs) as Hfresh.
  split.
  - intros Hc. unfold call, Reserve. simpl.
    rewrite (proj2 (Nat.ltb_lt (capacity_ v) c)) by done. simpl.
    rewrite allocate_ok by done. simpl.
    set (nb := next_block w) in *.
    match goal with
    | |- context [MoveIterTo _ (Frame _ _ ?w0)] =>
        edestruct (migrate_retire v 0 w0 xs nb (replicate (c - size_ v) None))
          as (w1 & Hm & Hr)
    end.
    { by apply holds_insert_ne. }
    { done. }
    { simpl. rewrite lookup_insert_eq. f_equal. rewrite <- replicate_add. f_equal. lia. }
    { done. }
    { done. }
    rewrite Hm. simpl. rewrite Hr. simpl.
    rewrite release_insert_ne, insert_insert_eq by done.
    eexists. split_and!; try done.
    + unfold holds. simpl. rewrite lookup_insert_eq. split_and!; try done; lia.
    + by apply sound_grown.
    + by rewrite <- !(assoc_L (++)).
    + intros b Hb. rewrite Hb in *. simpl.
      rewrite lookup_insert_ne by congruence. apply lookup_delete_eq.
  - intros Hc. unfold call, Reserve. simpl.
    rewrite (proj2 (Nat.ltb_ge (capacity_ v) c)) by done. by destruct v.
Qed.

(** X9.  When the allocator refuses the block, [Reserve], a growing [Resize],
    an [EmplaceBack] on a full container and [ShrinkToFit] throw [bad_alloc]
    and leave the container and the heap as they were: nothing was
    constructed, destroyed or released. *)
Theorem allocation_failure_has_no_effect c n value x v w plan :
  size_ v <= capacity_ v ->
  alloc_plan w = true :: plan ->
  let w' := World (heap w) (next_block w) plan (ctor_plan w) (trace w) (faults w) in
  (capacity_ v < c -> call (Reserve c) v w = (Throw bad_alloc, v, w')) /\
  (capacity_ v < n -> call (Resize n) v w = (Throw bad_alloc, v, w')) /\
  (capacity_ v < n -> call (Resize_value n value) v w = (Throw bad_alloc, v, w')) /\
  (size_ v = capacity_ v -> call (EmplaceBack x) v w = (Throw bad_alloc, v, w')) /\
  (size_ v <> 0 -> call ShrinkToFit v w = (Throw bad_alloc, v, w')).
Proof.
  intros Hle Ha w'. destruct v as [p sz cap]. simpl in *.
  split_and!.
  - intros Hc. unfold call, Reserve. simpl.
    rewrite (proj2 (Nat.ltb_lt cap c)) by done. simpl.
    by erewrite allocate_throw.
  - intros Hn. unfold call, Resize. simpl.
    rewrite (proj2 (Nat.eqb_neq n sz)) by lia.
    rewrite (proj2 (Nat.ltb_ge n sz)) by lia. simpl.
    rewrite (proj2 (Nat.leb_gt n cap)) by done. simpl.
    by erewrite allocate_throw.
  - intros Hn. unfold call, Resize_value. simpl.
    rewrite (proj2 (Nat.eqb_neq n sz)) by lia.
    rewrite (proj2 (Nat.ltb_ge n sz)) by lia. simpl.
    rewrite (proj2 (Nat.leb_gt n cap)) by done. simpl.
    by erewrite allocate_throw.
  - intros Hn. unfold call, EmplaceBack. simpl.
    rewrite (proj2 (Nat.ltb_ge sz cap)) by lia. simpl.
    destruct (cap =? 0); simpl; by erewrite allocate_throw.
  - intros Hn. unfold call, ShrinkToFit. simpl.
    rewrite (proj2 (Nat.eqb_neq sz 0)) by done. simpl.
    by erewrite allocate_throw.
Qed.

End ReserveAndAllocation.

(** ** The constructors *)

Section CopyLoop.
Context {T : Type} `{Element T}.
Implicit Types (w : world T) (v : vec) (xs ys vals : list T) (b : nat) (p : ptr)
  (range : list (@iterator T)) (iter : @iterator T).

Lemma yields_insert b h iter x slots :
  yields b h iter x -> yields b (<[b := slots]> h) iter x.
Proof.
  destruct iter as [y|q j]; [done|].
  intros (c & sl & -> & Hne & Hc & Hj). exists c, sl.
  by rewrite lookup_insert_ne.
Qed.

Lemma copy_construct_yields b i iter x w :
  yields b (heap w) iter x ->
  copy_construct (Some b) i iter w = construct (Some b) i x w.
Proof.
  destruct iter as [y|q j]; simpl; [by intros ->|].
  intros (c & sl & -> & Hne & Hc & Hj).
  by erewrite element_lookup.
Qed.

(** The loop of [CopyIterRange], entered with [done] already copied. *)
Lemma copy_loop b v range : forall vals done w post,
  Forall2 (yields b (heap w)) range vals ->
  heap w !! b = Some ((Some <$> done) ++ replicate (length vals) None ++ post) ->
  let j := successes (length vals) (ctor_plan w) in
  for_ range (fun iter => curr_size <- get_local ;;
                          sys (copy_construct (Some b) curr_size iter) ;;
                          incr)%cxx
       (Frame v (length done) w) =
  ((if decide (j = length vals) then Ok tt else Throw element_failure),
   Frame v (length done + j)
     (World (<[b := (Some <$> (done ++ take j vals))
                    ++ replicate (length vals - j) None ++ post]> (heap w))
            (next_block w) (alloc_plan w)
            (drop (if decide (j = length vals) then j else S j) (ctor_plan w))
            (trace w ++ (Constructed (Some b) <$> seq (length done) j))
            (faults w))).
Proof.
  induction range as [|iter range IH]; intros vals done w post Hy Hb.
  - apply Forall2_nil_inv_l in Hy as ->. simpl in *.
    rewrite !app_nil_r, Nat.add_0_r, insert_id by done. by destruct w.
  - apply Forall2_cons_inv_l in Hy as (x & vals' & Hx & Hy & ->).
    cbn [length]. rewrite for_cons. simpl.
    rewrite (copy_construct_yields b _ iter x) by done.
    assert (((Some <$> done) ++ replicate (S (length vals')) None ++ post)
              !! length done = Some None) as Hraw.
    { rewrite <- (length_fmap Some done) at 1. by apply list_lookup_middle. }
    assert (<[length done := Some x]>
              ((Some <$> done) ++ None :: replicate (length vals') None ++ post)
            = (Some <$> (done ++ [x])) ++ replicate (length vals') None ++ post) as Hput.
    { rewrite fmap_app, <- (assoc_L (++)). simpl.
      rewrite <- (length_fmap Some done) at 1.
      replace (length (Some <$> done)) with (length (Some <$> done) + 0) at 1 by lia.
      by rewrite insert_app_r. }
    destruct (ctor_plan w) as [|[] plan] eqn:Hp.
    + erewrite construct_ok; [|by rewrite Hp|done|done]. simpl.
      specialize (IH vals' (done ++ [x])).
      rewrite length_app in IH. simpl in IH.
      replace (length done + 1) with (S (length done)) in IH by lia.
      erewrite IH; clear IH; simpl.
      * rewrite Hp. simpl. rewrite insert_insert_eq.
        rewrite <- !(assoc_L (++) done). simpl.
        repeat case_decide; try lia; simpl.
        all: f_equal; f_equal; [lia|]; f_equal; try by rewrite <- (assoc_L (++)).
        all: by destruct (length vals').
      * eapply Forall2_impl; [done|]. intros. by apply yields_insert.
      * by rewrite lookup_insert_eq, Hput.
    + erewrite construct_throw by done. simpl.
      rewrite !app_nil_r, Nat.add_0_r, insert_id by done. done.
    + erewrite construct_ok; [|by rewrite Hp|done|done]. simpl.
      specialize (IH vals' (done ++ [x])).
      rewrite length_app in IH. simpl in IH.
      replace (length done + 1) with (S (length done)) in IH by lia.
      erewrite IH; clear IH; simpl.
      * rewrite Hp. simpl. rewrite insert_insert_eq.
        rewrite <- !(assoc_L (++) done). simpl.
        repeat case_decide; try lia; simpl.
        all: f_equal; f_equal; [lia|]; f_equal; by rewrite <- (assoc_L (++)).
      * eapply Forall2_impl; [done|]. intros. by apply yields_insert.
      * by rewrite lookup_insert_eq, Hput.
Qed.

(** [CopyIterRange] into a raw block: all of the range, or nothing. *)
Lemma CopyIterRange_run b v c w range vals post :
  buffer_ v = Some b ->
  Forall2 (yields b (heap w)) range vals ->
  heap w !! b = Some (replicate (length vals) None ++ post) ->
  let j := successes (length vals) (ctor_plan w) in
  CopyIterRange range (Frame v c w) =
  if decide (j = length vals)
  then (Ok tt,
        Frame v c
          (World (<[b := (Some <$> vals) ++ post]> (heap w))
                 (next_block w) (alloc_plan w) (drop (length vals) (ctor_plan w))
                 (trace w ++ (Constructed (Some b) <$> seq 0 (length vals)))
                 (faults w)))
  else (Throw element_failure,
        Frame v c
          (World (heap w) (next_block w) (alloc_plan w) (drop (S j) (ctor_plan w))
                 (trace w ++ (Constructed (Some b) <$> seq 0 j)
                          ++ (Destroyed (Some b) <$> seq 0 j))
                 (faults w))).
Proof.
  intros Hbuf Hy Hb j. unfold CopyIterRange. simpl. rewrite Hbuf.
  pose proof (copy_loop b v range vals [] w post Hy Hb) as Hloop.
  simpl in Hloop. fold j in Hloop.
  pose proof (successes_le (length vals) (ctor_plan w)) as Hle. fold j in Hle.
  rewrite Hloop. destruct (decide (j = length vals)) as [Hj|Hj]; simpl.
  - rewrite Hj, firstn_all, Nat.sub_diag. done.
  - pose proof (destroy_range_ok b (take j vals) []
                  (replicate (length vals - j) None ++ post)) as Hd.
    simpl in Hd. rewrite length_take in Hd.
    replace (j `min` length vals) with j in Hd by lia.
    rewrite Hd by (by simpl; rewrite lookup_insert_eq). simpl.
    rewrite insert_insert_eq.
    rewrite (assoc_L (++)), <- replicate_add.
    replace (j + (length vals - j)) with (length vals) by lia.
    rewrite insert_id by done. by rewrite <- (assoc_L (++)).
Qed.

End CopyLoop.

Section Constructors.
Context {T : Type} `{Element T}.
Implicit Types (w : world T) (v : vec) (xs ys vals : list T) (b : nat) (p : ptr)
  (range : list (@iterator T)) (iter : @iterator T).

Lemma copying_tail range vals cap w (v0 : vec) :
  sound w -> 0 < length vals -> length vals <= cap ->
  Forall2 (yields (next_block w) (heap w)) range vals ->
  buffer_ v0 = None -> size_ v0 = length vals -> capacity_ v0 = cap ->
  (let '(r, s) :=
     (try
        (p <- sys (allocate cap) ;;
         set_buffer p ;;
         CopyIterRange range)
      catch abandon)%cxx (Frame v0 0 w) in
   match r with
   | Ok _ => (Ok (this s), mem s)
   | Throw e => (Throw e, mem s)
   end) = copied vals cap w.
Proof.
  intros Hs Hpos Hcap Hy Hb0 Hs0 Hc0. unfold copied. simpl.
  destruct (alloc_plan w) as [|[] aplan] eqn:Ha.
  2:{ erewrite allocate_throw by done. simpl. by rewrite Hb0, Hc0. }
  all: rewrite allocate_ok by (by rewrite Ha); simpl.
  all: erewrite (CopyIterRange_run (next_block w) _ 0 _ range vals
                   (replicate (cap - length vals) None)); simpl;
    [|done
     |eapply Forall2_impl; [done|]; intros; by apply yields_insert
     |rewrite lookup_insert_eq; f_equal; rewrite <- replicate_add; f_equal; lia].
  all: destruct (decide (successes (length vals) (ctor_plan w) = length vals)); simpl.
  all: rewrite ?Hs0, ?Hc0, ?insert_insert_eq, ?Ha; simpl.
  all: try (erewrite deallocate_ok;
    [|by simpl; rewrite lookup_insert_eq|by rewrite length_replicate]; simpl;
    rewrite delete_insert_id by (apply Hs; lia)).
  all: by rewrite <- !(assoc_L (++)).
Qed.

Lemma yields_External b h vals : Forall2 (yields b h) (External <$> vals) vals.
Proof. induction vals; constructor; done. Qed.

Lemma Vector_init_run xs w :
  sound w -> xs <> [] ->
  construct_object (Vector_init xs) w = copied xs (length xs) w /\
  construct_object (Vector_init_move xs) w = copied xs (length xs) w.
Proof.
  intros Hs Hne.
  assert (0 < length xs) as Hpos by (destruct xs; [done|simpl; lia]).
  pose proof (copying_tail (External <$> xs) xs (length xs) w
                (Vec None (length xs) (length xs)) Hs Hpos ltac:(lia)
                (yields_External _ _ xs) eq_refl eq_refl eq_refl) as Ht.
  unfold construct_object, Vector_init, Vector_init_move, MoveIterRange.
  simpl in *. rewrite (proj2 (Nat.eqb_neq (length xs) 0)) by lia. simpl.
  split; exact Ht.
Qed.

Lemma Vector_range_run range vals w :
  sound w -> vals <> [] ->
  Forall2 (yields (next_block w) (heap w)) range vals ->
  construct_object (Vector_range range) w = copied vals (length vals * 2) w.
Proof.
  intros Hs Hne Hy.
  assert (0 < length vals) as Hpos by (destruct vals; [done|simpl; lia]).
  pose proof (Forall2_length _ _ _ Hy) as Hlen.
  pose proof (copying_tail range vals (length vals * 2) w
                (Vec None (length vals) (length vals * 2)) Hs Hpos ltac:(lia)
                Hy eq_refl eq_refl eq_refl) as Ht.
  unfold construct_object, Vector_range.
  simpl in *. rewrite Hlen. rewrite (proj2 (Nat.eqb_neq (length vals) 0)) by lia. simpl.
  exact Ht.
Qed.

Lemma yields_range_of other w ys b :
  holds other w ys -> buffer_ other <> Some b ->
  Forall2 (yields b (heap w)) (range_of other) ys.
Proof.
  intros (Hlen & Hle & Hbuf) Hne. unfold range_of. rewrite <- Hlen.
  apply Forall2_same_length_lookup_2.
  { by rewrite length_fmap, length_seq. }
  intros i iter y Hi Hy. rewrite list_lookup_fmap in Hi.
  apply lookup_lt_Some in Hy as Hlt.
  rewrite lookup_seq_lt in Hi by done. simpl in Hi. injection Hi as <-.
  destruct (buffer_ other) as [c|]; [|simpl in *; lia].
  destruct Hbuf as [_ Hl]. exists c, (live ys (capacity_ other - size_ other)).
  split_and!; [done|congruence|done|].
  unfold live. rewrite lookup_app_l by by rewrite length_fmap.
  by rewrite list_lookup_fmap, Hy.
Qed.

Lemma Vector_copy_run other w ys :
  sound w -> holds other w ys -> size_ other <> 0 ->
  construct_object (Vector_copy other) w = copied ys (capacity_ other) w.
Proof.
  intros Hs Hh Hne. pose proof Hh as (Hlen & Hle & Hbuf).
  pose proof (copying_tail (range_of other) ys (capacity_ other) w
                (Vec None (size_ other) (capacity_ other)) Hs ltac:(lia) ltac:(lia)
                (yields_range_of other w ys _ Hh (holds_not_fresh _ _ _ Hh Hs))
                eq_refl ltac:(done) eq_refl) as Ht.
  unfold construct_object, Vector_copy.
  simpl in *. rewrite (proj2 (Nat.eqb_neq (size_ other) 0)) by lia. simpl.
  exact Ht.
Qed.

End Constructors.

Section ConstructorResults.
Context {T : Type} `{Element T}.
Implicit Types (w : world T) (v : vec) (xs ys vals : list T) (b : nat) (p : ptr)
  (range : list (@iterator T)) (iter : @iterator T).

Lemma copied_ok vals cap w :
  sound w -> 0 < length vals -> length vals <= cap ->
  head (alloc_plan w) <> Some true -> quiet (length vals) (ctor_plan w) ->
  exists v w',
    copied vals cap w = (Ok v, w') /\
    v = Vec (Some (next_block w)) (length vals) cap /\
    holds v w' vals /\ sound w' /\ faults w' = faults w /\
    (forall u ys, holds u w ys -> holds u w' ys) /\
    trace w' = trace w ++ [Allocated (next_block w) cap]
                       ++ (Constructed (Some (next_block w)) <$> seq 0 (length vals)).
Proof.
  intros Hs Hpos Hcap Ha Hq. apply successes_quiet in Hq. unfold copied.
  destruct (alloc_plan w) as [|[] aplan] eqn:Hp; [|done|].
  all: rewrite Hq, decide_True by done.
  all: eexists _, _; split; [done|]; split; [done|]; split_and!; simpl; try done.
  all: try (by unfold holds; simpl; rewrite lookup_insert_eq; split_and!; [done|lia|lia|done]).
  all: try (by apply (sound_grown w None)).
  all: intros u ys Hu; apply holds_insert_ne; [done|by apply (holds_not_fresh u w ys)].
Qed.

Lemma copied_throw vals cap w :
  head (alloc_plan w) <> Some true ->
  successes (length vals) (ctor_plan w) < length vals ->
  exists w',
    copied vals cap w = (Throw element_failure, w') /\
    heap w' = heap w /\ faults w' = faults w /\
    trace w' =
      trace w ++ [Allocated (next_block w) cap]
              ++ (Constructed (Some (next_block w))
                    <$> seq 0 (successes (length vals) (ctor_plan w)))
              ++ (Destroyed (Some (next_block w))
                    <$> seq 0 (successes (length vals) (ctor_plan w)))
              ++ [Deallocated (Some (next_block w)) cap].
Proof.
  intros Ha Hj. unfold copied.
  destruct (alloc_plan w) as [|[] aplan] eqn:Hp; [|done|].
  all: rewrite decide_False by lia.
  all: by eexists.
Qed.

Lemma copied_bad_alloc vals cap w plan :
  alloc_plan w = true :: plan ->
  copied vals cap w =
  (Throw bad_alloc,
   World (heap w) (next_block w) plan (ctor_plan w)
         (trace w ++ [Deallocated None cap]) (faults w)).
Proof. intros Hp. unfold copied. by rewrite Hp. Qed.

Lemma construct_nothing (body : M (@frame T) unit) w :
  body (Frame fresh_vec 0 w) = (Ok tt, Frame fresh_vec 0 w) ->
  construct_object body w = (Ok fresh_vec, w).
Proof. intros Hb. unfold construct_object. by rewrite Hb. Qed.

(** X10.  The two initializer-list constructors build a container that holds
    exactly the listed elements, in order, with capacity equal to size, in one
    fresh block; containers that existed before are untouched.  From an empty
    list they allocate nothing and give the empty container. *)
Theorem Vector_init_builds xs w :
  sound w -> head (alloc_plan w) <> Some true -> quiet (length xs) (ctor_plan w) ->
  exists v w',
    construct_object (Vector_init xs) w = (Ok v, w') /\
    construct_object (Vector_init_move xs) w = (Ok v, w') /\
    holds v w' xs /\ Size v = length xs /\ Capacity v = length xs /\
    sound w' /\ faults w' = faults w /\
    (forall u ys, holds u w ys -> holds u w' ys) /\
    (xs = [] -> v = fresh_vec /\ w' = w) /\
    (xs <> [] ->
     buffer_ v = Some (next_block w) /\
     trace w' = trace w ++ [Allocated (next_block w) (length xs)]
                        ++ (Constructed (Some (next_block w)) <$> seq 0 (length xs))).
Proof.
  intros Hs Ha Hq. destruct (decide (xs = [])) as [->|Hne].
  - exists fresh_vec, w. unfold construct_object, Vector_init, Vector_init_move. simpl.
    split_and!; try done; unfold holds; by simpl.
  - destruct (Vector_init_run xs w Hs Hne) as [-> ->].
    assert (0 < length xs) as Hpos by (destruct xs; [done|simpl; lia]).
    destruct (copied_ok xs (length xs) w Hs Hpos ltac:(lia) Ha Hq)
      as (v & w' & -> & -> & Hh & Hs' & Hf & Hu & Ht).
    eexists _, _. split_and!; try done.
Qed.

(** X11.  When the copy of element [j] of the list throws in an
    initializer-list constructor, the [j] elements already built are
    destroyed, the block is released with the count it was obtained with, and
    the heap is what it was before the call. *)
Theorem Vector_init_failure_releases_everything xs w :
  sound w -> head (alloc_plan w) <> Some true ->
  successes (length xs) (ctor_plan w) < length xs ->
  exists w',
    construct_object (Vector_init xs) w = (Throw element_failure, w') /\
    construct_object (Vector_init_move xs) w = (Throw element_failure, w') /\
    heap w' = heap w /\ faults w' = faults w /\
    trace w' =
      trace w ++ [Allocated (next_block w) (length xs)]
              ++ (Constructed (Some (next_block w))
                    <$> seq 0 (successes (length xs) (ctor_plan w)))
              ++ (Destroyed (Some (next_block w))
                    <$> seq 0 (successes (length xs) (ctor_plan w)))
              ++ [Deallocated (Some (next_block w)) (length xs)].
Proof.
  intros Hs Ha Hj.
  assert (xs <> []) as Hne by (intros ->; simpl in Hj; lia).
  destruct (Vector_init_run xs w Hs Hne) as [-> ->].
  destruct (copied_throw xs (length xs) w Ha Hj) as (w' & -> & Hh & Hf & Ht).
  by exists w'.
Qed.

(** X12.  The iterator-range constructor builds the elements of the range,
    in order, in a block of twice as many slots: capacity is [2 * size].  From
    an empty range it allocates nothing. *)
Theorem Vector_range_doubles_capacity range vals w :
  sound w -> Forall2 (yields (next_block w) (heap w)) range vals ->
  head (alloc_plan w) <> Some true -> quiet (length vals) (ctor_plan w) ->
  exists v w',
    construct_object (Vector_range range) w = (Ok v, w') /\
    holds v w' vals /\ Size v = length vals /\ Capacity v = 2 * length vals /\
    sound w' /\ faults w' = faults w /\
    (forall u ys, holds u w ys -> holds u w' ys) /\
    (vals = [] -> v = fresh_vec /\ w' = w).
Proof.
  intros Hs Hy Ha Hq. destruct (decide (vals = [])) as [->|Hne].
  - apply Forall2_nil_inv_r in Hy as ->.
    exists fresh_vec, w. unfold construct_object, Vector_range. simpl.
    split_and!; try done; unfold holds; by simpl.
  - rewrite (Vector_range_run range vals w Hs Hne Hy).
    assert (0 < length vals) as Hpos by (destruct vals; [done|simpl; lia]).
    destruct (copied_ok vals (length vals * 2) w Hs Hpos ltac:(lia) Ha Hq)
      as (v & w' & -> & -> & Hh & Hs' & Hf & Hu & Ht).
    eexists _, _. split_and!; try done. simpl. lia.
Qed.

(** X13.  The copy constructor applied to a container that is not empty
    makes a deep copy: the same elements, size and capacity in a fresh block
    of its own, the source left as it was; the copy compares equal to the
    source when [!=] on elements is irreflexive. *)
Theorem Vector_copy_is_deep other ys w :
  sound w -> holds other w ys -> size_ other <> 0 ->
  head (alloc_plan w) <> Some true -> quiet (size_ other) (ctor_plan w) ->
  exists v w',
    construct_object (Vector_copy other) w = (Ok v, w') /\
    holds v w' ys /\ holds other w' ys /\
    Size v = Size other /\ Capacity v = Capacity other /\
    buffer_ v = Some (next_block w) /\ buffer_ v <> buffer_ other /\
    sound w' /\ faults w' = faults w /\
    (forall u zs, holds u w zs -> holds u w' zs) /\
    ((forall x : T, elem_neq x x = false) -> op_eq v other w' = Some true).
Proof.
  intros Hs Hh Hne Ha Hq. pose proof Hh as (Hlen & Hle & _).
  rewrite (Vector_copy_run other w ys Hs Hh Hne).
  rewrite <- Hlen in Hq.
  destruct (copied_ok ys (capacity_ other) w Hs ltac:(lia) ltac:(lia) Ha Hq)
    as (v & w' & -> & -> & Hv & Hs' & Hf & Hu & Ht).
  eexists _, _. split_and!; try done.
  - by apply Hu.
  - simpl. intros Hb. by apply (holds_not_fresh other w ys).
  - intros Hrefl. unfold op_eq, Size. simpl. rewrite Hlen, Nat.eqb_refl. simpl.
    destruct (equal_from_spec _ _ w' ys ys Hv (Hu _ _ Hh) (size_ other) 0
                ltac:(lia) ltac:(lia)) as (r & Hr & Hiff).
    rewrite Hlen in Hr. rewrite Hr. f_equal. apply Hiff. intros j a c _ Ha' Hc'.
    assert (a = c) as -> by congruence. apply Hrefl.
Qed.

(** X14.  When the copy of element [j] throws in the copy constructor or in
    the iterator-range constructor, the elements already built are destroyed,
    the new block is released with its own count, the heap is what it was and
    the source still holds its elements. *)
Theorem copy_failure_releases_everything other ys range vals w :
  sound w -> head (alloc_plan w) <> Some true ->
  (holds other w ys ->
   successes (length ys) (ctor_plan w) < length ys ->
   exists w',
     construct_object (Vector_copy other) w = (Throw element_failure, w') /\
     heap w' = heap w /\ faults w' = faults w /\ holds other w' ys /\
     trace w' =
       trace w ++ [Allocated (next_block w) (capacity_ other)]
               ++ (Constructed (Some (next_block w))
                     <$> seq 0 (successes (length ys) (ctor_plan w)))
               ++ (Destroyed (Some (next_block w))
                     <$> seq 0 (successes (length ys) (ctor_plan w)))
               ++ [Deallocated (Some (next_block w)) (capacity_ other)]) /\
  (Forall2 (yields (next_block w) (heap w)) range vals ->
   successes (length vals) (ctor_plan w) < length vals ->
   exists w',
     construct_object (Vector_range range) w = (Throw element_failure, w') /\
     heap w' = heap w /\ faults w' = faults w /\
     trace w' =
       trace w ++ [Allocated (next_block w) (length vals * 2)]
               ++ (Constructed (Some (next_block w))
                     <$> seq 0 (successes (length vals) (ctor_plan w)))
               ++ (Destroyed (Some (next_block w))
                     <$> seq 0 (successes (length vals) (ctor_plan w)))
               ++ [Deallocated (Some (next_block w)) (length vals * 2)]).
Proof.
  intros Hs Ha. split.
  - intros Hh Hj. pose proof Hh as (Hlen & Hle & Hbuf).
    assert (size_ other <> 0) as Hne by (destruct ys; simpl in *; lia).
    rewrite (Vector_copy_run other w ys Hs Hh Hne).
    destruct (copied_throw ys (capacity_ other) w Ha Hj) as (w' & -> & Hhp & Hf & Ht).
    exists w'. split_and!; try done.
    unfold holds. rewrite Hhp. done.
  - intros Hy Hj.
    assert (vals <> []) as Hne by (intros ->; simpl in Hj; lia).
    rewrite (Vector_range_run range vals w Hs Hne Hy).
    destruct (copied_throw vals (length vals * 2) w Ha Hj) as (w' & -> & Hhp & Hf & Ht).
    by exists w'.
Qed.

End ConstructorResults.

Section SizedConstructors.
Context {T : Type} `{Element T}.
Implicit Types (w : world T) (v : vec) (xs ys vals : list T) (b : nat) (p : ptr).

Lemma Vector_size_value_run n x w :
  sound w -> n <> 0 ->
  construct_object (Vector_size_value n x) w = copied (replicate n x) n w.
Proof.
  intros Hs Hn. unfold copied, construct_object, Vector_size_value.
  rewrite length_replicate. simpl.
  rewrite (proj2 (Nat.eqb_neq n 0)) by done. simpl.
  destruct (alloc_plan w) as [|[] aplan] eqn:Ha.
  2:{ erewrite allocate_throw by done. simpl. unfold destroy_range. simpl. done. }
  all: rewrite allocate_ok by (by rewrite Ha); simpl.
  all: set (nb := next_block w) in *.
  all: rewrite (fill_in_place nb) by done.
  all: erewrite (fill_loop nb x _ n 0 0 _ [] []); simpl;
    [|by rewrite lookup_insert_eq, app_nil_r|done].
  all: set (j := successes n (ctor_plan w)) in *.
  all: pose proof (successes_le n (ctor_plan w)) as Hle; fold j in Hle.
  all: destruct (decide (j = n)) as [Hj|Hj]; simpl.
  all: rewrite ?insert_insert_eq, ?Ha; simpl.
  1,3: rewrite Hj, Nat.sub_diag; unfold live; simpl;
    by rewrite fmap_replicate, <- !(assoc_L (++)).
  all: pose proof (destroy_range_ok nb (replicate j x) []
                     (replicate (n - j) None ++ [])) as Hd;
    simpl in Hd; rewrite length_replicate, fmap_replicate in Hd;
    rewrite Hd by (by simpl; rewrite lookup_insert_eq); clear Hd; simpl.
  all: rewrite insert_insert_eq.
  all: erewrite deallocate_ok;
    [|by simpl; rewrite lookup_insert_eq
     |rewrite app_nil_r, length_app, !length_replicate; lia]; simpl.
  all: rewrite delete_insert_id by (apply Hs; unfold nb; lia).
  all: by rewrite <- !(assoc_L (++)).
Qed.

Lemma Vector_size_run n x w :
  sound w -> n <> 0 ->
  construct_object (Vector_size_value n x) w = copied (replicate n x) n w /\
  construct_object (Vector_size n) w = copied (replicate n default_value) n w.
Proof.
  intros Hs Hn. split; [by apply Vector_size_value_run|].
  exact (Vector_size_value_run n default_value w Hs Hn).
Qed.

Lemma copied_throw_any vals vals' cap w :
  length vals = length vals' ->
  successes (length vals) (ctor_plan w) < length vals ->
  copied vals cap w = copied vals' cap w.
Proof.
  intros Hl Hj. unfold copied. rewrite <- Hl.
  destruct (alloc_plan w) as [|[] aplan]; [|done|].
  all: by rewrite !decide_False by lia.
Qed.

(** X15.  [Vector(n)] and [Vector(n, value)] build [n] default-constructed
    elements, respectively [n] copies of [value], with capacity [n]; with
    [n = 0] they allocate nothing and give the empty container. *)
Theorem Vector_size_builds n x w :
  sound w -> head (alloc_plan w) <> Some true -> quiet n (ctor_plan w) ->
  exists v wx wd,
    construct_object (Vector_size_value n x) w = (Ok v, wx) /\
    construct_object (Vector_size n) w = (Ok v, wd) /\
    holds v wx (replicate n x) /\ holds v wd (replicate n default_value) /\
    Size v = n /\ Capacity v = n /\
    sound wx /\ sound wd /\ faults wx = faults w /\ faults wd = faults w /\
    (forall u ys, holds u w ys -> holds u wx ys /\ holds u wd ys) /\
    (n = 0 -> v = fresh_vec /\ wx = w /\ wd = w).
Proof.
  intros Hs Ha Hq. destruct (decide (n = 0)) as [->|Hn].
  - exists fresh_vec, w, w. unfold construct_object, Vector_size_value, Vector_size. simpl.
    split_and!; try done; unfold holds; by simpl.
  - destruct (Vector_size_run n x w Hs Hn) as [-> ->].
    destruct (copied_ok (replicate n x) n w Hs) as (v & wx & -> & -> & Hx & Hsx & Hfx & Hux & _);
      rewrite ?length_replicate; [lia|lia|done|done|].
    destruct (copied_ok (replicate n default_value) n w Hs)
      as (v' & wd & -> & -> & Hd & Hsd & Hfd & Hud & _);
      rewrite ?length_replicate; [lia|lia|done|done|].
    rewrite !length_replicate in *.
    eexists _, _, _. split_and!; try done.
    intros u ys Hu. split; [by apply Hux|by apply Hud].
Qed.

(** X16.  When construction number [j] throws in [Vector(n)] or
    [Vector(n, value)], the [j] elements built so far are destroyed, the block
    is released with the count it was obtained with, and the heap is what it
    was. *)
Theorem Vector_size_failure_rolls_back n x w :
  sound w -> head (alloc_plan w) <> Some true ->
  successes n (ctor_plan w) < n ->
  exists w',
    construct_object (Vector_size_value n x) w = (Throw element_failure, w') /\
    construct_object (Vector_size n) w = (Throw element_failure, w') /\
    heap w' = heap w /\ faults w' = faults w /\
    trace w' =
      trace w ++ [Allocated (next_block w) n]
              ++ (Constructed (Some (next_block w)) <$> seq 0 (successes n (ctor_plan w)))
              ++ (Destroyed (Some (next_block w)) <$> seq 0 (successes n (ctor_plan w)))
              ++ [Deallocated (Some (next_block w)) n].
Proof.
  intros Hs Ha Hj.
  assert (n <> 0) as Hn by (intros ->; simpl in Hj; lia).
  destruct (Vector_size_run n x w Hs Hn) as [-> ->].
  destruct (copied_throw (replicate n x) n w Ha) as (w' & Hx & Hh & Hf & Ht);
    rewrite ?length_replicate; [done|].
  rewrite (copied_throw_any (replicate n default_value) (replicate n x))
    by (by rewrite !length_replicate).
  rewrite length_replicate in *.
  by exists w'.
Qed.

(** X17.  When the allocator refuses the block, each throwing constructor
    lets [bad_alloc] through with the heap as it was; its handler has called
    [deallocate] on the null buffer with the capacity it had asked for, and
    has constructed and destroyed nothing. *)
Theorem constructors_allocation_failure xs range vals other ys n x w plan :
  sound w -> alloc_plan w = true :: plan ->
  let failed cap :=
    (Throw bad_alloc,
     World (heap w) (next_block w) plan (ctor_plan w)
           (trace w ++ [Deallocated None cap]) (faults w)) in
  (xs <> [] ->
   construct_object (Vector_init xs) w = failed (length xs) /\
   construct_object (Vector_init_move xs) w = failed (length xs)) /\
  (vals <> [] -> Forall2 (yields (next_block w) (heap w)) range vals ->
   construct_object (Vector_range range) w = failed (length vals * 2)) /\
  (holds other w ys -> size_ other <> 0 ->
   construct_object (Vector_copy other) w = failed (capacity_ other)) /\
  (n <> 0 ->
   construct_object (Vector_size n) w = failed n /\
   construct_object (Vector_size_value n x) w = failed n).
Proof.
  intros Hs Ha failed. split_and!.
  - intros Hne. destruct (Vector_init_run xs w Hs Hne) as [-> ->].
    by rewrite (copied_bad_alloc _ _ _ plan).
  - intros Hne Hy. rewrite (Vector_range_run range vals w Hs Hne Hy).
    by rewrite (copied_bad_alloc _ _ _ plan).
  - intros Hh Hne. rewrite (Vector_copy_run other w ys Hs Hh Hne).
    by rewrite (copied_bad_alloc _ _ _ plan).
  - intros Hn. destruct (Vector_size_run n x w Hs Hn) as [-> ->].
    by rewrite !(copied_bad_alloc _ _ _ plan).
Qed.

End SizedConstructors.

(** ** Destruction and assignment *)

Section Lifetime.
Context {T : Type} `{Element T}.
Implicit Types (w : world T) (v u : vec) (xs ys zs : list T) (b : nat) (p : ptr).

Lemma holds_released u v ys (h : gmap nat (list (option T))) n a cp tr fl w :
  holds u w ys -> heap w = h ->
  buffer_ u = None \/ buffer_ u <> buffer_ v ->
  holds u (World (release (buffer_ v) h) n a cp tr fl) ys.
Proof.
  intros (Hlen & Hle & Hbuf) <- Hne. unfold holds. simpl. split_and!; [done..|].
  destruct (buffer_ u) as [b|] eqn:Hb; [|done].
  destruct Hbuf as [Hcap Hl]. split; [done|].
  unfold release. destruct (buffer_ v) as [c|]; [|done].
  rewrite lookup_delete_ne; [done|]. destruct Hne as [|Hne]; congruence.
Qed.

(** X18.  The destructor destroys the elements in ascending order, then
    releases the block with the container's capacity; the block is gone from
    the heap afterwards, and containers that own other storage still hold
    their elements. *)
Theorem destructor_releases_storage v w xs :
  holds v w xs ->
  destructor v w =
    World (release (buffer_ v) (heap w)) (next_block w) (alloc_plan w) (ctor_plan w)
          (trace w ++ (Destroyed (buffer_ v) <$> seq 0 (size_ v))
                   ++ [Deallocated (buffer_ v) (capacity_ v)])
          (faults w) /\
  (forall b, buffer_ v = Some b -> heap (destructor v w) !! b = None) /\
  (forall u ys, holds u w ys -> buffer_ u = None \/ buffer_ u <> buffer_ v ->
                holds u (destructor v w) ys).
Proof.
  intros Hh. unfold destructor. rewrite (retire_ok v w xs Hh). split_and!; [done| |].
  - intros b Hb. simpl. rewrite Hb. simpl. apply lookup_delete_eq.
  - intros u ys Hu Hne. by eapply holds_released.
Qed.

Lemma copied_then_destroyed vals cap w v w' :
  sound w -> 0 < length vals -> length vals <= cap ->
  copied vals cap w = (Ok v, w') ->
  heap (destructor v w') = heap w /\ faults (destructor v w') = faults w.
Proof.
  intros Hs Hpos Hcap Hc. unfold copied in Hc.
  destruct (alloc_plan w) as [|[] aplan]; [|done|].
  all: destruct (decide _); [|done].
  all: injection Hc as <- <-.
  all: unfold destructor; erewrite (retire_ok _ _ vals);
    [|by unfold holds; simpl; rewrite lookup_insert_eq; split_and!; [done|lia|lia|done]].
  all: simpl; split; [|done].
  all: by rewrite delete_insert_id by (apply Hs; lia).
Qed.

(** X19.  A container built by the initializer-list constructor or by
    [Vector(n, value)] and destroyed at once leaves the heap as it was before
    the construction, with no undefined allocator call on the way. *)
Theorem construct_then_destroy_restores_heap xs n x w :
  sound w -> head (alloc_plan w) <> Some true ->
  (quiet (length xs) (ctor_plan w) ->
   exists v w',
     construct_object (Vector_init xs) w = (Ok v, w') /\
     heap (destructor v w') = heap w /\ faults (destructor v w') = faults w) /\
  (quiet n (ctor_plan w) ->
   exists v w',
     construct_object (Vector_size_value n x) w = (Ok v, w') /\
     heap (destructor v w') = heap w /\ faults (destructor v w') = faults w).
Proof.
  intros Hs Ha. split; intros Hq.
  - destruct (decide (xs = [])) as [->|Hne].
    + exists fresh_vec, w. unfold construct_object, Vector_init. simpl.
      split; [done|]. by unfold destructor, destroy_range, deallocate.
    + assert (0 < length xs) as Hpos by (destruct xs; [done|simpl; lia]).
      destruct (Vector_init_run xs w Hs Hne) as [-> _].
      destruct (copied_ok xs (length xs) w Hs Hpos ltac:(lia) Ha Hq)
        as (v & w' & Hc & _).
      exists v, w'. split; [done|].
      by apply (copied_then_destroyed xs (length xs) w).
  - destruct (decide (n = 0)) as [->|Hn].
    + exists fresh_vec, w. unfold construct_object, Vector_size_value. simpl.
      split; [done|]. by unfold destructor, destroy_range, deallocate.
    + rewrite (Vector_size_value_run n x w Hs Hn).
      destruct (copied_ok (replicate n x) n w Hs) as (v & w' & Hc & _);
        rewrite ?length_replicate; [lia|lia|done|done|].
      exists v, w'. split; [done|].
      apply (copied_then_destroyed (replicate n x) n w); rewrite ?length_replicate;
        [done|lia|lia|done].
Qed.

End Lifetime.

Section CopyAssignment.
Context {T : Type} `{Element T}.
Implicit Types (w : world T) (v u o : vec) (xs ys zs : list T) (b : nat) (p : ptr)
  (objs : gmap nat vec).

Lemma vec_eta v : Vec (buffer_ v) (size_ v) (capacity_ v) = v.
Proof. by destruct v. Qed.

(** X20.  Copy assignment from another, non-empty container: [*this] ends up
    with a fresh block holding the source's elements, with the source's size
    and capacity; its former elements are destroyed and its former block is
    released, after the copy was made; the source is untouched. *)
Theorem copy_assign_replaces this_ other objs v o xs ys w :
  this_ <> other ->
  objs !! this_ = Some v -> objs !! other = Some o ->
  holds v w xs -> holds o w ys -> size_ o <> 0 ->
  sound w -> head (alloc_plan w) <> Some true -> quiet (size_ o) (ctor_plan w) ->
  exists v' w',
    copy_assign this_ other objs w = (Ok tt, <[this_ := v']> objs, w') /\
    holds v' w' ys /\ Size v' = Size o /\ Capacity v' = Capacity o /\
    buffer_ v' = Some (next_block w) /\
    (buffer_ o <> buffer_ v -> holds o w' ys) /\
    (forall b, buffer_ v = Some b -> heap w' !! b = None) /\
    faults w' = faults w /\
    trace w' = trace w ++ [Allocated (next_block w) (capacity_ o)]
                       ++ (Constructed (Some (next_block w)) <$> seq 0 (size_ o))
                       ++ [Deallocated None 0]
                       ++ (Destroyed (buffer_ v) <$> seq 0 (size_ v))
                       ++ [Deallocated (buffer_ v) (capacity_ v)].
Proof.
  intros Hne Hv Ho Hhv Hho Hsz Hs Ha Hq.
  pose proof Hho as (Hlen & Hle & _).
  unfold copy_assign. rewrite decide_False, Hv, Ho by done.
  rewrite (Vector_copy_run o w ys Hs Hho Hsz).
  rewrite <- Hlen in Hq.
  destruct (copied_ok ys (capacity_ o) w Hs ltac:(lia) ltac:(lia) Ha Hq)
    as (v' & w1 & -> & -> & Hh' & Hs1 & Hf1 & Hu1 & Ht1).
  unfold Swap. simpl.
  assert (destructor (Vec None 0 0) w1 =
          World (heap w1) (next_block w1) (alloc_plan w1) (ctor_plan w1)
                (trace w1 ++ [Deallocated None 0]) (faults w1)) as ->
    by (by unfold destructor, destroy_range, deallocate).
  pose proof (holds_not_fresh v w xs Hhv Hs) as Hfresh.
  pose proof (Hu1 v xs Hhv) as Hv1.
  match goal with
  | |- context [deallocate _ _ (destroy_range _ _ _ ?w2)] =>
      pose proof (retire_ok v w2 xs) as Hr
  end.
  rewrite Hr by (by destruct Hv1 as (? & ? & ?)). clear Hr. simpl.
  eexists _, _. split; [done|]. split_and!; simpl; try done.
  - eapply holds_released; [exact Hh'|done|]. right. simpl. congruence.
  - intros Hdiff. eapply holds_released; [by apply Hu1|done|].
    destruct (buffer_ o); [right; congruence|by left].
  - intros b Hb. rewrite Hb. simpl. apply lookup_delete_eq.
  - by rewrite Ht1, Hlen, <- !(assoc_L (++)).
Qed.

(** X21.  Copy assignment of a container to itself does nothing.  When the
    copy fails, by a refused allocation or by a throwing element copy, the
    exception reaches the caller and both containers hold what they held
    before, in an unchanged heap. *)
Theorem copy_assign_strong_guarantee this_ other objs v o xs ys w :
  objs !! this_ = Some v -> objs !! other = Some o ->
  holds v w xs -> holds o w ys -> sound w ->
  copy_assign this_ this_ objs w = (Ok tt, objs, w) /\
  (this_ <> other ->
   head (alloc_plan w) = Some true \/ successes (size_ o) (ctor_plan w) < size_ o ->
   size_ o <> 0 ->
   exists e w',
     copy_assign this_ other objs w = (Throw e, objs, w') /\
     e = (if decide (head (alloc_plan w) = Some true) then bad_alloc else element_failure) /\
     heap w' = heap w /\ faults w' = faults w /\
     holds v w' xs /\ holds o w' ys).
Proof.
  intros Hv Ho Hhv Hho Hs. split.
  - unfold copy_assign. by rewrite decide_True.
  - intros Hne Hfail Hsz. pose proof Hho as (Hlen & Hle & _).
    unfold copy_assign. rewrite decide_False, Hv, Ho by done.
    rewrite (Vector_copy_run o w ys Hs Hho Hsz).
    rewrite vec_eta, insert_id by done.
    destruct (alloc_plan w) as [|[] aplan] eqn:Hp.
    + destruct Hfail as [|Hj]; [done|]. rewrite <- Hlen in Hj.
      destruct (copied_throw ys (capacity_ o) w) as (w' & -> & Hh & Hf & _);
        [by rewrite Hp|done|].
      exists element_failure, w'. rewrite decide_False by done.
      split_and!; try done; unfold holds; by rewrite Hh.
    + rewrite (copied_bad_alloc _ _ _ aplan) by done.
      eexists _, _. rewrite decide_True by done. split_and!; done.
    + destruct Hfail as [|Hj]; [done|]. rewrite <- Hlen in Hj.
      destruct (copied_throw ys (capacity_ o) w) as (w' & -> & Hh & Hf & _);
        [by rewrite Hp|done|].
      exists element_failure, w'. rewrite decide_False by done.
      split_and!; try done; unfold holds; by rewrite Hh.
Qed.

End CopyAssignment.

(** ** Appending, removing and comparing *)

Section AppendAndRemove.
Context {T : Type} `{Element T}.
Implicit Types (w : world T) (v u : vec) (xs ys zs : list T) (b : nat) (p : ptr).

Lemma PopBack_run v w xs :
  holds v w xs -> size_ v <> 0 ->
  call PopBack v w =
  (Ok tt, Vec (buffer_ v) (size_ v - 1) (capacity_ v),
   World (stored (Vec (buffer_ v) (size_ v - 1) (capacity_ v))
                 (take (size_ v - 1) xs) (heap w))
         (next_block w) (alloc_plan w) (ctor_plan w)
         (trace w ++ [Destroyed (buffer_ v) (size_ v - 1)]) (faults w)).
Proof.
  intros Hh Hnz. unfold call, PopBack. simpl.
  rewrite (proj2 (Nat.eqb_neq (size_ v) 0)) by done. simpl.
  pose proof (truncate_ok v w xs (size_ v - 1) Hh ltac:(lia)) as Ht.
  unfold destroy_range in Ht.
  replace (size_ v - (size_ v - 1)) with 1 in Ht by lia.
  unfold each in Ht. simpl in Ht. by rewrite Ht.
Qed.

(** X22.  [PushBack(x)] followed by [PopBack()]: after the push the
    container holds the old elements followed by [x], and [Back()] is [x];
    the pop takes exactly that element away again, leaving the old elements
    in the buffer and with the capacity the push left.  The container holds
    no more elements than the [int] counter of a migration counts. *)
Theorem PushBack_then_PopBack x v w xs :
  holds v w xs -> sound w -> calm w -> fits_int (size_ v) ->
  exists v1 w1 v2 w2,
    call (PushBack x) v w = (Ok tt, v1, w1) /\
    holds v1 w1 (xs ++ [x]) /\ Size v1 = S (Size v) /\ Back v1 w1 = Some x /\
    call PopBack v1 w1 = (Ok tt, v2, w2) /\
    holds v2 w2 xs /\ Size v2 = Size v /\
    Capacity v2 = Capacity v1 /\ buffer_ v2 = buffer_ v1.
Proof.
  intros Hh Hs Hc Hfit. unfold PushBack.
  destruct (EmplaceBack_ok x v w xs Hh Hs Hc Hfit)
    as (v1 & w1 & Hc1 & Hh1 & Hs1 & _ & Hsz1 & _).
  pose proof Hh as (Hlen & _).
  exists v1, w1. eexists _, _. split; [done|]. split; [done|]. split; [done|].
  rewrite (PopBack_run v1 w1 (xs ++ [x]) Hh1) by lia.
  split_and!; try done.
  - unfold Back. rewrite Hsz1.
    rewrite (element_holds v1 w1 (xs ++ [x]) (size_ v) Hh1)
      by (rewrite length_app; simpl; lia).
    rewrite <- Hlen. by rewrite list_lookup_middle.
  - pose proof (holds_truncated v1 w1 (xs ++ [x]) (size_ v1 - 1) (next_block w1)
                  (alloc_plan w1) (ctor_plan w1)
                  (trace w1 ++ [Destroyed (buffer_ v1) (size_ v1 - 1)]) (faults w1)
                  Hh1 ltac:(lia)) as Ht.
    replace (size_ v1 - 1) with (length xs) in Ht |- * by lia.
    rewrite take_app_length in Ht |- *. exact Ht.
  - unfold Size. simpl. lia.
Qed.

(** X23.  When the construction of the new element throws in [EmplaceBack]
    or [PushBack], whichever branch is taken, the container's fields are what
    they were and it holds the same elements in an unchanged heap. *)
Theorem EmplaceBack_failure_keeps_elements x v w xs plan :
  holds v w xs -> sound w ->
  head (alloc_plan w) <> Some true ->
  ctor_plan w = true :: plan ->
  exists w',
    call (EmplaceBack x) v w = (Throw element_failure, v, w') /\
    call (PushBack x) v w = (Throw element_failure, v, w') /\
    holds v w' xs /\ heap w' = heap w /\
    (forall u ys, holds u w ys -> holds u w' ys).
Proof.
  intros Hh Hs Ha Hp.
  destruct (EmplaceBack_construct_throw x v w xs plan Hh Hs Ha Hp)
    as (w' & p & Hc & Hheap & _).
  exists w'. split_and!; try done.
  - unfold holds. by rewrite Hheap.
  - intros u ys Hu. unfold holds. by rewrite Hheap.
Qed.

End AppendAndRemove.

Section ComparisonLaws.
Context {T : Type} `{Element T}.
Implicit Types (w : world T) (v u lhs rhs : vec) (xs ys zs : list T).

(** X24.  Two containers with the same elements, for element types whose
    [!=] and [<] are irreflexive: [==], [<=] and [>=] say true, [!=], [<] and
    [>] say false. *)
Theorem comparison_with_itself v u w xs :
  holds v w xs -> holds u w xs ->
  (forall x : T, elem_neq x x = false) -> (forall x : T, elem_lt x x = false) ->
  op_eq v u w = Some true /\ op_ne v u w = Some false /\
  op_lt v u w = Some false /\ op_gt v u w = Some false /\
  op_le v u w = Some true /\ op_ge v u w = Some true.
Proof.
  intros Hv Hu Hneq Hlt.
  destruct (relational_operators_general v u w xs xs Hv Hu)
    as ((r & He & Hre) & (s & Hl & Hrs) & Hne & Hgt & Hle & Hge).
  destruct (relational_operators_general u v w xs xs Hu Hv)
    as (_ & (s' & Hl' & Hrs') & _).
  assert (forall zs, ~ lex_less zs zs) as Hirr.
  { intros zs (k & _ & [[Hn [c Hc]]|(a & c & Ha & Hc & Hac)]); [congruence|].
    assert (a = c) as -> by congruence. by rewrite Hlt in Hac. }
  assert (r = true) as ->.
  { apply Hre. split.
    - unfold Size. destruct Hv as (Hx & _), Hu as (Hy & _). congruence.
    - intros i a c Ha Hc. assert (a = c) as -> by congruence. apply Hneq. }
  assert (s = false) as ->.
  { destruct s; [|done]. exfalso. apply (Hirr xs). by apply Hrs. }
  assert (s' = false) as ->.
  { destruct s'; [|done]. exfalso. apply (Hirr xs). by apply Hrs'. }
  rewrite Hne, Hgt, Hle, Hge, He, Hl, Hl'. done.
Qed.

(** X25.  A container whose elements are a proper prefix of another's is
    less than it, not equal to it and not greater, whatever the elements. *)
Theorem proper_prefix_is_less lhs rhs w xs y ys :
  holds lhs w xs -> holds rhs w (xs ++ y :: ys) ->
  (forall x : T, elem_lt x x = false) ->
  op_lt lhs rhs w = Some true /\ op_gt rhs lhs w = Some true /\
  op_lt rhs lhs w = Some false /\ op_le lhs rhs w = Some true /\
  op_ge lhs rhs w = Some false /\
  op_eq lhs rhs w = Some false /\ op_ne lhs rhs w = Some true.
Proof.
  intros Hl Hr Hlt.
  destruct (relational_operators_general lhs rhs w _ _ Hl Hr)
    as ((r & He & Hre) & (s & Hs & Hrs) & Hne & Hgt & Hle & Hge).
  destruct (relational_operators_general rhs lhs w _ _ Hr Hl)
    as (_ & (s' & Hs' & Hrs') & _ & Hgt' & _).
  assert (s = true) as ->.
  { apply Hrs. exists (length xs). split.
    - intros i Hi. destruct (lookup_lt_is_Some_2 xs i Hi) as [a Ha].
      exists a, a. rewrite lookup_app_l by done. by repeat split.
    - left. split; [by apply lookup_ge_None|].
      exists y. by rewrite list_lookup_middle. }
  assert (s' = false) as ->.
  { destruct s'; [|done]. exfalso.
    destruct (proj1 Hrs' eq_refl) as (k & Ht & [[Hn [c Hc]]|(a & c & Ha & Hc & Hac)]).
    - apply lookup_lt_Some in Hc. apply lookup_ge_None in Hn.
      rewrite length_app in Hn. lia.
    - apply lookup_lt_Some in Hc as Hk. rewrite lookup_app_l in Ha by done.
      assert (a = c) as -> by congruence. by rewrite Hlt in Hac. }
  assert (r = false) as ->.
  { destruct r; [|done]. exfalso. destruct (proj1 Hre eq_refl) as [Hsz _].
    destruct Hl as (Hx & _), Hr as (Hy & _). unfold Size in Hsz.
    rewrite length_app in Hy. simpl in Hy. lia. }
  unfold op_le. rewrite Hne, Hgt', Hgt, Hge, He, Hs, Hs'. done.
Qed.

End ComparisonLaws.

(** ** Failures while the elements are moved *)

Section MigrationFailures.
Context {T : Type} `{Element T}.
Implicit Types (w : world T) (v u : vec) (xs ys zs : list T) (b : nat) (p : ptr).

Lemma holds_partly_moved v xs (h : gmap nat (list (option T))) j n a cp tr fl w :
  holds v w xs ->
  holds v (World (stored v ((moved_from <$> take j xs) ++ drop j xs) h) n a cp tr fl)
        ((moved_from <$> take j xs) ++ drop j xs).
Proof.
  intros (Hlen & Hle & Hbuf). apply holds_stored; [|done|..].
  - by rewrite length_app, length_fmap, <- length_app, take_drop.
  - intros Hb. by rewrite Hb in Hbuf.
  - intros b Hb. rewrite Hb in Hbuf. by destruct Hbuf.
Qed.

(** X26.  When the move of element [j] throws in [ShrinkToFit], the
    container's fields are restored, but its first [j] elements are left
    moved-from and the new block stays allocated, holding the [j] elements
    moved into it: the handler destroys and releases nothing.  The container
    holds no more elements than the [int] counter of the migration counts. *)
Theorem ShrinkToFit_migration_failure v w xs :
  holds v w xs -> sound w ->
  head (alloc_plan w) <> Some true ->
  successes (size_ v) (ctor_plan w) < size_ v ->
  fits_int (size_ v) ->
  let j := successes (size_ v) (ctor_plan w) in
  let left := (moved_from <$> take j xs) ++ drop j xs in
  exists w',
    call ShrinkToFit v w = (Throw element_failure, v, w') /\
    holds v w' left /\
    heap w' = stored v left (<[next_block w := live (take j xs) (size_ v - j)]> (heap w)) /\
    trace w' = trace w ++ [Allocated (next_block w) (size_ v)]
                       ++ (Constructed (Some (next_block w)) <$> seq 0 j) /\
    faults w' = faults w.
Proof.
  intros Hh Hs Ha Hlt Hfit j left.
  pose proof Hh as (Hlen & Hle & Hbuf).
  pose proof (holds_not_fresh _ _ _ Hh Hs) as Hfresh.
  unfold call, ShrinkToFit. simpl.
  rewrite (proj2 (Nat.eqb_neq (size_ v) 0)) by lia. simpl.
  rewrite allocate_ok by done. simpl.
  set (nb := next_block w) in *.
  erewrite (migrate_throw v 0 _ xs nb []); simpl;
    [|by apply holds_insert_ne|done|by rewrite lookup_insert_eq, app_nil_r|done|done].
  fold j. rewrite insert_insert_eq, app_nil_r, vec_eta.
  eexists. split; [done|]. split_and!; simpl; try done.
  - by eapply holds_partly_moved.
  - by rewrite <- (assoc_L (++)).
Qed.

(** X27.  When the move of element [j] throws in an [EmplaceBack] that
    grows a full container, the handler destroys the new element and releases
    the new block with its own count, without destroying the [j] elements
    moved into it; the container keeps its fields and its block, with its
    first [j] elements moved-from.  The container holds no more elements than
    the [int] counter of the migration counts. *)
Theorem EmplaceBack_migration_failure x v w xs :
  holds v w xs -> sound w ->
  size_ v = capacity_ v -> capacity_ v <> 0 ->
  head (alloc_plan w) <> Some true ->
  head (ctor_plan w) <> Some true ->
  successes (size_ v) (tail (ctor_plan w)) < size_ v ->
  fits_int (size_ v) ->
  let j := successes (size_ v) (tail (ctor_plan w)) in
  let left := (moved_from <$> take j xs) ++ drop j xs in
  let nb := next_block w in
  exists w',
    call (EmplaceBack x) v w = (Throw element_failure, v, w') /\
    holds v w' left /\
    heap w' = stored v left (heap w) /\
    trace w' = trace w ++ [Allocated nb (capacity_ v * 2); Constructed (Some nb) (size_ v)]
                       ++ (Constructed (Some nb) <$> seq 0 j)
                       ++ [Destroyed (Some nb) (size_ v);
                           Deallocated (Some nb) (capacity_ v * 2)] /\
    faults w' = faults w.
Proof.
  intros Hh Hs Hfull Hnz Ha Hc Hlt Hfit j left nb.
  pose proof Hh as (Hlen & Hle & Hbuf).
  pose proof (holds_not_fresh _ _ _ Hh Hs) as Hfresh.
  destruct (buffer_ v) as [b|] eqn:Hb; [|lia]. destruct Hbuf as [_ Hl].
  assert (b <> nb) as Hbn by (unfold nb; congruence).
  unfold call, EmplaceBack. simpl.
  rewrite (proj2 (Nat.ltb_ge (size_ v) (capacity_ v))) by lia. simpl.
  rewrite (proj2 (Nat.eqb_neq (capacity_ v) 0)) by done. simpl.
  rewrite allocate_ok by done. simpl. fold nb.
  erewrite construct_ok;
    [|done|by simpl; rewrite lookup_insert_eq|by apply lookup_replicate_2; lia]; simpl.
  rewrite insert_insert_eq.
  assert (<[size_ v := Some x]> (replicate (capacity_ v * 2) None) =
          replicate (size_ v) None ++ Some x :: replicate (capacity_ v * 2 - S (size_ v)) None)
    as ->.
  { replace (capacity_ v * 2) with (size_ v + S (capacity_ v * 2 - S (size_ v))) at 1 by lia.
    rewrite replicate_add. simpl.
    replace (size_ v) with (length (replicate (size_ v) (@None T)) + 0) at 1
      by (rewrite length_replicate; lia).
    by rewrite insert_app_r. }
  erewrite (migrate_throw v 0 _ xs nb); simpl;
    [|by apply holds_insert_ne; [|rewrite Hb]|by rewrite Hb; congruence
     |by rewrite lookup_insert_eq|done|done].
  fold j. rewrite insert_insert_eq.
  rewrite vec_eta. unfold stored. rewrite Hb.
  set (blk := (Some <$> take j xs) ++ replicate (size_ v - j) None
                ++ Some x :: replicate (capacity_ v * 2 - S (size_ v)) None).
  assert (length (take j xs) = j) as Hjl.
  { rewrite length_take. pose proof (successes_le (size_ v) (tail (ctor_plan w))).
    fold j in H0. lia. }
  assert (blk !! size_ v = Some (Some x)) as Hx.
  { unfold blk. rewrite (assoc_L (++)).
    replace (size_ v) with (length ((Some <$> take j xs) ++ replicate (size_ v - j) None) + 0)
      at 1 by (rewrite length_app, length_fmap, length_replicate, Hjl; lia).
    by rewrite lookup_app_r, Nat.add_0_r, Nat.sub_diag by lia. }
  erewrite destroy_live;
    [|by simpl; rewrite lookup_insert_ne, lookup_insert_eq by done|exact Hx]; simpl.
  erewrite deallocate_ok;
    [|by simpl; rewrite lookup_insert_eq|]; simpl.
  2:{ rewrite length_insert. unfold blk.
      rewrite !length_app, length_fmap, Hjl, length_replicate. simpl.
      rewrite length_replicate. lia. }
  rewrite delete_insert_eq, (insert_insert_ne _ b nb) by done.
  rewrite delete_insert_eq, delete_id
    by (rewrite lookup_insert_ne by done; apply Hs; unfold nb; lia).
  eexists. split; [done|]. split.
  { pose proof (holds_partly_moved v xs (heap w) j (S nb) (tail (alloc_plan w))
      (drop (S j) (tail (ctor_plan w)))
      (((trace w ++ [Allocated nb (capacity_ v * 2)]) ++
               [Constructed (Some nb) (size_ v)]) ++
              (Constructed (Some nb) <$> seq 0 j) ++ [Destroyed (Some nb) (size_ v)] ++
              [Deallocated (Some nb) (capacity_ v * 2)])
      (faults w) w Hh) as Hp.
    unfold stored in Hp. rewrite Hb in Hp. rewrite <- !(assoc_L (++)) in Hp |- *.
    exact Hp. }
  simpl. split_and!; [done| |done].
  by rewrite <- !(assoc_L (++)).
Qed.

End MigrationFailures.

Section ResizeMigrationFailure.
Context {T : Type} `{Element T}.
Implicit Types (w : world T) (v u : vec) (xs ys zs : list T) (b : nat) (p : ptr).

Lemma Resize_value_migration_throw n x v w xs :
  holds v w xs -> sound w -> capacity_ v < n ->
  fits_size (n * 2) -> fits_int (size_ v) ->
  head (alloc_plan w) <> Some true ->
  quiet (n - size_ v) (ctor_plan w) ->
  successes (size_ v) (drop (n - size_ v) (ctor_plan w)) < size_ v ->
  let j := successes (size_ v) (drop (n - size_ v) (ctor_plan w)) in
  let left := (moved_from <$> take j xs) ++ drop j xs in
  let nb := next_block w in
  call (Resize_value n x) v w =
  (Throw element_failure, v,
   World (stored v left (heap w)) (S nb) (tail (alloc_plan w))
         (drop (S j) (drop (n - size_ v) (ctor_plan w)))
         (trace w ++ [Allocated nb (n * 2)]
                  ++ (Constructed (Some nb) <$> seq (size_ v) (n - size_ v))
                  ++ (Constructed (Some nb) <$> seq 0 j)
                  ++ (Destroyed (Some nb) <$> seq (size_ v) (n - size_ v))
                  ++ [Deallocated (Some nb) (capacity_ v)])
         (faults w ++ [BadDeallocate (Some nb) (capacity_ v)])).
Proof.
  intros Hh Hs Hn Hwrap Hfit Ha Hq Hlt j left nb.
  pose proof Hh as (Hlen & Hle & Hbuf).
  pose proof (holds_not_fresh _ _ _ Hh Hs) as Hfresh.
  destruct (buffer_ v) as [b|] eqn:Hb; [|lia]. destruct Hbuf as [_ Hl].
  assert (b <> nb) as Hbn by (unfold nb; congruence).
  unfold call, Resize_value. simpl.
  rewrite (proj2 (Nat.eqb_neq n (size_ v))) by lia.
  rewrite (proj2 (Nat.ltb_ge n (size_ v))) by lia.
  simpl. rewrite (proj2 (Nat.leb_gt n (capacity_ v))) by done.
  simpl. rewrite !(size_mul_fits n 2) by done.
  rewrite allocate_ok by done. simpl. fold nb.
  erewrite (fill_loop nb x v (n - size_ v) (size_ v) 0 _ (replicate (size_ v) None)
              (replicate n None)); simpl.
  2:{ rewrite lookup_insert_eq. f_equal.
      rewrite <- !replicate_add. f_equal. lia. }
  2:{ by rewrite length_replicate. }
  assert (successes (n - size_ v) (ctor_plan w) = n - size_ v) as ->
    by by apply successes_quiet.
  rewrite !decide_True by done. simpl.
  rewrite insert_insert_eq, Nat.sub_diag. simpl.
  erewrite (migrate_throw v (n - size_ v) _ xs nb
              (replicate (n - size_ v) (Some x) ++ replicate n None)); simpl;
    [|by apply holds_insert_ne; [|rewrite Hb]|by rewrite Hb; congruence
     |by rewrite lookup_insert_eq|done|done].
  fold j. rewrite insert_insert_eq, vec_eta.
  unfold stored. rewrite Hb.
  assert (length (take j xs) = j) as Hjl.
  { rewrite length_take. pose proof (successes_le (size_ v)
      (drop (n - size_ v) (ctor_plan w))) as Hj. fold j in Hj. lia. }
  pose proof (destroy_range_ok nb (replicate (n - size_ v) x)
                ((Some <$> take j xs) ++ replicate (size_ v - j) None)
                (replicate n None)) as Hd.
  rewrite fmap_replicate, length_app, length_fmap, Hjl, !length_replicate in Hd.
  replace (j + (size_ v - j)) with (size_ v) in Hd by lia.
  erewrite Hd; clear Hd;
    [|by simpl; rewrite lookup_insert_ne, lookup_insert_eq, <- !(assoc_L (++)) by done].
  simpl.
  erewrite deallocate_miscounted; [|by simpl; rewrite lookup_insert_eq|]; simpl.
  2:{ rewrite !length_app, length_fmap, Hjl, !length_replicate. lia. }
  rewrite delete_insert_eq, (insert_insert_ne _ b nb) by done.
  rewrite delete_insert_eq, delete_id
    by (rewrite lookup_insert_ne by done; apply Hs; unfold nb; lia).
  by rewrite <- !(assoc_L (++)).
Qed.

(** X28.  When the move of element [j] throws in a [Resize] beyond the
    capacity, after the new tail was built: the handler destroys the new tail,
    not the [j] elements moved into the new block, and releases the new block
    with the old capacity as count; the container keeps its fields, with its
    first [j] elements moved-from.  This is so where [n * 2] is a [size_t]
    and the container holds no more elements than the [int] counter of the
    migration counts. *)
Theorem Resize_migration_failure n value v w xs :
  holds v w xs -> sound w -> capacity_ v < n ->
  fits_size (n * 2) -> fits_int (size_ v) ->
  head (alloc_plan w) <> Some true ->
  quiet (n - size_ v) (ctor_plan w) ->
  successes (size_ v) (drop (n - size_ v) (ctor_plan w)) < size_ v ->
  let j := successes (size_ v) (drop (n - size_ v) (ctor_plan w)) in
  let left := (moved_from <$> take j xs) ++ drop j xs in
  let nb := next_block w in
  exists w',
    call (Resize n) v w = (Throw element_failure, v, w') /\
    call (Resize_value n value) v w = (Throw element_failure, v, w') /\
    holds v w' left /\
    heap w' = stored v left (heap w) /\
    trace w' = trace w ++ [Allocated nb (n * 2)]
                       ++ (Constructed (Some nb) <$> seq (size_ v) (n - size_ v))
                       ++ (Constructed (Some nb) <$> seq 0 j)
                       ++ (Destroyed (Some nb) <$> seq (size_ v) (n - size_ v))
                       ++ [Deallocated (Some nb) (capacity_ v)] /\
    faults w' = faults w ++ [BadDeallocate (Some nb) (capacity_ v)].
Proof.
  intros Hh Hs Hn Hwrap Hfit Ha Hq Hlt j left nb.
  unfold call. rewrite Resize_grows_as_Resize_value by done. fold (call (Resize_value n default_value) v w).
  fold (call (Resize_value n value) v w).
  rewrite !(Resize_value_migration_throw n _ v w xs) by done.
  eexists. split; [done|]. split; [done|]. split; [|done].
  by eapply holds_partly_moved.
Qed.

End ResizeMigrationFailure.

(** ** The further properties at concrete containers *)

Import Fixture.

Lemma At_checked_witness :
  holds (held [10%Z; 20%Z] 0) (holding [10%Z; 20%Z] 0 []) [10%Z; 20%Z] /\
  call (At 1) (held [10%Z; 20%Z] 0) (holding [10%Z; 20%Z] 0 []) = (if decide (1 < 2) is left _
      then Ok ([10%Z; 20%Z] !! 1) else Throw out_of_range, held [10%Z; 20%Z] 0, holding [10%Z;
      20%Z] 0 []).
Proof.
  assert (holds (held [10%Z; 20%Z] 0) (holding [10%Z; 20%Z] 0 []) [10%Z; 20%Z]) as H1
    by (apply held_holds; simpl; lia).
  split; [exact H1|].
  exact (At_checked (T:=Z) 1 (held [10; 20]%Z 0) (holding [10; 20]%Z 0 []) [10; 20]%Z H1).
Defined.

Lemma Front_Back_elements_witness :
  holds (held [10%Z; 20%Z] 0) (holding [10%Z; 20%Z] 0 []) [10%Z; 20%Z] /\
  (Front (held [10%Z; 20%Z] 0) (holding [10%Z; 20%Z] 0 []) = head [10%Z; 20%Z] /\
   Back (held [10%Z; 20%Z] 0) (holding [10%Z; 20%Z] 0 []) = last [10%Z; 20%Z] /\
   (forall i : nat, i < 2 -> index (held [10%Z; 20%Z] 0) i (holding [10%Z; 20%Z] 0 []) = [10%Z;
       20%Z] !! i) /\
   Data (held [10%Z; 20%Z] 0) = Some 0).
Proof.
  assert (holds (held [10%Z; 20%Z] 0) (holding [10%Z; 20%Z] 0 []) [10%Z; 20%Z]) as H1
    by (apply held_holds; simpl; lia).
  split; [exact H1|].
  exact (Front_Back_elements (T:=Z) (held [10; 20]%Z 0) (holding [10; 20]%Z 0 []) [10; 20]%Z
           H1).
Defined.

Lemma PopBack_removes_last_witness :
  holds (held [10%Z; 20%Z] 0) (holding [10%Z; 20%Z] 0 []) [10%Z; 20%Z] /\
  (exists (v' : vec) (w' : world Z), call PopBack (held [10%Z; 20%Z] 0) (holding [10%Z; 20%Z] 0
       []) = (Ok (), v', w') /\
   holds v' w' [10%Z] /\
   buffer_ v' = Some 0 /\
   capacity_ v' = 2 /\
   size_ v' = 1 /\
   trace w' = [Destroyed (Some 0) 1] /\
   faults w' = [] /\
   (false = true -> v' = held [10%Z; 20%Z] 0 /\
     w' = holding [10%Z; 20%Z] 0 [])).
Proof.
  assert (holds (held [10%Z; 20%Z] 0) (holding [10%Z; 20%Z] 0 []) [10%Z; 20%Z]) as H1
    by (apply held_holds; simpl; lia).
  split; [exact H1|].
  exact (PopBack_removes_last (T:=Z) (held [10; 20]%Z 0) (holding [10; 20]%Z 0 []) [10; 20]%Z
           H1).
Defined.

Lemma Clear_destroys_all_witness :
  holds (held [10%Z; 20%Z] 0) (holding [10%Z; 20%Z] 0 []) [10%Z; 20%Z] /\
  (exists w' : world Z, call Clear (held [10%Z; 20%Z] 0) (holding [10%Z; 20%Z] 0 []) = (Ok (),
       {| buffer_ := Some 0; size_ := 0; capacity_ := 2 |}, w') /\
   holds {| buffer_ := Some 0; size_ := 0; capacity_ := 2 |} w' [] /\
   trace w' = [Destroyed (Some 0) 0; Destroyed (Some 0) 1] /\
   faults w' = [] /\
   ctor_plan w' = [] /\
   alloc_plan w' = []).
Proof.
  assert (holds (held [10%Z; 20%Z] 0) (holding [10%Z; 20%Z] 0 []) [10%Z; 20%Z]) as H1
    by (apply held_holds; simpl; lia).
  split; [exact H1|].
  exact (Clear_destroys_all (T:=Z) (held [10; 20]%Z 0) (holding [10; 20]%Z 0 []) [10; 20]%Z
           H1).
Defined.

Lemma Resize_shrinks_witness :
  holds (held [10%Z; 20%Z] 0) (holding [10%Z; 20%Z] 0 []) [10%Z; 20%Z] /\
  1 <= size_ (held [10%Z; 20%Z] 0) /\
  (exists w' : world Z, call (Resize 1) (held [10%Z; 20%Z] 0) (holding [10%Z; 20%Z] 0 []) = (Ok
       (), {| buffer_ := Some 0; size_ := 1; capacity_ := 2 |}, w') /\
   call (Resize_value 1 7%Z) (held [10%Z; 20%Z] 0) (holding [10%Z; 20%Z] 0 []) = (Ok (), {|
       buffer_ := Some 0; size_ := 1; capacity_ := 2 |}, w') /\
   holds {| buffer_ := Some 0; size_ := 1; capacity_ := 2 |} w' [10%Z] /\
   trace w' = [Destroyed (Some 0) 1] /\
   ctor_plan w' = [] /\
   alloc_plan w' = [] /\
   faults w' = [] /\
   (1 = 2 -> w' = holding [10%Z; 20%Z] 0 [])).
Proof.
  assert (holds (held [10%Z; 20%Z] 0) (holding [10%Z; 20%Z] 0 []) [10%Z; 20%Z]) as H1
    by (apply held_holds; simpl; lia).
  assert (1 <= size_ (held [10%Z; 20%Z] 0)) as H2
    by (simpl; lia).
  split; [exact H1|].
  split; [exact H2|].
  exact (Resize_shrinks (T:=Z) 1 7%Z (held [10; 20]%Z 0) (holding [10; 20]%Z 0 []) [10; 20]%Z
           H1 H2).
Defined.

Lemma Resize_in_place_witness :
  holds (held [10%Z; 20%Z] 2) (holding [10%Z; 20%Z] 2 []) [10%Z; 20%Z] /\
  size_ (held [10%Z; 20%Z] 2) < 3 /\
  3 <= capacity_ (held [10%Z; 20%Z] 2) /\
  quiet (3 - size_ (held [10%Z; 20%Z] 2)) (ctor_plan (holding [10%Z; 20%Z] 2 [])) /\
  (exists w1 w2 : world Z, call (Resize 3) (held [10%Z; 20%Z] 2) (holding [10%Z; 20%Z] 2 []) =
       (Ok (), {| buffer_ := Some 0; size_ := 3; capacity_ := 4 |}, w1) /\
   call (Resize_value 3 7%Z) (held [10%Z; 20%Z] 2) (holding [10%Z; 20%Z] 2 []) = (Ok (), {|
       buffer_ := Some 0; size_ := 3; capacity_ := 4 |}, w2) /\
   holds {| buffer_ := Some 0; size_ := 3; capacity_ := 4 |} w1 [10%Z; 20%Z; 0%Z] /\
   holds {| buffer_ := Some 0; size_ := 3; capacity_ := 4 |} w2 [10%Z; 20%Z; 7%Z] /\
   trace w1 = [Constructed (Some 0) 2] /\
   trace w2 = [Constructed (Some 0) 2] /\
   alloc_plan w1 = [] /\
   alloc_plan w2 = [] /\
   faults w1 = [] /\
   faults w2 = []).
Proof.
  assert (holds (held [10%Z; 20%Z] 2) (holding [10%Z; 20%Z] 2 []) [10%Z; 20%Z]) as H1
    by (apply held_holds; simpl; lia).
  assert (size_ (held [10%Z; 20%Z] 2) < 3) as H2
    by (simpl; lia).
  assert (3 <= capacity_ (held [10%Z; 20%Z] 2)) as H3
    by (simpl; lia).
  assert (quiet (3 - size_ (held [10%Z; 20%Z] 2)) (ctor_plan (holding [10%Z; 20%Z] 2 []))) as
      H4
    by (intros j _; destruct j; discriminate).
  split; [exact H1|].
  split; [exact H2|].
  split; [exact H3|].
  split; [exact H4|].
  exact (Resize_in_place (T:=Z) 3 7%Z (held [10; 20]%Z 2) (holding [10; 20]%Z 2 []) [10; 20]%Z
           H1 H2 H3 H4).
Defined.

Lemma Resize_in_place_rolls_back_witness :
  holds (held [10%Z; 20%Z] 2) (holding [10%Z; 20%Z] 2 [false; true]) [10%Z; 20%Z] /\
  size_ (held [10%Z; 20%Z] 2) < 4 /\
  4 <= capacity_ (held [10%Z; 20%Z] 2) /\
  (exists j : nat, j < 4 - size_ (held [10%Z; 20%Z] 2) /\
    ctor_plan (holding [10%Z; 20%Z] 2 [false; true]) !! j = Some true) /\
  (exists w1 w2 : world Z, call (Resize 4) (held [10%Z; 20%Z] 2) (holding [10%Z; 20%Z] 2 [false;
       true]) = (Throw element_failure, held [10%Z; 20%Z] 2, w1) /\
   call (Resize_value 4 7%Z) (held [10%Z; 20%Z] 2) (holding [10%Z; 20%Z] 2 [false; true]) =
       (Throw element_failure, held [10%Z; 20%Z] 2, w2) /\
   heap w1 = {[0 := live [10%Z; 20%Z] 2]} /\
   heap w2 = {[0 := live [10%Z; 20%Z] 2]} /\
   holds (held [10%Z; 20%Z] 2) w1 [10%Z; 20%Z] /\
   holds (held [10%Z; 20%Z] 2) w2 [10%Z; 20%Z] /\
   trace w1 = [Constructed (Some 0) 2; Destroyed (Some 0) 2] /\
   trace w2 = trace w1 /\
   faults w1 = [] /\
   faults w2 = []).
Proof.
  assert (holds (held [10%Z; 20%Z] 2) (holding [10%Z; 20%Z] 2 [false; true]) [10%Z; 20%Z]) as
      H1
    by (apply held_holds; simpl; lia).
  assert (size_ (held [10%Z; 20%Z] 2) < 4) as H2
    by (simpl; lia).
  assert (4 <= capacity_ (held [10%Z; 20%Z] 2)) as H3
    by (simpl; lia).
  assert (exists j : nat, j < 4 - size_ (held [10%Z; 20%Z] 2) /\ ctor_plan (holding [10%Z;
      20%Z] 2 [false; true]) !! j = Some true) as H4
    by (exists 1; split; [simpl; lia|reflexivity]).
  split; [exact H1|].
  split; [exact H2|].
  split; [exact H3|].
  split; [exact H4|].
  exact (Resize_in_place_rolls_back (T:=Z) 4 7%Z (held [10; 20]%Z 2) (holding [10; 20]%Z 2
           [false; true]) [10; 20]%Z H1 H2 H3 H4).
Defined.

Lemma Reserve_grows_to_exactly_witness :
  holds (held [10%Z; 20%Z] 0) (holding [10%Z; 20%Z] 0 []) [10%Z; 20%Z] /\
  sound (holding [10%Z; 20%Z] 0 []) /\
  head (alloc_plan (holding [10%Z; 20%Z] 0 [])) <> Some true /\
  quiet (size_ (held [10%Z; 20%Z] 0)) (ctor_plan (holding [10%Z; 20%Z] 0 [])) /\
  fits_int (size_ (held [10%Z; 20%Z] 0)) /\
  capacity_ (held [10; 20]%Z 0) < 4 /\
  ((2 < 4 -> exists w' : world Z, call (Reserve 4) (held [10%Z; 20%Z] 0) (holding [10%Z; 20%Z] 0
       []) = (Ok (), {| buffer_ := Some 1; size_ := 2; capacity_ := 4 |}, w') /\
     holds {| buffer_ := Some 1; size_ := 2; capacity_ := 4 |} w' [10%Z; 20%Z] /\
     sound w' /\
     trace w' = [Allocated 1 4; Constructed (Some 1) 0; Constructed (Some 1) 1; Destroyed (Some
         0) 0; Destroyed (Some 0) 1; Deallocated (Some 0) 2] /\
     (forall b : nat, Some 0 = Some b -> heap w' !! b = None) /\
     faults w' = []) /\
   (4 <= 2 -> call (Reserve 4) (held [10%Z; 20%Z] 0) (holding [10%Z; 20%Z] 0 []) = (Ok (), held
       [10%Z; 20%Z] 0, holding [10%Z; 20%Z] 0 []))).
Proof.
  assert (holds (held [10%Z; 20%Z] 0) (holding [10%Z; 20%Z] 0 []) [10%Z; 20%Z]) as H1
    by (apply held_holds; simpl; lia).
  assert (sound (holding [10%Z; 20%Z] 0 [])) as H2
    by (apply holding_sound).
  assert (head (alloc_plan (holding [10%Z; 20%Z] 0 [])) <> Some true) as H3
    by (simpl; discriminate).
  assert (quiet (size_ (held [10%Z; 20%Z] 0)) (ctor_plan (holding [10%Z; 20%Z] 0 []))) as H4
    by (intros j _; destruct j; discriminate).
  assert (fits_int (size_ (held [10%Z; 20%Z] 0))) as H5
    by (unfold fits_int, int_max; simpl; lia).
  assert (capacity_ (held [10; 20]%Z 0) < 4) as F1
    by (simpl; lia).
  split; [exact H1|].
  split; [exact H2|].
  split; [exact H3|].
  split; [exact H4|].
  split; [exact H5|].
  split; [exact F1|].
  exact (Reserve_grows_to_exactly (T:=Z) 4 (held [10; 20]%Z 0) (holding [10; 20]%Z 0 []) [10;
           20]%Z H1 H2 H3 H4 H5).
Defined.

Lemma allocation_failure_has_no_effect_witness :
  size_ first_object <= capacity_ first_object /\
  alloc_plan (holding_two [true] []) = [true] /\
  capacity_ first_object < 4 /\
  size_ first_object = capacity_ first_object /\
  size_ first_object <> 0 /\
  ((2 < 4 -> call (Reserve 4) first_object (holding_two [true] []) = (Throw bad_alloc,
       first_object, {| heap := {[1 := live [10%Z] 1; 0 := live [10%Z; 20%Z] 0]}; next_block :=
       2; alloc_plan := []; ctor_plan := []; trace := []; faults := [] |})) /\
   (2 < 4 -> call (Resize 4) first_object (holding_two [true] []) = (Throw bad_alloc,
       first_object, {| heap := {[1 := live [10%Z] 1; 0 := live [10%Z; 20%Z] 0]}; next_block :=
       2; alloc_plan := []; ctor_plan := []; trace := []; faults := [] |})) /\
   (2 < 4 -> call (Resize_value 4 7%Z) first_object (holding_two [true] []) = (Throw bad_alloc,
       first_object, {| heap := {[1 := live [10%Z] 1; 0 := live [10%Z; 20%Z] 0]}; next_block :=
       2; alloc_plan := []; ctor_plan := []; trace := []; faults := [] |})) /\
   (2 = 2 -> call (EmplaceBack 5%Z) first_object (holding_two [true] []) = (Throw bad_alloc,
       first_object, {| heap := {[1 := live [10%Z] 1; 0 := live [10%Z; 20%Z] 0]}; next_block :=
       2; alloc_plan := []; ctor_plan := []; trace := []; faults := [] |})) /\
   (2 <> 0 -> call ShrinkToFit first_object (holding_two [true] []) = (Throw bad_alloc,
       first_object, {| heap := {[1 := live [10%Z] 1; 0 := live [10%Z; 20%Z] 0]}; next_block :=
       2; alloc_plan := []; ctor_plan := []; trace := []; faults := [] |}))).
Proof.
  assert (size_ first_object <= capacity_ first_object) as H1
    by (simpl; lia).
  assert (alloc_plan (holding_two [true] []) = [true]) as H2
    by (reflexivity).
  assert (capacity_ first_object < 4) as F1
    by (simpl; lia).
  assert (size_ first_object = capacity_ first_object) as F2
    by (reflexivity).
  assert (size_ first_object <> 0) as F3
    by (simpl; lia).
  split; [exact H1|].
  split; [exact H2|].
  split; [exact F1|].
  split; [exact F2|].
  split; [exact F3|].
  exact (allocation_failure_has_no_effect (T:=Z) 4 4 7%Z 5%Z first_object (holding_two [true]
           []) [] H1 H2).
Defined.

Lemma Vector_init_builds_witness :
  sound peaceful /\
  head (alloc_plan peaceful) <> Some true /\
  quiet (length [10%Z; 20%Z]) (ctor_plan peaceful) /\
  (exists (v : vec) (w' : world Z), construct_object (Vector_init [10%Z; 20%Z]) peaceful = (Ok
       v, w') /\
   construct_object (Vector_init_move [10%Z; 20%Z]) peaceful = (Ok v, w') /\
   holds v w' [10%Z; 20%Z] /\
   Size v = 2 /\
   Capacity v = 2 /\
   sound w' /\
   faults w' = [] /\
   (forall (u : vec) (ys : list Z), holds u peaceful ys -> holds u w' ys) /\
   ([10%Z; 20%Z] = [] -> v = fresh_vec /\
     w' = peaceful) /\
   ([10%Z; 20%Z] <> [] -> buffer_ v = Some 0 /\
     trace w' = [Allocated 0 2; Constructed (Some 0) 0; Constructed (Some 0) 1])).
Proof.
  assert (sound peaceful) as H1
    by (apply peaceful_sound).
  assert (head (alloc_plan peaceful) <> Some true) as H2
    by (simpl; discriminate).
  assert (quiet (length [10%Z; 20%Z]) (ctor_plan peaceful)) as H3
    by (intros j _; destruct j; discriminate).
  split; [exact H1|].
  split; [exact H2|].
  split; [exact H3|].
  exact (Vector_init_builds (T:=Z) [10; 20]%Z peaceful H1 H2 H3).
Defined.

Lemma Vector_init_failure_releases_everything_witness :
  sound (@failing_at Z 1) /\
  head (alloc_plan (@failing_at Z 1)) <> Some true /\
  successes (length [10%Z; 20%Z]) (ctor_plan (@failing_at Z 1)) < length [10%Z; 20%Z] /\
  (exists w' : world Z, construct_object (Vector_init [10%Z; 20%Z]) (@failing_at Z 1) = (Throw
       element_failure, w') /\
   construct_object (Vector_init_move [10%Z; 20%Z]) (@failing_at Z 1) = (Throw element_failure,
       w') /\
   heap w' = ∅ /\
   faults w' = [] /\
   trace w' = [Allocated 0 2; Constructed (Some 0) 0; Destroyed (Some 0) 0; Deallocated (Some 0)
       2]).
Proof.
  assert (sound (@failing_at Z 1)) as H1
    by (intros b _; apply lookup_empty).
  assert (head (alloc_plan (@failing_at Z 1)) <> Some true) as H2
    by (simpl; discriminate).
  assert (successes (length [10%Z; 20%Z]) (ctor_plan (@failing_at Z 1)) < length [10%Z; 20%Z])
      as H3
    by (simpl; lia).
  split; [exact H1|].
  split; [exact H2|].
  split; [exact H3|].
  exact (Vector_init_failure_releases_everything (T:=Z) [10; 20]%Z (failing_at 1) H1 H2 H3).
Defined.

Lemma Vector_range_doubles_capacity_witness :
  sound (holding [10%Z; 20%Z] 0 []) /\
  Forall2 (yields (next_block (holding [10%Z; 20%Z] 0 [])) (heap (holding [10%Z; 20%Z] 0 [])))
      (range_of (held [10%Z; 20%Z] 0)) [10%Z; 20%Z] /\
  head (alloc_plan (holding [10%Z; 20%Z] 0 [])) <> Some true /\
  quiet (length [10%Z; 20%Z]) (ctor_plan (holding [10%Z; 20%Z] 0 [])) /\
  (exists (v : vec) (w' : world Z), construct_object (Vector_range (range_of (held [10%Z; 20%Z]
       0))) (holding [10%Z; 20%Z] 0 []) = (Ok v, w') /\
   holds v w' [10%Z; 20%Z] /\
   Size v = 2 /\
   Capacity v = 4 /\
   sound w' /\
   faults w' = [] /\
   (forall (u : vec) (ys : list Z), holds u (holding [10%Z; 20%Z] 0 []) ys -> holds u w' ys) /\
   ([10%Z; 20%Z] = [] -> v = fresh_vec /\
     w' = holding [10%Z; 20%Z] 0 [])).
Proof.
  assert (sound (holding [10%Z; 20%Z] 0 [])) as H1
    by (apply holding_sound).
  assert (Forall2 (yields (next_block (holding [10%Z; 20%Z] 0 [])) (heap (holding [10%Z; 20%Z]
      0 []))) (range_of (held [10%Z; 20%Z] 0)) [10%Z; 20%Z]) as H2
    by (apply (yields_range_of (T:=Z) (held [10; 20]%Z 0) (holding [10; 20]%Z 0 []) [10; 20]%Z
        1); [apply held_holds; simpl; lia|simpl; discriminate]).
  assert (head (alloc_plan (holding [10%Z; 20%Z] 0 [])) <> Some true) as H3
    by (simpl; discriminate).
  assert (quiet (length [10%Z; 20%Z]) (ctor_plan (holding [10%Z; 20%Z] 0 []))) as H4
    by (intros j _; destruct j; discriminate).
  split; [exact H1|].
  split; [exact H2|].
  split; [exact H3|].
  split; [exact H4|].
  exact (Vector_range_doubles_capacity (T:=Z) (range_of (held [10; 20]%Z 0)) [10; 20]%Z
           (holding [10; 20]%Z 0 []) H1 H2 H3 H4).
Defined.

Lemma Vector_copy_is_deep_witness :
  sound (holding [10%Z; 20%Z] 1 []) /\
  holds (held [10%Z; 20%Z] 1) (holding [10%Z; 20%Z] 1 []) [10%Z; 20%Z] /\
  size_ (held [10%Z; 20%Z] 1) <> 0 /\
  head (alloc_plan (holding [10%Z; 20%Z] 1 [])) <> Some true /\
  quiet (size_ (held [10%Z; 20%Z] 1)) (ctor_plan (holding [10%Z; 20%Z] 1 [])) /\
  (exists (v : vec) (w' : world Z), construct_object (Vector_copy (held [10%Z; 20%Z] 1))
       (holding [10%Z; 20%Z] 1 []) = (Ok v, w') /\
   holds v w' [10%Z; 20%Z] /\
   holds (held [10%Z; 20%Z] 1) w' [10%Z; 20%Z] /\
   Size v = 2 /\
   Capacity v = 3 /\
   buffer_ v = Some 1 /\
   buffer_ v <> Some 0 /\
   sound w' /\
   faults w' = [] /\
   (forall (u : vec) (zs : list Z), holds u (holding [10%Z; 20%Z] 1 []) zs -> holds u w' zs) /\
   ((forall x : Z, elem_neq x x = false) -> op_eq v (held [10%Z; 20%Z] 1) w' = Some true)).
Proof.
  assert (sound (holding [10%Z; 20%Z] 1 [])) as H1
    by (apply holding_sound).
  assert (holds (held [10%Z; 20%Z] 1) (holding [10%Z; 20%Z] 1 []) [10%Z; 20%Z]) as H2
    by (apply held_holds; simpl; lia).
  assert (size_ (held [10%Z; 20%Z] 1) <> 0) as H3
    by (simpl; lia).
  assert (head (alloc_plan (holding [10%Z; 20%Z] 1 [])) <> Some true) as H4
    by (simpl; discriminate).
  assert (quiet (size_ (held [10%Z; 20%Z] 1)) (ctor_plan (holding [10%Z; 20%Z] 1 []))) as H5
    by (intros j _; destruct j; discriminate).
  split; [exact H1|].
  split; [exact H2|].
  split; [exact H3|].
  split; [exact H4|].
  split; [exact H5|].
  exact (Vector_copy_is_deep (T:=Z) (held [10; 20]%Z 1) [10; 20]%Z (holding [10; 20]%Z 1 [])
           H1 H2 H3 H4 H5).
Defined.

Lemma copy_failure_releases_everything_witness :
  sound (holding [10%Z; 20%Z] 1 [false; true]) /\
  head (alloc_plan (holding [10%Z; 20%Z] 1 [false; true])) <> Some true /\
  holds (held [10; 20]%Z 1) (holding [10; 20]%Z 1 [false; true]) [10; 20]%Z /\
  Forall2 (yields (next_block (holding [10; 20]%Z 1 [false; true])) (heap (holding [10; 20]%Z 1
      [false; true]))) (range_of (held [10; 20]%Z 1)) [10; 20]%Z /\
  successes (length [10; 20]%Z) (ctor_plan (holding [10; 20]%Z 1 [false; true])) < length [10;
      20]%Z /\
  ((holds (held [10%Z; 20%Z] 1) (holding [10%Z; 20%Z] 1 [false; true]) [10%Z; 20%Z] -> 1 < 2 ->
       exists w' : world Z, construct_object (Vector_copy (held [10%Z; 20%Z] 1)) (holding [10%Z;
       20%Z] 1 [false; true]) = (Throw element_failure, w') /\
     heap w' = {[0 := live [10%Z; 20%Z] 1]} /\
     faults w' = [] /\
     holds (held [10%Z; 20%Z] 1) w' [10%Z; 20%Z] /\
     trace w' = [Allocated 1 3; Constructed (Some 1) 0; Destroyed (Some 1) 0; Deallocated (Some
         1) 3]) /\
   (Forall2 (yields 1 {[0 := live [10%Z; 20%Z] 1]}) (range_of (held [10%Z; 20%Z] 1)) [10%Z;
       20%Z] -> 1 < 2 -> exists w' : world Z, construct_object (Vector_range (range_of (held
       [10%Z; 20%Z] 1))) (holding [10%Z; 20%Z] 1 [false; true]) = (Throw element_failure, w') /\
     heap w' = {[0 := live [10%Z; 20%Z] 1]} /\
     faults w' = [] /\
     trace w' = [Allocated 1 4; Constructed (Some 1) 0; Destroyed (Some 1) 0; Deallocated (Some
         1) 4])).
Proof.
  assert (sound (holding [10%Z; 20%Z] 1 [false; true])) as H1
    by (apply holding_sound).
  assert (head (alloc_plan (holding [10%Z; 20%Z] 1 [false; true])) <> Some true) as H2
    by (simpl; discriminate).
  assert (holds (held [10; 20]%Z 1) (holding [10; 20]%Z 1 [false; true]) [10; 20]%Z) as F1
    by (apply held_holds; simpl; lia).
  assert (Forall2 (yields (next_block (holding [10; 20]%Z 1 [false; true])) (heap (holding
      [10; 20]%Z 1 [false; true]))) (range_of (held [10; 20]%Z 1)) [10; 20]%Z) as F2
    by (apply (yields_range_of (T:=Z) (held [10; 20]%Z 1) (holding [10; 20]%Z 1 [false; true])
        [10; 20]%Z 1); [apply held_holds; simpl; lia|simpl; discriminate]).
  assert (successes (length [10; 20]%Z) (ctor_plan (holding [10; 20]%Z 1 [false; true])) <
      length [10; 20]%Z) as F3
    by (simpl; lia).
  split; [exact H1|].
  split; [exact H2|].
  split; [exact F1|].
  split; [exact F2|].
  split; [exact F3|].
  exact (copy_failure_releases_everything (T:=Z) (held [10; 20]%Z 1) [10; 20]%Z (range_of
           (held [10; 20]%Z 1)) [10; 20]%Z (holding [10; 20]%Z 1 [false; true]) H1 H2).
Defined.

Lemma Vector_size_builds_witness :
  sound peaceful /\
  head (alloc_plan peaceful) <> Some true /\
  quiet 2 (ctor_plan peaceful) /\
  (exists (v : vec) (wx wd : world Z), construct_object (Vector_size_value 2 7%Z) peaceful = (Ok
       v, wx) /\
   construct_object (Vector_size 2) peaceful = (Ok v, wd) /\
   holds v wx [7%Z; 7%Z] /\
   holds v wd [0%Z; 0%Z] /\
   Size v = 2 /\
   Capacity v = 2 /\
   sound wx /\
   sound wd /\
   faults wx = [] /\
   faults wd = [] /\
   (forall (u : vec) (ys : list Z), holds u peaceful ys -> holds u wx ys /\
     holds u wd ys) /\
   (2 = 0 -> v = fresh_vec /\
     wx = peaceful /\
     wd = peaceful)).
Proof.
  assert (sound peaceful) as H1
    by (apply peaceful_sound).
  assert (head (alloc_plan peaceful) <> Some true) as H2
    by (simpl; discriminate).
  assert (quiet 2 (ctor_plan peaceful)) as H3
    by (intros j _; destruct j; discriminate).
  split; [exact H1|].
  split; [exact H2|].
  split; [exact H3|].
  exact (Vector_size_builds (T:=Z) 2 7%Z peaceful H1 H2 H3).
Defined.

Lemma Vector_size_failure_rolls_back_witness :
  sound (@failing_at Z 1) /\
  head (alloc_plan (@failing_at Z 1)) <> Some true /\
  successes 2 (ctor_plan (@failing_at Z 1)) < 2 /\
  (exists w' : world Z, construct_object (Vector_size_value 2 7%Z) (@failing_at Z 1) = (Throw
       element_failure, w') /\
   construct_object (Vector_size 2) (@failing_at Z 1) = (Throw element_failure, w') /\
   heap w' = ∅ /\
   faults w' = [] /\
   trace w' = [Allocated 0 2; Constructed (Some 0) 0; Destroyed (Some 0) 0; Deallocated (Some 0)
       2]).
Proof.
  assert (sound (@failing_at Z 1)) as H1
    by (intros b _; apply lookup_empty).
  assert (head (alloc_plan (@failing_at Z 1)) <> Some true) as H2
    by (simpl; discriminate).
  assert (successes 2 (ctor_plan (@failing_at Z 1)) < 2) as H3
    by (simpl; lia).
  split; [exact H1|].
  split; [exact H2|].
  split; [exact H3|].
  exact (Vector_size_failure_rolls_back (T:=Z) 2 7%Z (failing_at 1) H1 H2 H3).
Defined.

Lemma constructors_allocation_failure_witness :
  sound (holding_two [true] []) /\
  alloc_plan (holding_two [true] []) = [true] /\
  holds second_object (holding_two [true] []) [10]%Z /\
  Forall2 (yields (next_block (holding_two [true] [])) (heap (holding_two [true] []))) (range_of
      second_object) [10]%Z /\
  (([10%Z; 20%Z] <> [] -> construct_object (Vector_init [10%Z; 20%Z]) (holding_two [true] []) =
       (Throw bad_alloc, {| heap := {[1 := live [10%Z] 1; 0 := live [10%Z; 20%Z] 0]}; next_block
       := 2; alloc_plan := []; ctor_plan := []; trace := [Deallocated None 2]; faults := [] |})
       /\
     construct_object (Vector_init_move [10%Z; 20%Z]) (holding_two [true] []) = (Throw
         bad_alloc, {| heap := {[1 := live [10%Z] 1; 0 := live [10%Z; 20%Z] 0]}; next_block :=
         2; alloc_plan := []; ctor_plan := []; trace := [Deallocated None 2]; faults := [] |}))
         /\
   ([10%Z] <> [] -> Forall2 (yields 2 {[1 := live [10%Z] 1; 0 := live [10%Z; 20%Z] 0]})
       (range_of second_object) [10%Z] -> construct_object (Vector_range (range_of
       second_object)) (holding_two [true] []) = (Throw bad_alloc, {| heap := {[1 := live [10%Z]
       1; 0 := live [10%Z; 20%Z] 0]}; next_block := 2; alloc_plan := []; ctor_plan := []; trace
       := [Deallocated None 2]; faults := [] |})) /\
   (holds second_object (holding_two [true] []) [10%Z] -> 1 <> 0 -> construct_object
       (Vector_copy second_object) (holding_two [true] []) = (Throw bad_alloc, {| heap := {[1 :=
       live [10%Z] 1; 0 := live [10%Z; 20%Z] 0]}; next_block := 2; alloc_plan := []; ctor_plan
       := []; trace := [Deallocated None 2]; faults := [] |})) /\
   (2 <> 0 -> construct_object (Vector_size 2) (holding_two [true] []) = (Throw bad_alloc, {|
       heap := {[1 := live [10%Z] 1; 0 := live [10%Z; 20%Z] 0]}; next_block := 2; alloc_plan :=
       []; ctor_plan := []; trace := [Deallocated None 2]; faults := [] |}) /\
     construct_object (Vector_size_value 2 7%Z) (holding_two [true] []) = (Throw bad_alloc, {|
         heap := {[1 := live [10%Z] 1; 0 := live [10%Z; 20%Z] 0]}; next_block := 2; alloc_plan
         := []; ctor_plan := []; trace := [Deallocated None 2]; faults := [] |}))).
Proof.
  assert (sound (holding_two [true] [])) as H1
    by (intros b Hb; simpl in Hb; unfold holding_two; simpl; rewrite lookup_insert_ne by lia;
        apply lookup_singleton_ne; lia).
  assert (alloc_plan (holding_two [true] []) = [true]) as H2
    by (reflexivity).
  assert (holds second_object (holding_two [true] []) [10]%Z) as F1
    by (unfold holds; simpl; split; [reflexivity|]; split; [lia|]; split; [lia|reflexivity]).
  assert (Forall2 (yields (next_block (holding_two [true] [])) (heap (holding_two [true] [])))
      (range_of second_object) [10]%Z) as F2
    by (apply (yields_range_of (T:=Z) second_object (holding_two [true] []) [10]%Z 2); [unfold
        holds; simpl; split; [reflexivity|]; split; [lia|]; split; [lia|reflexivity]|simpl;
        discriminate]).
  split; [exact H1|].
  split; [exact H2|].
  split; [exact F1|].
  split; [exact F2|].
  exact (constructors_allocation_failure (T:=Z) [10; 20]%Z (range_of second_object) [10]%Z
           second_object [10]%Z 2 7%Z (holding_two [true] []) [] H1 H2).
Defined.

Lemma destructor_releases_storage_witness :
  holds (held [10%Z; 20%Z] 1) (holding [10%Z; 20%Z] 1 []) [10%Z; 20%Z] /\
  (destructor (held [10%Z; 20%Z] 1) (holding [10%Z; 20%Z] 1 []) = {| heap := release (Some 0)
       {[0 := live [10%Z; 20%Z] 1]}; next_block := 1; alloc_plan := []; ctor_plan := []; trace
       := [Destroyed (Some 0) 0; Destroyed (Some 0) 1; Deallocated (Some 0) 3]; faults := [] |}
       /\
   (forall b : nat, Some 0 = Some b -> heap (destructor (held [10%Z; 20%Z] 1) (holding [10%Z;
       20%Z] 1 [])) !! b = None) /\
   forall (u : vec) (ys : list Z), holds u (holding [10%Z; 20%Z] 1 []) ys -> buffer_ u = None \/
       buffer_ u <> Some 0 -> holds u (destructor (held [10%Z; 20%Z] 1) (holding [10%Z; 20%Z] 1
       [])) ys).
Proof.
  assert (holds (held [10%Z; 20%Z] 1) (holding [10%Z; 20%Z] 1 []) [10%Z; 20%Z]) as H1
    by (apply held_holds; simpl; lia).
  split; [exact H1|].
  exact (destructor_releases_storage (T:=Z) (held [10; 20]%Z 1) (holding [10; 20]%Z 1 []) [10;
           20]%Z H1).
Defined.

Lemma construct_then_destroy_restores_heap_witness :
  sound peaceful /\
  head (alloc_plan peaceful) <> Some true /\
  quiet 2 (ctor_plan peaceful) /\
  ((quiet 2 [] -> exists (v : vec) (w' : world Z), construct_object (Vector_init [10%Z; 20%Z])
       peaceful = (Ok v, w') /\
     heap (destructor v w') = ∅ /\
     faults (destructor v w') = []) /\
   (quiet 2 [] -> exists (v : vec) (w' : world Z), construct_object (Vector_size_value 2 7%Z)
       peaceful = (Ok v, w') /\
     heap (destructor v w') = ∅ /\
     faults (destructor v w') = [])).
Proof.
  assert (sound peaceful) as H1
    by (apply peaceful_sound).
  assert (head (alloc_plan peaceful) <> Some true) as H2
    by (simpl; discriminate).
  assert (quiet 2 (ctor_plan peaceful)) as F1
    by (intros j _; destruct j; discriminate).
  split; [exact H1|].
  split; [exact H2|].
  split; [exact F1|].
  exact (construct_then_destroy_restores_heap (T:=Z) [10; 20]%Z 2 7%Z peaceful H1 H2).
Defined.

Lemma copy_assign_replaces_witness :
  0 <> 1 /\
  two_objects !! 0 = Some first_object /\
  two_objects !! 1 = Some second_object /\
  holds first_object (holding_two [] []) [10%Z; 20%Z] /\
  holds second_object (holding_two [] []) [10%Z] /\
  size_ second_object <> 0 /\
  sound (holding_two [] []) /\
  head (alloc_plan (holding_two [] [])) <> Some true /\
  quiet (size_ second_object) (ctor_plan (holding_two [] [])) /\
  (exists (v' : vec) (w' : world Z), copy_assign 0 1 two_objects (holding_two [] []) = (Ok (),
       <[0:=v']> two_objects, w') /\
   holds v' w' [10%Z] /\
   Size v' = 1 /\
   Capacity v' = 2 /\
   buffer_ v' = Some 2 /\
   (Some 1 <> Some 0 -> holds second_object w' [10%Z]) /\
   (forall b : nat, Some 0 = Some b -> heap w' !! b = None) /\
   faults w' = [] /\
   trace w' = [Allocated 2 2; Constructed (Some 2) 0; Deallocated None 0; Destroyed (Some 0) 0;
       Destroyed (Some 0) 1; Deallocated (Some 0) 2]).
Proof.
  assert (0 <> 1) as H1
    by (lia).
  assert (two_objects !! 0 = Some first_object) as H2
    by (reflexivity).
  assert (two_objects !! 1 = Some second_object) as H3
    by (reflexivity).
  assert (holds first_object (holding_two [] []) [10%Z; 20%Z]) as H4
    by (unfold holds; simpl; split; [reflexivity|]; split; [lia|]; split; [lia|reflexivity]).
  assert (holds second_object (holding_two [] []) [10%Z]) as H5
    by (unfold holds; simpl; split; [reflexivity|]; split; [lia|]; split; [lia|reflexivity]).
  assert (size_ second_object <> 0) as H6
    by (simpl; lia).
  assert (sound (holding_two [] [])) as H7
    by (intros b Hb; simpl in Hb; unfold holding_two; simpl; rewrite lookup_insert_ne by lia;
        apply lookup_singleton_ne; lia).
  assert (head (alloc_plan (holding_two [] [])) <> Some true) as H8
    by (simpl; discriminate).
  assert (quiet (size_ second_object) (ctor_plan (holding_two [] []))) as H9
    by (intros j _; destruct j; discriminate).
  split; [exact H1|].
  split; [exact H2|].
  split; [exact H3|].
  split; [exact H4|].
  split; [exact H5|].
  split; [exact H6|].
  split; [exact H7|].
  split; [exact H8|].
  split; [exact H9|].
  exact (copy_assign_replaces (T:=Z) 0 1 two_objects first_object second_object [10; 20]%Z
           [10]%Z (holding_two [] []) H1 H2 H3 H4 H5 H6 H7 H8 H9).
Defined.

Lemma copy_assign_strong_guarantee_witness :
  two_objects !! 0 = Some first_object /\
  two_objects !! 1 = Some second_object /\
  holds first_object (holding_two [] [true]) [10%Z; 20%Z] /\
  holds second_object (holding_two [] [true]) [10%Z] /\
  sound (holding_two [] [true]) /\
  successes (size_ second_object) (ctor_plan (holding_two [] [true])) < size_ second_object /\
  (copy_assign 0 0 two_objects (holding_two [] [true]) = (Ok (), two_objects, holding_two []
       [true]) /\
   (0 <> 1 -> head [] = Some true \/ 0 < 1 -> 1 <> 0 -> exists (e : exn) (w' : world Z),
       copy_assign 0 1 two_objects (holding_two [] [true]) = (Throw e, two_objects, w') /\
     e = (if decide (head [] = Some true) is left _ then bad_alloc else element_failure) /\
     heap w' = {[1 := live [10%Z] 1; 0 := live [10%Z; 20%Z] 0]} /\
     faults w' = [] /\
     holds first_object w' [10%Z; 20%Z] /\
     holds second_object w' [10%Z])).
Proof.
  assert (two_objects !! 0 = Some first_object) as H1
    by (reflexivity).
  assert (two_objects !! 1 = Some second_object) as H2
    by (reflexivity).
  assert (holds first_object (holding_two [] [true]) [10%Z; 20%Z]) as H3
    by (unfold holds; simpl; split; [reflexivity|]; split; [lia|]; split; [lia|reflexivity]).
  assert (holds second_object (holding_two [] [true]) [10%Z]) as H4
    by (unfold holds; simpl; split; [reflexivity|]; split; [lia|]; split; [lia|reflexivity]).
  assert (sound (holding_two [] [true])) as H5
    by (intros b Hb; simpl in Hb; unfold holding_two; simpl; rewrite lookup_insert_ne by lia;
        apply lookup_singleton_ne; lia).
  assert (successes (size_ second_object) (ctor_plan (holding_two [] [true])) < size_
      second_object) as F1
    by (simpl; lia).
  split; [exact H1|].
  split; [exact H2|].
  split; [exact H3|].
  split; [exact H4|].
  split; [exact H5|].
  split; [exact F1|].
  exact (copy_assign_strong_guarantee (T:=Z) 0 1 two_objects first_object second_object [10;
           20]%Z [10]%Z (holding_two [] [true]) H1 H2 H3 H4 H5).
Defined.

Lemma PushBack_then_PopBack_witness :
  holds (held [10%Z; 20%Z] 0) (holding [10%Z; 20%Z] 0 []) [10%Z; 20%Z] /\
  sound (holding [10%Z; 20%Z] 0 []) /\
  calm (holding [10%Z; 20%Z] 0 []) /\
  fits_int (size_ (held [10%Z; 20%Z] 0)) /\
  (exists (v1 : vec) (w1 : world Z) (v2 : vec) (w2 : world Z), call (PushBack 5%Z) (held [10%Z;
       20%Z] 0) (holding [10%Z; 20%Z] 0 []) = (Ok (), v1, w1) /\
   holds v1 w1 [10%Z; 20%Z; 5%Z] /\
   Size v1 = 3 /\
   Back v1 w1 = Some 5%Z /\
   call PopBack v1 w1 = (Ok (), v2, w2) /\
   holds v2 w2 [10%Z; 20%Z] /\
   Size v2 = 2 /\
   Capacity v2 = Capacity v1 /\
   buffer_ v2 = buffer_ v1).
Proof.
  assert (holds (held [10%Z; 20%Z] 0) (holding [10%Z; 20%Z] 0 []) [10%Z; 20%Z]) as H1
    by (apply held_holds; simpl; lia).
  assert (sound (holding [10%Z; 20%Z] 0 [])) as H2
    by (apply holding_sound).
  assert (calm (holding [10%Z; 20%Z] 0 [])) as H3
    by (split; intros j; destruct j; discriminate).
  assert (fits_int (size_ (held [10%Z; 20%Z] 0))) as H4
    by (unfold fits_int, int_max; simpl; lia).
  split; [exact H1|].
  split; [exact H2|].
  split; [exact H3|].
  split; [exact H4|].
  exact (PushBack_then_PopBack (T:=Z) 5%Z (held [10; 20]%Z 0) (holding [10; 20]%Z 0 []) [10;
           20]%Z H1 H2 H3 H4).
Defined.

Lemma EmplaceBack_failure_keeps_elements_witness :
  holds (held [10%Z; 20%Z] 0) (holding [10%Z; 20%Z] 0 [true]) [10%Z; 20%Z] /\
  sound (holding [10%Z; 20%Z] 0 [true]) /\
  head (alloc_plan (holding [10%Z; 20%Z] 0 [true])) <> Some true /\
  ctor_plan (holding [10%Z; 20%Z] 0 [true]) = [true] /\
  (exists w' : world Z, call (EmplaceBack 5%Z) (held [10%Z; 20%Z] 0) (holding [10%Z; 20%Z] 0
       [true]) = (Throw element_failure, held [10%Z; 20%Z] 0, w') /\
   call (PushBack 5%Z) (held [10%Z; 20%Z] 0) (holding [10%Z; 20%Z] 0 [true]) = (Throw
       element_failure, held [10%Z; 20%Z] 0, w') /\
   holds (held [10%Z; 20%Z] 0) w' [10%Z; 20%Z] /\
   heap w' = {[0 := live [10%Z; 20%Z] 0]} /\
   forall (u : vec) (ys : list Z), holds u (holding [10%Z; 20%Z] 0 [true]) ys -> holds u w' ys).
Proof.
  assert (holds (held [10%Z; 20%Z] 0) (holding [10%Z; 20%Z] 0 [true]) [10%Z; 20%Z]) as H1
    by (apply held_holds; simpl; lia).
  assert (sound (holding [10%Z; 20%Z] 0 [true])) as H2
    by (apply holding_sound).
  assert (head (alloc_plan (holding [10%Z; 20%Z] 0 [true])) <> Some true) as H3
    by (simpl; discriminate).
  assert (ctor_plan (holding [10%Z; 20%Z] 0 [true]) = [true]) as H4
    by (reflexivity).
  split; [exact H1|].
  split; [exact H2|].
  split; [exact H3|].
  split; [exact H4|].
  exact (EmplaceBack_failure_keeps_elements (T:=Z) 5%Z (held [10; 20]%Z 0) (holding [10; 20]%Z
           0 [true]) [10; 20]%Z [] H1 H2 H3 H4).
Defined.

Lemma comparison_with_itself_witness :
  holds (held [10%Z; 20%Z] 0) (holding [10%Z; 20%Z] 0 []) [10%Z; 20%Z] /\
  holds (held [10%Z; 20%Z] 0) (holding [10%Z; 20%Z] 0 []) [10%Z; 20%Z] /\
  (forall x : Z, elem_neq x x = false) /\
  (forall x : Z, elem_lt x x = false) /\
  op_eq (held [10%Z; 20%Z] 0) (held [10%Z; 20%Z] 0) (holding [10%Z; 20%Z] 0 []) = Some true /\
  op_ne (held [10%Z; 20%Z] 0) (held [10%Z; 20%Z] 0) (holding [10%Z; 20%Z] 0 []) = Some false /\
  op_lt (held [10%Z; 20%Z] 0) (held [10%Z; 20%Z] 0) (holding [10%Z; 20%Z] 0 []) = Some false /\
  op_gt (held [10%Z; 20%Z] 0) (held [10%Z; 20%Z] 0) (holding [10%Z; 20%Z] 0 []) = Some false /\
  op_le (held [10%Z; 20%Z] 0) (held [10%Z; 20%Z] 0) (holding [10%Z; 20%Z] 0 []) = Some true /\
  op_ge (held [10%Z; 20%Z] 0) (held [10%Z; 20%Z] 0) (holding [10%Z; 20%Z] 0 []) = Some true.
Proof.
  assert (holds (held [10%Z; 20%Z] 0) (holding [10%Z; 20%Z] 0 []) [10%Z; 20%Z]) as H1
    by (apply held_holds; simpl; lia).
  assert (holds (held [10%Z; 20%Z] 0) (holding [10%Z; 20%Z] 0 []) [10%Z; 20%Z]) as H2
    by (apply held_holds; simpl; lia).
  assert (forall x : Z, elem_neq x x = false) as H3
    by (intros x; simpl; rewrite Z.eqb_refl; reflexivity).
  assert (forall x : Z, elem_lt x x = false) as H4
    by (intros x; apply Z.ltb_irrefl).
  split; [exact H1|].
  split; [exact H2|].
  split; [exact H3|].
  split; [exact H4|].
  exact (comparison_with_itself (T:=Z) (held [10; 20]%Z 0) (held [10; 20]%Z 0) (holding [10;
           20]%Z 0 []) [10; 20]%Z H1 H2 H3 H4).
Defined.

Lemma proper_prefix_is_less_witness :
  holds second_object (holding_two [] []) [10%Z] /\
  holds first_object (holding_two [] []) ([10%Z] ++ [20%Z]) /\
  (forall x : Z, elem_lt x x = false) /\
  op_lt second_object first_object (holding_two [] []) = Some true /\
  op_gt first_object second_object (holding_two [] []) = Some true /\
  op_lt first_object second_object (holding_two [] []) = Some false /\
  op_le second_object first_object (holding_two [] []) = Some true /\
  op_ge second_object first_object (holding_two [] []) = Some false /\
  op_eq second_object first_object (holding_two [] []) = Some false /\
  op_ne second_object first_object (holding_two [] []) = Some true.
Proof.
  assert (holds second_object (holding_two [] []) [10%Z]) as H1
    by (unfold holds; simpl; split; [reflexivity|]; split; [lia|]; split; [lia|reflexivity]).
  assert (holds first_object (holding_two [] []) ([10%Z] ++ [20%Z])) as H2
    by (unfold holds; simpl; split; [reflexivity|]; split; [lia|]; split; [lia|reflexivity]).
  assert (forall x : Z, elem_lt x x = false) as H3
    by (intros x; apply Z.ltb_irrefl).
  split; [exact H1|].
  split; [exact H2|].
  split; [exact H3|].
  exact (proper_prefix_is_less (T:=Z) second_object first_object (holding_two [] []) [10]%Z
           20%Z [] H1 H2 H3).
Defined.

Lemma ShrinkToFit_migration_failure_witness :
  holds (held_text 2) (holding_text 2 [false; true]) [[97]; [98]] /\
  sound (holding_text 2 [false; true]) /\
  head (alloc_plan (holding_text 2 [false; true])) <> Some true /\
  successes (size_ (held_text 2)) (ctor_plan (holding_text 2 [false; true])) < size_ (held_text
      2) /\
  fits_int (size_ (held_text 2)) /\
  (exists w' : world (list nat), call ShrinkToFit (held_text 2) (holding_text 2 [false; true]) =
       (Throw element_failure, held_text 2, w') /\
   holds (held_text 2) w' [[]; [98]] /\
   heap w' = stored (held_text 2) [[]; [98]] {[1 := live [[97]] 1; 0 := live [[97]; [98]] 2]} /\
   trace w' = [Allocated 1 2; Constructed (Some 1) 0] /\
   faults w' = []).
Proof.
  assert (holds (held_text 2) (holding_text 2 [false; true]) [[97]; [98]]) as H1
    by (unfold holds; simpl; split; [reflexivity|]; split; [lia|]; split; [lia|reflexivity]).
  assert (sound (holding_text 2 [false; true])) as H2
    by (intros b Hb; simpl in Hb; unfold holding_text; simpl; apply lookup_singleton_ne; lia).
  assert (head (alloc_plan (holding_text 2 [false; true])) <> Some true) as H3
    by (simpl; discriminate).
  assert (successes (size_ (held_text 2)) (ctor_plan (holding_text 2 [false; true])) < size_
      (held_text 2)) as H4
    by (simpl; lia).
  assert (fits_int (size_ (held_text 2))) as H5
    by (unfold fits_int, int_max; simpl; lia).
  split; [exact H1|].
  split; [exact H2|].
  split; [exact H3|].
  split; [exact H4|].
  split; [exact H5|].
  exact (ShrinkToFit_migration_failure (T:=list nat) (held_text 2) (holding_text 2 [false;
           true]) [[97]; [98]] H1 H2 H3 H4 H5).
Defined.

Lemma EmplaceBack_migration_failure_witness :
  holds (held_text 0) (holding_text 0 [false; false; true]) [[97]; [98]] /\
  sound (holding_text 0 [false; false; true]) /\
  size_ (held_text 0) = capacity_ (held_text 0) /\
  capacity_ (held_text 0) <> 0 /\
  head (alloc_plan (holding_text 0 [false; false; true])) <> Some true /\
  head (ctor_plan (holding_text 0 [false; false; true])) <> Some true /\
  successes (size_ (held_text 0)) (tail (ctor_plan (holding_text 0 [false; false; true]))) <
      size_ (held_text 0) /\
  fits_int (size_ (held_text 0)) /\
  (exists w' : world (list nat), call (EmplaceBack [99]) (held_text 0) (holding_text 0 [false;
       false; true]) = (Throw element_failure, held_text 0, w') /\
   holds (held_text 0) w' [[]; [98]] /\
   heap w' = stored (held_text 0) [[]; [98]] {[0 := live [[97]; [98]] 0]} /\
   trace w' = [Allocated 1 4; Constructed (Some 1) 2; Constructed (Some 1) 0; Destroyed (Some 1)
       2; Deallocated (Some 1) 4] /\
   faults w' = []).
Proof.
  assert (holds (held_text 0) (holding_text 0 [false; false; true]) [[97]; [98]]) as H1
    by (unfold holds; simpl; split; [reflexivity|]; split; [lia|]; split; [lia|reflexivity]).
  assert (sound (holding_text 0 [false; false; true])) as H2
    by (intros b Hb; simpl in Hb; unfold holding_text; simpl; apply lookup_singleton_ne; lia).
  assert (size_ (held_text 0) = capacity_ (held_text 0)) as H3
    by (reflexivity).
  assert (capacity_ (held_text 0) <> 0) as H4
    by (simpl; lia).
  assert (head (alloc_plan (holding_text 0 [false; false; true])) <> Some true) as H5
    by (simpl; discriminate).
  assert (head (ctor_plan (holding_text 0 [false; false; true])) <> Some true) as H6
    by (simpl; discriminate).
  assert (successes (size_ (held_text 0)) (tail (ctor_plan (holding_text 0 [false; false;
      true]))) < size_ (held_text 0)) as H7
    by (simpl; lia).
  assert (fits_int (size_ (held_text 0))) as H8
    by (unfold fits_int, int_max; simpl; lia).
  split; [exact H1|].
  split; [exact H2|].
  split; [exact H3|].
  split; [exact H4|].
  split; [exact H5|].
  split; [exact H6|].
  split; [exact H7|].
  split; [exact H8|].
  exact (EmplaceBack_migration_failure (T:=list nat) [99] (held_text 0) (holding_text 0
           [false; false; true]) [[97]; [98]] H1 H2 H3 H4 H5 H6 H7 H8).
Defined.

Lemma Resize_migration_failure_witness :
  holds (held_text 0) (holding_text 0 [false; false; true]) [[97]; [98]] /\
  sound (holding_text 0 [false; false; true]) /\
  capacity_ (held_text 0) < 3 /\
  fits_size (3 * 2) /\
  fits_int (size_ (held_text 0)) /\
  head (alloc_plan (holding_text 0 [false; false; true])) <> Some true /\
  quiet (3 - size_ (held_text 0)) (ctor_plan (holding_text 0 [false; false; true])) /\
  successes (size_ (held_text 0)) (drop (3 - size_ (held_text 0)) (ctor_plan (holding_text 0
      [false; false; true]))) < size_ (held_text 0) /\
  (exists w' : world (list nat), call (Resize 3) (held_text 0) (holding_text 0 [false; false;
       true]) = (Throw element_failure, held_text 0, w') /\
   call (Resize_value 3 [99]) (held_text 0) (holding_text 0 [false; false; true]) = (Throw
       element_failure, held_text 0, w') /\
   holds (held_text 0) w' [[]; [98]] /\
   heap w' = stored (held_text 0) [[]; [98]] {[0 := live [[97]; [98]] 0]} /\
   trace w' = [Allocated 1 6; Constructed (Some 1) 2; Constructed (Some 1) 0; Destroyed (Some 1)
       2; Deallocated (Some 1) 2] /\
   faults w' = [BadDeallocate (Some 1) 2]).
Proof.
  assert (holds (held_text 0) (holding_text 0 [false; false; true]) [[97]; [98]]) as H1
    by (unfold holds; simpl; split; [reflexivity|]; split; [lia|]; split; [lia|reflexivity]).
  assert (sound (holding_text 0 [false; false; true])) as H2
    by (intros b Hb; simpl in Hb; unfold holding_text; simpl; apply lookup_singleton_ne; lia).
  assert (capacity_ (held_text 0) < 3) as H3
    by (simpl; lia).
  assert (fits_size (3 * 2)) as H4
    by (unfold fits_size; simpl; lia).
  assert (fits_int (size_ (held_text 0))) as H5
    by (unfold fits_int, int_max; simpl; lia).
  assert (head (alloc_plan (holding_text 0 [false; false; true])) <> Some true) as H6
    by (simpl; discriminate).
  assert (quiet (3 - size_ (held_text 0)) (ctor_plan (holding_text 0 [false; false; true])))
      as H7
    by (intros j Hj; destruct j; [discriminate|simpl in Hj; lia]).
  assert (successes (size_ (held_text 0)) (drop (3 - size_ (held_text 0)) (ctor_plan
      (holding_text 0 [false; false; true]))) < size_ (held_text 0)) as H8
    by (simpl; lia).
  split; [exact H1|].
  split; [exact H2|].
  split; [exact H3|].
  split; [exact H4|].
  split; [exact H5|].
  split; [exact H6|].
  split; [exact H7|].
  split; [exact H8|].
  exact (Resize_migration_failure (T:=list nat) 3 [99] (held_text 0) (holding_text 0 [false;
           false; true]) [[97]; [98]] H1 H2 H3 H4 H5 H6 H7 H8).
Defined.
